(** * speak-to-speak: the voice assistant of [app.py]

    A shallow embedding of [src/app.py] and the properties of its
    language selector, its three adapters (speech recognition, Gemini
    reply, text to speech) and its session loop.

    The program is sequential Python with exceptions, console input
    and output, one temporary file and three remote services.  It is
    embedded in a state-and-exception monad over a [World]: the world
    holds what the program can observe (the lines waiting on standard
    input, whether [temp_speech.mp3] exists), what the outside
    parties will answer (one scenario per adapter call), and the
    trace of every external call the program has made so far.

    Scope of the model.
    - The adapters and the loop read the global [model] as an
      argument; [init_model] and [startup] compute it.  The
      [except KeyboardInterrupt] clause around the loop is not
      modelled (see the next but one point).
    - A string is held as its UTF-8 encoding.  Stripping, length and
      slices are Python's on every string; lower case is Python's in
      the ASCII characters of its result, which is all the program
      looks at (see [Py]).
    - Every exception raised by a collaborator derives from Python's
      [Exception]; asynchronous interrupts ([KeyboardInterrupt]) are
      not modelled.
    - [microphone.__exit__] may raise when the microphone has no
      stream, which shows in a failed noise adjustment; a stream that
      could be read is closed without an exception (see [mic_exit]).
    - A clip that is being played stops after finitely many polls of
      [get_busy()]. *)

From Stdlib Require Import String Ascii List Bool Arith Lia.
Import ListNotations.
Local Open Scope list_scope.
Local Open Scope string_scope.

(* ================================================================= *)
(** * Python strings

    A Python string is held as its UTF-8 encoding, one [ascii] per
    byte, as the string literals of this file are.  The operations
    below that depend on what a character is -- stripping, lower
    case, length, slices -- read the bytes as the characters they
    encode. *)

Module Py.

(** The one-character strings that cannot be written inside a literal:
    the line feed, the double quote, and two of the white-space
    characters outside ASCII, the no-break space U+00A0 and the
    ideographic space U+3000. *)
Definition NL : string := String (ascii_of_nat 10) EmptyString.
Definition DQ : string := String (ascii_of_nat 34) EmptyString.
Definition NBSP : string :=
  String (ascii_of_nat 194) (String (ascii_of_nat 160) EmptyString).
Definition IDSP : string :=
  String (ascii_of_nat 227) (String (ascii_of_nat 128) (String (ascii_of_nat 128) EmptyString)).

(** ** White space

    [str.strip()] removes the characters for which [str.isspace()]
    holds.  There are 29 of them.  In UTF-8 ten take one byte
    (U+0009-000D, U+001C-0020), two take two bytes (U+0085, U+00A0)
    and seventeen take three (U+1680, U+2000-200A, U+2028, U+2029,
    U+202F, U+205F, U+3000); [is_space1], [is_space2] and
    [is_space3] tell them by their bytes. *)
Definition is_space1 (c : ascii) : bool :=
  let n := nat_of_ascii c in
  ((9 <=? n)%nat && (n <=? 13)%nat) || ((28 <=? n)%nat && (n <=? 32)%nat).

Definition is_space2 (c1 c2 : ascii) : bool :=
  let n2 := nat_of_ascii c2 in
  (nat_of_ascii c1 =? 194)%nat && ((n2 =? 133)%nat || (n2 =? 160)%nat).

Definition is_space3 (c1 c2 c3 : ascii) : bool :=
  let n1 := nat_of_ascii c1 in
  let n2 := nat_of_ascii c2 in
  let n3 := nat_of_ascii c3 in
  ((n1 =? 225)%nat && (n2 =? 154)%nat && (n3 =? 128)%nat)
  || ((n1 =? 226)%nat && (n2 =? 128)%nat
      && (((128 <=? n3)%nat && (n3 <=? 138)%nat)
          || (n3 =? 168)%nat || (n3 =? 169)%nat || (n3 =? 175)%nat))
  || ((n1 =? 226)%nat && (n2 =? 129)%nat && (n3 =? 159)%nat)
  || ((n1 =? 227)%nat && (n2 =? 128)%nat && (n3 =? 128)%nat).

(** What follows the first character of [s] when that character is
    white space. *)
Definition after_space (s : string) : option string :=
  match s with
  | EmptyString => None
  | String c1 s1 =>
      if is_space1 c1 then Some s1 else
      match s1 with
      | EmptyString => None
      | String c2 s2 =>
          if is_space2 c1 c2 then Some s2 else
          match s2 with
          | EmptyString => None
          | String c3 s3 => if is_space3 c1 c2 c3 then Some s3 else None
          end
      end
  end.

(** A string made of white space only (the empty string included). *)
Fixpoint all_space (s : string) : bool :=
  match s with
  | EmptyString => true
  | String c1 s1 =>
      if is_space1 c1 then all_space s1 else
      match s1 with
      | EmptyString => false
      | String c2 s2 =>
          if is_space2 c1 c2 then all_space s2 else
          match s2 with
          | EmptyString => false
          | String c3 s3 => is_space3 c1 c2 c3 && all_space s3
          end
      end
  end.

(** [s.lstrip()]: [s] without the white space it begins with. *)
Fixpoint lstrip (s : string) : string :=
  match s with
  | EmptyString => EmptyString
  | String c1 s1 =>
      if is_space1 c1 then lstrip s1 else
      match s1 with
      | EmptyString => s
      | String c2 s2 =>
          if is_space2 c1 c2 then lstrip s2 else
          match s2 with
          | EmptyString => s
          | String c3 s3 => if is_space3 c1 c2 c3 then lstrip s3 else s
          end
      end
  end.

(** [s.rstrip()]: [s] without the white space it ends with, that is
    cut where what is left is white space only. *)
Fixpoint rstrip (s : string) : string :=
  match s with
  | EmptyString => EmptyString
  | String c s' => if all_space s then EmptyString else String c (rstrip s')
  end.

(** [s.strip()] *)
Definition strip (s : string) : string := rstrip (lstrip s).

(** ** Lower case

    [s.lower()].  The letters [A]-[Z] are the only ASCII characters
    that change, and only two characters outside ASCII have a lower
    case with an ASCII letter in it: the Kelvin sign U+212A, which
    becomes [k], and U+0130, which becomes [i] followed by U+0307.
    Every other character outside ASCII is left as it is here, where
    Python may replace it by another character outside ASCII.  So
    [lower s] is [s.lower()] in every ASCII character of the result,
    and [lower s = t] says what [s.lower() == t] says for every ASCII
    string [t]; the program compares the result with ['q'] and ['c']
    and does nothing else with it. *)
Definition lower_char (c : ascii) : ascii :=
  let n := nat_of_ascii c in
  if (65 <=? n)%nat && (n <=? 90)%nat then ascii_of_nat (n + 32) else c.

Definition is_kelvin (c1 c2 c3 : ascii) : bool :=
  (nat_of_ascii c1 =? 226)%nat && (nat_of_ascii c2 =? 132)%nat
  && (nat_of_ascii c3 =? 170)%nat.

Definition is_dotted_I (c1 c2 : ascii) : bool :=
  (nat_of_ascii c1 =? 196)%nat && (nat_of_ascii c2 =? 176)%nat.

Fixpoint lower (s : string) : string :=
  match s with
  | EmptyString => EmptyString
  | String c1 s1 =>
      match s1 with
      | EmptyString => String (lower_char c1) EmptyString
      | String c2 s2 =>
          if is_dotted_I c1 c2 then
            String "i"%char (String (ascii_of_nat 204) (String (ascii_of_nat 135) (lower s2)))
          else
            match s2 with
            | EmptyString => String (lower_char c1) (lower s1)
            | String c3 s3 =>
                if is_kelvin c1 c2 c3 then String "k"%char (lower s3)
                else String (lower_char c1) (lower s1)
            end
      end
  end.

(** [bool(s)] for a string: non-empty. *)
Definition truthy (s : string) : bool :=
  match s with EmptyString => false | String _ _ => true end.

(** ** Length and slices, counted in characters

    A byte from 128 to 191 continues the character begun before it;
    every other byte begins a character. *)
Definition is_continuation (c : ascii) : bool :=
  let n := nat_of_ascii c in (128 <=? n)%nat && (n <=? 191)%nat.

(** [len(s)] *)
Fixpoint len (s : string) : nat :=
  match s with
  | EmptyString => 0
  | String c s' => (if is_continuation c then 0 else 1) + len s'
  end.

(** [s[:n]] *)
Fixpoint take (n : nat) (s : string) : string :=
  match s with
  | EmptyString => EmptyString
  | String c s' =>
      if is_continuation c then String c (take n s')
      else match n with
           | O => EmptyString
           | S n' => String c (take n' s')
           end
  end.

(** [sub in s] *)
Fixpoint contains (sub s : string) : bool :=
  prefix sub s ||
  match s with
  | EmptyString => false
  | String _ s' => contains sub s'
  end.

(** [sep.join(l)] *)
Definition join (sep : string) (l : list string) : string := String.concat sep l.

(** [c * n] for a one-character string. *)
Fixpoint repeat_char (c : ascii) (n : nat) : string :=
  match n with
  | O => EmptyString
  | S n' => String c (repeat_char c n')
  end.

(** The text shown in log lines: [f"{s[:100]}{'...' if len(s) > 100 else ''}"]. *)
Definition preview (s : string) : string :=
  take 100 s ++ (if (100 <? len s)%nat then "..." else EmptyString).

End Py.

(* ================================================================= *)
(** * Exceptions, results and the trace of external calls *)

(** The exception classes the program tells apart, and one class for
    every other subclass of [Exception]. *)
Inductive ExnClass : Type :=
| ValueError
| PermissionError
| OSError
| EOFError
| WaitTimeoutError       (* speech_recognition.WaitTimeoutError *)
| RequestError           (* speech_recognition.RequestError *)
| UnknownValueError      (* speech_recognition.UnknownValueError *)
| OtherException.

Record Exn : Type := mkExn { exn_class : ExnClass; exn_msg : string }.

Definition is_class (c : ExnClass) (e : Exn) : bool :=
  match c, exn_class e with
  | ValueError, ValueError
  | PermissionError, PermissionError
  | OSError, OSError
  | EOFError, EOFError
  | WaitTimeoutError, WaitTimeoutError
  | RequestError, RequestError
  | UnknownValueError, UnknownValueError
  | OtherException, OtherException => true
  | _, _ => false
  end.

(** What a call produces: a value, or a raised exception. *)
Inductive Res (A : Type) : Type :=
| Val (a : A)
| Exc (e : Exn).
Arguments Val {A} a.
Arguments Exc {A} e.

Inductive Level : Type := INFO | WARNING | ERROR.

(** One entry per external call, in the order the program makes them. *)
Inductive Event : Type :=
| Log (lvl : Level) (msg : string)          (* logger.info / warning / error *)
| Print (msg : string)                      (* print(msg) *)
| Input (prompt : string)                   (* input(prompt) *)
| MicOpen                                   (* microphone.__enter__() *)
| MicClose                                  (* microphone.__exit__(...) *)
| AdjustNoise (duration : nat)              (* recognizer.adjust_for_ambient_noise *)
| Listen (timeout phrase_time_limit : nat)  (* recognizer.listen *)
| RecognizeGoogle (language : string)       (* recognizer.recognize_google *)
| GenerateContent (prompt : string)         (* model.generate_content *)
| Gtts (text lang : string)                 (* gTTS(text=, lang=, slow=False) *)
| TtsSave                                   (* tts.save(temp_audio_file) *)
| MixerInit                                 (* pygame.mixer.init() *)
| MusicLoad                                 (* pygame.mixer.music.load *)
| MusicPlay                                 (* pygame.mixer.music.play() *)
| GetBusy (answer : bool)                   (* pygame.mixer.music.get_busy() *)
| ClockTick (fps : nat)                     (* pygame.time.Clock().tick(fps) *)
| Sleep (ms : nat)                          (* time.sleep(ms / 1000) *)
| GetInit (answer : bool)                   (* pygame.mixer.get_init() *)
| MusicStop                                 (* pygame.mixer.music.stop() *)
| MixerQuit                                 (* pygame.mixer.quit() *)
| PathExists (answer : bool)                (* os.path.exists(temp_audio_file) *)
| OsRemove.                                 (* os.remove(temp_audio_file) *)

(* ================================================================= *)
(** * The outside world *)

(** ** The Gemini service *)

Inductive GenerativeModel : Type := mkModel (model_name : string).

(** Reading an attribute: it is missing ([hasattr] is [False]), it has
    a value, or its getter raises something else than
    [AttributeError]. *)
Inductive Attr (A : Type) : Type :=
| NoAttr
| HasAttr (a : A)
| AttrRaises (e : Exn).
Arguments NoAttr {A}.
Arguments HasAttr {A} a.
Arguments AttrRaises {A} e.

(** [response.prompt_feedback]: [block_reason] is [None] when the
    reason is falsy (unspecified), else the [.name] of the reason. *)
Record PromptFeedback : Type := mkFeedback { block_reason : option string }.

(** One element of [response.parts]; [None] when it has no [text]. *)
Record Part : Type := mkPart { part_text : option string }.

Record Response : Type := mkResponse {
  prompt_feedback : option PromptFeedback;
  text : Attr string;
  parts : list Part
}.

(** What the service does on the one call of [get_ai_response]. *)
Record AiEnv : Type := mkAiEnv { generate_content : Res Response }.

(** ** Microphone and recognizer *)

(** What the devices do during one call of
    [recognize_speech_from_mic].  [mic_close] is what
    [microphone.__exit__] does when there is no stream to close; see
    [mic_exit]. *)
Record MicEnv : Type := mkMicEnv {
  mic_open : Res unit;           (* microphone.__enter__() *)
  adjust_noise : Res unit;       (* adjust_for_ambient_noise *)
  listen : Res unit;             (* listen: the audio itself is opaque *)
  recognize_google : Res string; (* the transcript *)
  mic_close : Res unit           (* microphone.__exit__() without a stream *)
}.

(** [microphone.__exit__(...)] closes the stream that [__enter__] has
    opened.  [sr.Microphone.__enter__] may swallow a failed open and
    return without a stream: every call that reads the source then
    fails, [adjust_for_ambient_noise] being the first, and [__exit__]
    raises on the missing stream.  So [mic_close] decides after a
    failed adjustment; a stream that could be read is closed without
    an exception. *)
Definition mic_exit (env : MicEnv) : Res unit :=
  match adjust_noise env with
  | Val _ => Val tt
  | Exc _ => mic_close env
  end.

(** ** Synthesis, playback and the temporary file *)

(** What gTTS, pygame and the file system do during one call of
    [speak_text].  [mixer_up i] and [music_busy i] are the answers of
    [get_init()] and [get_busy()] at the [i]-th round of the removal
    loop.  The answers are not tied to the calls made before: the
    playback subsystem may be any backend.  With pygame itself the
    mixer is down after [quit()], that is [mixer_up i = false] for
    every [i]. *)
Record TtsEnv : Type := mkTtsEnv {
  gtts_new : Res unit;           (* gTTS(...) *)
  tts_save : Res unit;           (* tts.save(...) *)
  save_leaves_file : bool;       (* a failed save has created the file *)
  mixer_init : Res unit;
  music_load : Res unit;
  music_play : Res unit;
  busy_ticks : nat;              (* polls answered "busy" while playing *)
  mixer_up_at_exit : bool;       (* get_init() on entry to [finally] *)
  mixer_up : nat -> bool;
  music_busy : nat -> bool;
  os_remove : Res unit
}.

(** ** The world *)

Record World : Type := mkWorld {
  stdin : list string;           (* lines not read yet *)
  temp_file : bool;              (* temp_speech.mp3 exists *)
  mic_env : nat -> MicEnv;       (* scenario of the n-th microphone turn *)
  mic_turns : nat;
  ai_env : nat -> AiEnv;         (* scenario of the n-th request *)
  ai_turns : nat;
  tts_env : nat -> TtsEnv;       (* scenario of the n-th utterance *)
  tts_turns : nat;
  trace : list Event             (* newest first *)
}.

Definition emit_event (e : Event) (w : World) : World :=
  mkWorld (stdin w) (temp_file w) (mic_env w) (mic_turns w)
          (ai_env w) (ai_turns w) (tts_env w) (tts_turns w) (e :: trace w).

Definition set_stdin (l : list string) (w : World) : World :=
  mkWorld l (temp_file w) (mic_env w) (mic_turns w)
          (ai_env w) (ai_turns w) (tts_env w) (tts_turns w) (trace w).

Definition set_temp_file (b : bool) (w : World) : World :=
  mkWorld (stdin w) b (mic_env w) (mic_turns w)
          (ai_env w) (ai_turns w) (tts_env w) (tts_turns w) (trace w).

Definition next_mic_turn (w : World) : World :=
  mkWorld (stdin w) (temp_file w) (mic_env w) (S (mic_turns w))
          (ai_env w) (ai_turns w) (tts_env w) (tts_turns w) (trace w).

Definition next_ai_turn (w : World) : World :=
  mkWorld (stdin w) (temp_file w) (mic_env w) (mic_turns w)
          (ai_env w) (S (ai_turns w)) (tts_env w) (tts_turns w) (trace w).

Definition next_tts_turn (w : World) : World :=
  mkWorld (stdin w) (temp_file w) (mic_env w) (mic_turns w)
          (ai_env w) (ai_turns w) (tts_env w) (S (tts_turns w)) (trace w).

(* ================================================================= *)
(** * The monad of the program: state and exceptions *)

Definition M (A : Type) : Type := World -> Res A * World.

Definition ret {A} (a : A) : M A := fun w => (Val a, w).

Definition raise {A} (e : Exn) : M A := fun w => (Exc e, w).

Definition bind {A B} (m : M A) (k : A -> M B) : M B :=
  fun w =>
    match m w with
    | (Val a, w') => k a w'
    | (Exc e, w') => (Exc e, w')
    end.

(** [try: body  except ...: handler e]; a handler that does not match
    re-raises. *)
Definition try_except {A} (body : M A) (handler : Exn -> M A) : M A :=
  fun w =>
    match body w with
    | (Val a, w') => (Val a, w')
    | (Exc e, w') => handler e w'
    end.

(** [try: body  finally: fin] *)
Definition try_finally {A} (body : M A) (fin : M unit) : M A :=
  fun w =>
    match body w with
    | (r, w') =>
        match fin w' with
        | (Val _, w'') => (r, w'')
        | (Exc e, w'') => (Exc e, w'')
        end
    end.

Declare Scope py_scope.
Delimit Scope py_scope with py.
Notation "x <- m ;; k" := (bind m (fun x => k))
  (at level 100, m at next level, right associativity) : py_scope.
Notation "m ;; k" := (bind m (fun _ => k))
  (at level 100, right associativity) : py_scope.
Local Open Scope py_scope.

(** A call that answers nothing and cannot fail. *)
Definition emit (e : Event) : M unit := fun w => (Val tt, emit_event e w).

(** A call whose outcome [r] the outside world decides. *)
Definition call {A} (e : Event) (r : Res A) : M A := fun w => (r, emit_event e w).

Definition log (lvl : Level) (msg : string) : M unit := emit (Log lvl msg).
Definition print (msg : string) : M unit := emit (Print msg).

(** [input(prompt)]: the next line, or [EOFError] when there is none. *)
Definition input (prompt : string) : M string :=
  fun w =>
    match stdin w with
    | [] => (Exc (mkExn EOFError "EOF when reading a line"), emit_event (Input prompt) w)
    | line :: rest => (Val line, set_stdin rest (emit_event (Input prompt) w))
    end.

(** [for x in l: f x] *)
Fixpoint for_each {A} (l : list A) (f : A -> M unit) : M unit :=
  match l with
  | [] => ret tt
  | x :: l' => f x ;; for_each l' f
  end.

(* ================================================================= *)
(** * Language configuration *)

Record LangInfo : Type := mkLang {
  name : string;
  code : string;
  gtts_lang : string
}.

(** The dict [SUPPORTED_LANGUAGES], in insertion order. *)
Definition SUPPORTED_LANGUAGES : list (string * LangInfo) :=
  [ ("1", mkLang "English (US)" "en-US" "en");
    ("2", mkLang "Hindi (India)" "hi-IN" "hi");
    ("3", mkLang "Kannada (India)" "kn-IN" "kn") ].

(** [d[key]] when [key in d]. *)
Fixpoint lookup {V} (key : string) (d : list (string * V)) : option V :=
  match d with
  | [] => None
  | (k, v) :: d' => if String.eqb key k then Some v else lookup key d'
  end.

(* ================================================================= *)
(** * Language selector *)

Definition choice_prompt : string := "Enter the number of your choice: ".

(** The [while True] loop of [select_language].  Every round reads one
    line, and [input] raises [EOFError] when none is left, so the loop
    makes at most one round per waiting line: [rounds] counts the
    rounds still allowed after the current one, and
    [select_language] starts it with the number of waiting lines. *)
Fixpoint select_language_loop (rounds : nat) : M LangInfo :=
  choice <- input choice_prompt ;;
  match lookup choice SUPPORTED_LANGUAGES with
  | Some info => ret info
  | None =>
      print "Invalid choice. Please try again." ;;
      match rounds with
      | S rounds' => select_language_loop rounds'
      | O => raise (mkExn EOFError "EOF when reading a line")
      end
  end.

Definition select_language : M LangInfo :=
  print (Py.NL ++ "Please select a language for speech recognition and TTS:") ;;
  for_each SUPPORTED_LANGUAGES
    (fun '(key, lang_info) => print (key ++ ": " ++ name lang_info)) ;;
  fun w => select_language_loop (List.length (stdin w)) w.

(* ================================================================= *)
(** * Speech recognition *)

(** The objects handed to [recognize_speech_from_mic]. *)
Inductive PyObject : Type :=
| SrRecognizer      (* an instance of sr.Recognizer *)
| SrMicrophone      (* an instance of sr.Microphone *)
| SomethingElse.

Definition isinstance_Recognizer (o : PyObject) : bool :=
  match o with SrRecognizer => true | _ => false end.

Definition isinstance_Microphone (o : PyObject) : bool :=
  match o with SrMicrophone => true | _ => false end.

(** The dict returned by [recognize_speech_from_mic]: its three keys. *)
Record SpeechResult : Type := mkSpeech {
  success : bool;
  error : option string;
  transcription : option string
}.

Definition next_mic_env : M MicEnv :=
  fun w => (Val (mic_env w (mic_turns w)), next_mic_turn w).

(** [with microphone as source: body].  [__exit__] runs when the body
    is left, by [return] too, and what it raises leaves the
    statement. *)
Definition with_microphone {A} (env : MicEnv) (body : M A) : M A :=
  call MicOpen (mic_open env) ;;
  try_finally body (call MicClose (mic_exit env)).

(** The [with] block: either the dict of an early [return], or the
    captured audio. *)
Definition capture (env : MicEnv) (language_name : string) : M (SpeechResult + unit) :=
  with_microphone env
    (print (Py.NL ++ "Adjusting for ambient noise, please wait...") ;;
     adjusted <-
       try_except
         (call (AdjustNoise 1) (adjust_noise env) ;; ret None)
         (fun e =>
            log ERROR ("Error adjusting for ambient noise: " ++ exn_msg e) ;;
            ret (Some (mkSpeech false
                         (Some ("Ambient noise adjustment failed: " ++ exn_msg e)) None))) ;;
     match adjusted with
     | Some early => ret (inl early)
     | None =>
         print ("Listening in " ++ language_name ++ ". Please start speaking...") ;;
         try_except
           (audio <- call (Listen 7 20) (listen env) ;; ret (inr audio))
           (fun e =>
              if is_class WaitTimeoutError e then
                log INFO "No speech detected within the time limit." ;;
                ret (inl (mkSpeech true (Some "No speech detected") None))
              else
                log ERROR ("Error during listening: " ++ exn_msg e) ;;
                ret (inl (mkSpeech false (Some ("Listening failed: " ++ exn_msg e)) None)))
     end).

Definition recognize_speech_from_mic (recognizer microphone : PyObject)
    (language_code language_name : string) : M SpeechResult :=
  if negb (isinstance_Recognizer recognizer) then
    log ERROR "Recognizer not an instance of sr.Recognizer" ;;
    ret (mkSpeech false (Some "Recognizer not properly initialized.") None)
  else if negb (isinstance_Microphone microphone) then
    log ERROR "Microphone not an instance of sr.Microphone" ;;
    ret (mkSpeech false (Some "Microphone not properly initialized.") None)
  else
    env <- next_mic_env ;;
    captured <- capture env language_name ;;
    match captured with
    | inl early => ret early
    | inr audio =>
        print "Processing your speech..." ;;
        try_except
          (transcript <- call (RecognizeGoogle language_code) (recognize_google env) ;;
           ret (mkSpeech true None (Some transcript)))
          (fun e =>
             if is_class RequestError e then
               log ERROR ("API unavailable or request error: " ++ exn_msg e) ;;
               ret (mkSpeech false
                      (Some "API unavailable. Check your internet connection or API quota.")
                      None)
             else if is_class UnknownValueError e then
               log INFO "Google Speech Recognition could not understand audio" ;;
               ret (mkSpeech true (Some "Unable to recognize speech.") None)
             else
               log ERROR ("An unexpected error occurred during speech recognition: "
                          ++ exn_msg e) ;;
               ret (mkSpeech false (Some ("Speech recognition failed: " ++ exn_msg e)) None))
    end.

(* ================================================================= *)
(** * Text to speech *)

(** What a caller may pass as [text_to_speak]. *)
Inductive PyVal : Type :=
| PyStr (s : string)
| PyNone
| PyOther (truth : bool).     (* any other object, with its truth value *)

Definition py_truthy (v : PyVal) : bool :=
  match v with
  | PyStr s => Py.truthy s
  | PyNone => false
  | PyOther b => b
  end.

Definition isinstance_str (v : PyVal) : bool :=
  match v with PyStr _ => true | _ => false end.

Definition str_of (v : PyVal) : string :=
  match v with PyStr s => s | _ => EmptyString end.

Definition temp_audio_file : string := "temp_speech.mp3".

Definition next_tts_env : M TtsEnv :=
  fun w => (Val (tts_env w (tts_turns w)), next_tts_turn w).

(** A call with a boolean answer that cannot fail. *)
Definition ask (e : bool -> Event) (answer : bool) : M bool :=
  fun w => (Val answer, emit_event (e answer) w).

(** [tts.save(temp_audio_file)]: it writes the file, or fails and
    leaves it written or not. *)
Definition save (env : TtsEnv) : M unit :=
  fun w =>
    match tts_save env with
    | Val _ => (Val tt, set_temp_file true (emit_event TtsSave w))
    | Exc e => (Exc e, set_temp_file (temp_file w || save_leaves_file env)
                         (emit_event TtsSave w))
    end.

(** [os.path.exists(temp_audio_file)] *)
Definition path_exists : M bool :=
  fun w => (Val (temp_file w), emit_event (PathExists (temp_file w)) w).

(** [os.remove(temp_audio_file)]: the file is gone, or the call fails
    and the file stays. *)
Definition remove (env : TtsEnv) : M unit :=
  fun w =>
    match os_remove env with
    | Val _ => (Val tt, set_temp_file false (emit_event OsRemove w))
    | Exc e => (Exc e, emit_event OsRemove w)
    end.

(** [while pygame.mixer.music.get_busy(): pygame.time.Clock().tick(10)] *)
Fixpoint wait_while_busy (ticks : nat) : M unit :=
  match ticks with
  | O => ask GetBusy false ;; ret tt
  | S ticks' => ask GetBusy true ;; emit (ClockTick 10) ;; wait_while_busy ticks'
  end.

(** The [for _ in range(3)] loop of the [finally] block, from round
    [i] on with [rounds] rounds left; [true] when it left by [break]. *)
Fixpoint remove_rounds (env : TtsEnv) (i rounds : nat) : M bool :=
  match rounds with
  | O => ret false
  | S rounds' =>
      up <- ask GetInit (mixer_up env i) ;;
      busy <- (if up then ask GetBusy (music_busy env i) else ret false) ;;
      if negb up || negb busy then
        remove env ;; ret true
      else
        emit (Sleep 100) ;; remove_rounds env (S i) rounds'
  end.

(** The [finally] block of [speak_text]. *)
Definition cleanup (env : TtsEnv) : M unit :=
  up <- ask GetInit (mixer_up_at_exit env) ;;
  (if up then emit MusicStop ;; emit MixerQuit else ret tt) ;;
  present <- path_exists ;;
  if present then
    try_except
      (removed <- remove_rounds env 0 3 ;;
       if removed then ret tt
       else
         still <- path_exists ;;
         if still then
           log WARNING ("Could not delete temporary file: " ++ temp_audio_file
                        ++ ". It might be in use.")
         else ret tt)
      (fun e =>
         if is_class PermissionError e then
           log WARNING ("Permission denied to delete " ++ temp_audio_file ++ ".")
         else
           log ERROR ("Error deleting temp file " ++ temp_audio_file ++ ": " ++ exn_msg e))
  else ret tt.

(** The [try] block of [speak_text]. *)
Definition synthesize_and_play (env : TtsEnv) (text lang : string) : M unit :=
  log INFO ("Generating speech in " ++ lang ++ " for: '" ++ Py.preview text ++ "'") ;;
  call (Gtts text lang) (gtts_new env) ;;
  save env ;;
  call MixerInit (mixer_init env) ;;
  call MusicLoad (music_load env) ;;
  log INFO "Playing audio..." ;;
  call MusicPlay (music_play env) ;;
  wait_while_busy (busy_ticks env) ;;
  emit (Sleep 500).

(** The [except ValueError] and [except Exception] clauses. *)
Definition report_tts_error (lang : string) (e : Exn) : M unit :=
  if is_class ValueError e then
    if Py.contains "is not a valid language code" (exn_msg e) then
      log ERROR ("gTTS does not support the language code '" ++ lang ++ "'. Error: "
                 ++ exn_msg e) ;;
      print ("Sorry, I cannot speak in " ++ lang
             ++ ". Please check the language support for gTTS.")
    else
      log ERROR ("TTS/playback error: " ++ exn_msg e) ;;
      print ("An error occurred during text-to-speech: " ++ exn_msg e)
  else
    log ERROR ("TTS/playback error: " ++ exn_msg e) ;;
    print ("An error occurred during text-to-speech: " ++ exn_msg e).

Definition speak_text (text_to_speak : PyVal) (gtts_lang_code : string) : M unit :=
  if negb (py_truthy text_to_speak) || negb (isinstance_str text_to_speak) then
    log WARNING "No valid text provided to speak. Skipping TTS."
  else
    env <- next_tts_env ;;
    try_finally
      (try_except
         (synthesize_and_play env (str_of text_to_speak) gtts_lang_code)
         (report_tts_error gtts_lang_code))
      (cleanup env).

(* ================================================================= *)
(** * Gemini reply *)

Definition reply_unavailable : string :=
  "Gemini AI model is not available. Please check your API key and configuration.".
Definition reply_no_input : string :=
  "I didn't receive any input. How can I help you?".
Definition reply_unusual : string :=
  "Sorry, I received an unusual response from Gemini AI.".
Definition reply_error : string :=
  "Sorry, I encountered an error while trying to get a response from Gemini AI.".
Definition reply_blocked (reason : string) : string :=
  "Sorry, your request was blocked by the AI for safety reasons (" ++ reason
  ++ "). Please try rephrasing.".

Definition next_ai_env : M AiEnv :=
  fun w => (Val (ai_env w (ai_turns w)), next_ai_turn w).

(** [model.generate_content(prompt)] *)
Definition generate (prompt : string) : M Response :=
  env <- next_ai_env ;;
  call (GenerateContent prompt) (generate_content env).

(** [response.prompt_feedback and response.prompt_feedback.block_reason],
    as the name of the reason when it is truthy. *)
Definition blocked (response : Response) : option string :=
  match prompt_feedback response with
  | Some feedback => block_reason feedback
  | None => None
  end.

(** [hasattr(response, 'text') and response.text], as the text when
    the test holds. *)
Definition primary_text (response : Response) : M (option string) :=
  match text response with
  | NoAttr => ret None
  | HasAttr s => ret (if Py.truthy s then Some s else None)
  | AttrRaises e => raise e
  end.

(** [[part.text for part in response.parts if hasattr(part, 'text')]] *)
Fixpoint all_text_parts (ps : list Part) : list string :=
  match ps with
  | [] => []
  | p :: ps' =>
      match part_text p with
      | Some s => s :: all_text_parts ps'
      | None => all_text_parts ps'
      end
  end.

Definition nonempty {A} (l : list A) : bool :=
  match l with [] => false | _ :: _ => true end.

(** What [get_ai_response] makes of a response it has received. *)
Definition read_response (response : Response) : M string :=
  match blocked response with
  | Some reason =>
      log WARNING ("Gemini AI blocked the prompt. Reason: " ++ reason) ;;
      ret (reply_blocked reason)
  | None =>
      primary <- primary_text response ;;
      match primary with
      | Some s => ret (Py.strip s)
      | None =>
          if nonempty (parts response) && nonempty (all_text_parts (parts response)) then
            ret (Py.strip (Py.join " " (all_text_parts (parts response))))
          else
            log WARNING
              "Gemini returned a response, but it was empty or in an unexpected format." ;;
            ret reply_unusual
      end
  end.

(** [model] is the global handle: [None] when the key is missing or
    the initialisation failed. *)
Definition get_ai_response (model : option GenerativeModel) (prompt : string) : M string :=
  match model with
  | None =>
      log WARNING "Gemini model is not initialized. Cannot get AI response." ;;
      ret reply_unavailable
  | Some _ =>
      if negb (Py.truthy prompt) then
        log INFO "Received empty prompt for AI response." ;;
        ret reply_no_input
      else
        try_except
          (log INFO ("Sending to Gemini AI: " ++ Py.DQ ++ Py.preview prompt ++ Py.DQ) ;;
           response <- generate prompt ;;
           read_response response)
          (fun e =>
             log ERROR ("Error with Gemini API: " ++ exn_msg e) ;;
             ret reply_error)
  end.

(* ================================================================= *)
(** * Main program: the session loop *)

(** The four variables the loop keeps about the language. *)
Record Session : Type := mkSession {
  selected_lang_info : LangInfo;
  current_speech_lang_code : string;
  current_speech_lang_name : string;
  current_gtts_lang : string
}.

(** The assignments after a call of [select_language]. *)
Definition use_language (info : LangInfo) : Session :=
  mkSession info (code info) (name info) (gtts_lang info).

Definition idle_prompt : string :=
  Py.NL ++ "Press Enter to start speaking, 'c' to change language, or 'q' to quit: ".

Definition say_unavailable : string := "I'm sorry, my AI brain is currently unavailable.".
Definition say_repeat : string := "I didn't quite catch that. Could you please repeat?".
Definition say_nothing_heard : string := "I didn't hear anything. Please try speaking.".

Definition error_unrecognized : string := "Unable to recognize speech.".
Definition error_no_speech : string := "No speech detected".

(** Truth value of a value that is [None] or a string. *)
Definition opt_truthy (o : option string) : bool :=
  match o with
  | Some s => Py.truthy s
  | None => false
  end.

(** [o == s] for a value that is [None] or a string. *)
Definition opt_eqb (o : option string) (s : string) : bool :=
  match o with
  | Some x => String.eqb x s
  | None => false
  end.

Definition opt_str (o : option string) : string :=
  match o with
  | Some s => s
  | None => "None"
  end.

Definition is_some {A} (o : option A) : bool :=
  match o with Some _ => true | None => false end.

(** How one round of the [while True] loop ends. *)
Inductive Control : Type :=
| Break
| Continue (st : Session).

(** Lines 217-222. *)
Definition initial_selection : M Session :=
  selected <- select_language ;;
  let st := use_language selected in
  print (Py.NL ++ "Selected language: " ++ current_speech_lang_name st
         ++ " (Code: " ++ current_speech_lang_code st ++ ")") ;;
  ret st.

(** Lines 242-267: what the loop does with the dict of the recognizer. *)
Definition respond_to (model : option GenerativeModel) (st : Session)
    (speech_result : SpeechResult) : M unit :=
  (* [if speech_result:] a dict with three keys is truthy *)
  let recognized_text := transcription speech_result in
  if success speech_result && opt_truthy recognized_text then
    print (Py.repeat_char "-" 30) ;;
    print ("You (" ++ current_speech_lang_name st ++ "): " ++ opt_str recognized_text) ;;
    print (Py.repeat_char "-" 30) ;;
    if is_some model then
      ai_response <- get_ai_response model (opt_str recognized_text) ;;
      print "AI Response:" ;;
      print ai_response ;;
      speak_text (PyStr ai_response) (current_gtts_lang st)
    else
      print "Gemini AI is not configured. Cannot get AI response." ;;
      speak_text (PyStr say_unavailable) (current_gtts_lang st)
  else if opt_truthy (error speech_result) then
    print ("Speech Recognition Info: " ++ opt_str (error speech_result)) ;;
    if opt_eqb (error speech_result) error_unrecognized then
      speak_text (PyStr say_repeat) (current_gtts_lang st)
    else if opt_eqb (error speech_result) error_no_speech then
      speak_text (PyStr say_nothing_heard) (current_gtts_lang st)
    else ret tt
  else ret tt.

(** Lines 240-267: the turn taken when the user did not type [q] or [c]. *)
Definition take_turn (model : option GenerativeModel) (st : Session) : M unit :=
  speech_result <- recognize_speech_from_mic SrRecognizer SrMicrophone
                     (current_speech_lang_code st) (current_speech_lang_name st) ;;
  respond_to model st speech_result.

(** One round of the [while True] loop, lines 226-267. *)
Definition loop_body (model : option GenerativeModel) (st : Session) : M Control :=
  line <- input idle_prompt ;;
  let user_choice := Py.lower (Py.strip line) in
  if String.eqb user_choice "q" then
    print "Exiting assistant. Goodbye!" ;;
    ret Break
  else if String.eqb user_choice "c" then
    selected <- select_language ;;
    let st' := use_language selected in
    print (Py.NL ++ "Language changed to: " ++ current_speech_lang_name st'
           ++ " (Code: " ++ current_speech_lang_code st' ++ ")") ;;
    ret (Continue st')
  else
    take_turn model st ;;
    ret (Continue st).

(** Where the loop stands after some rounds. *)
Inductive Outcome : Type :=
| Finished                 (* left by [break] *)
| Crashed (e : Exn)        (* an exception left the loop *)
| Running (st : Session).  (* still looping *)

(** At most [n] rounds of the [while True] loop. *)
Fixpoint run (n : nat) (model : option GenerativeModel) (st : Session) (w : World)
  : Outcome * World :=
  match n with
  | O => (Running st, w)
  | S n' =>
      match loop_body model st w with
      | (Val Break, w') => (Finished, w')
      | (Val (Continue st'), w') => run n' model st' w'
      | (Exc e, w') => (Crashed e, w')
      end
  end.

(** The session from the first selection on, for at most [n] rounds. *)
Definition session (n : nat) (model : option GenerativeModel) (w : World)
  : Outcome * World :=
  match initial_selection w with
  | (Val st, w') => run n model st w'
  | (Exc e, w') => (Crashed e, w')
  end.

(* ================================================================= *)
(** * Observations on a run *)

(** The entries of a trace selected by [f], newest first. *)
Fixpoint pick {X} (f : Event -> option X) (tr : list Event) : list X :=
  match tr with
  | [] => []
  | e :: tr' =>
      match f e with
      | Some x => x :: pick f tr'
      | None => pick f tr'
      end
  end.

(** The utterances handed to the synthesiser: text and language. *)
Definition utterance (e : Event) : option (string * string) :=
  match e with
  | Gtts t l => Some (t, l)
  | _ => None
  end.
Definition spoken (w : World) : list (string * string) := pick utterance (trace w).

(** The prompts sent to the Gemini service. *)
Definition request (e : Event) : option string :=
  match e with
  | GenerateContent p => Some p
  | _ => None
  end.
Definition requests (w : World) : list string := pick request (trace w).

(** The pauses of the removal loop, [time.sleep(0.1)]. *)
Definition short_pause (e : Event) : option unit :=
  match e with
  | Sleep 100 => Some tt
  | _ => None
  end.
Definition short_pauses (w : World) : nat := List.length (pick short_pause (trace w)).

(** The calls of [os.remove]. *)
Definition removal (e : Event) : option unit :=
  match e with
  | OsRemove => Some tt
  | _ => None
  end.
Definition removals (w : World) : nat := List.length (pick removal (trace w)).

(** The codes of the registry. *)
Definition recognition_codes : list string :=
  map (fun entry => code (snd entry)) SUPPORTED_LANGUAGES.
Definition synthesis_codes : list string :=
  map (fun entry => gtts_lang (snd entry)) SUPPORTED_LANGUAGES.

(** A call of the recognizer or of the synthesiser with a language
    that is not in the registry. *)
Definition foreign (e : Event) : option (string + string) :=
  match e with
  | RecognizeGoogle l =>
      if existsb (String.eqb l) recognition_codes then None else Some (inl l)
  | Gtts _ l =>
      if existsb (String.eqb l) synthesis_codes then None else Some (inr l)
  | _ => None
  end.
Definition foreign_uses (w : World) : list (string + string) := pick foreign (trace w).

Definition is_val {A} (r : Res A) : bool :=
  match r with Val _ => true | Exc _ => false end.

(** Round [i] of the removal loop finds the playback subsystem
    released: [not get_init() or not get_busy()]. *)
Definition released (env : TtsEnv) (i : nat) : bool :=
  negb (mixer_up env i) || negb (music_busy env i).

(** Some round among the [rounds] rounds from [i] on finds it released. *)
Fixpoint released_within (env : TtsEnv) (i rounds : nat) : bool :=
  match rounds with
  | O => false
  | S rounds' => released env i || released_within env (S i) rounds'
  end.

(** Whether the file exists when the [finally] block starts. *)
Definition file_at_cleanup (env : TtsEnv) (before : bool) : bool :=
  match gtts_new env with
  | Exc _ => before
  | Val _ =>
      match tts_save env with
      | Val _ => true
      | Exc _ => before || save_leaves_file env
      end
  end.

Definition warning_in_use : Event :=
  Log WARNING "Could not delete temporary file: temp_speech.mp3. It might be in use.".

(** What a microphone turn with genuine devices comes to, read off the
    answers of the devices. *)
Definition speech_outcome (env : MicEnv) : Res SpeechResult :=
  match mic_open env with
  | Exc e => Exc e
  | Val _ =>
      match adjust_noise env with
      | Exc e =>
          match mic_close env with
          | Val _ =>
              Val (mkSpeech false
                     (Some ("Ambient noise adjustment failed: " ++ exn_msg e)) None)
          | Exc e' => Exc e'
          end
      | Val _ =>
          match listen env with
          | Exc e =>
              if is_class WaitTimeoutError e
              then Val (mkSpeech true (Some error_no_speech) None)
              else Val (mkSpeech false (Some ("Listening failed: " ++ exn_msg e)) None)
          | Val _ =>
              match recognize_google env with
              | Val t => Val (mkSpeech true None (Some t))
              | Exc e =>
                  if is_class RequestError e
                  then Val (mkSpeech false
                         (Some "API unavailable. Check your internet connection or API quota.")
                         None)
                  else if is_class UnknownValueError e
                  then Val (mkSpeech true (Some error_unrecognized) None)
                  else Val (mkSpeech false
                         (Some ("Speech recognition failed: " ++ exn_msg e)) None)
              end
          end
      end
  end.

(** The normalised answer at the idle prompt. *)
Definition user_choice (line : string) : string := Py.lower (Py.strip line).

(** The world once [input] has read the first waiting line. *)
Definition after_input (prompt : string) (w : World) : World :=
  set_stdin (tl (stdin w)) (emit_event (Input prompt) w).

(** A session whose language variables are those of one registry entry. *)
Definition in_registry (st : Session) : Prop :=
  exists key info,
    lookup key SUPPORTED_LANGUAGES = Some info /\
    selected_lang_info st = info /\
    current_speech_lang_code st = code info /\
    current_speech_lang_name st = name info /\
    current_gtts_lang st = gtts_lang info.

(** The states the loop is in at the start of a round, from the world
    [w0] in which the session starts. *)
Inductive reachable (model : option GenerativeModel) (w0 : World)
  : Session -> World -> Prop :=
| reach_start st w :
    initial_selection w0 = (Val st, w) ->
    reachable model w0 st w
| reach_round st w st' w' :
    reachable model w0 st w ->
    loop_body model st w = (Val (Continue st'), w') ->
    reachable model w0 st' w'.

(** The reply of the specification for a response that is not
    blocked: the primary text when present and non-empty, else the
    fragments joined by one blank, else the "empty" outcome.  It is
    compared with [read_response] below. *)
Definition spec_reply (response : Response) : string :=
  match text response with
  | HasAttr (String c s) => String c s
  | _ =>
      match Py.join " " (all_text_parts (parts response)) with
      | EmptyString => reply_unusual
      | joined => joined
      end
  end.

(* ================================================================= *)
(** * Sample worlds *)

Definition gemini : GenerativeModel := mkModel "gemini-1.5-flash-latest".

(** A microphone turn in which everything works and [t] is heard. *)
Definition mic_hears (t : string) : MicEnv :=
  mkMicEnv (Val tt) (Val tt) (Val tt) (Val t) (Val tt).

(** The listening times out. *)
Definition mic_silence : MicEnv :=
  mkMicEnv (Val tt) (Val tt)
           (Exc (mkExn WaitTimeoutError "listening timed out while waiting for phrase to start"))
           (Val EmptyString) (Val tt).

(** The recognizer cannot make out the audio. *)
Definition mic_mumble : MicEnv :=
  mkMicEnv (Val tt) (Val tt) (Val tt) (Exc (mkExn UnknownValueError EmptyString)) (Val tt).

(** The recognition request fails. *)
Definition mic_offline : MicEnv :=
  mkMicEnv (Val tt) (Val tt) (Val tt)
           (Exc (mkExn RequestError "recognition connection failed")) (Val tt).

(** The input device cannot be opened. *)
Definition mic_unplugged : MicEnv :=
  mkMicEnv (Exc (mkExn OSError "[Errno -9996] Invalid input device (no default output device)"))
           (Val tt) (Val tt) (Val EmptyString) (Val tt).



(** Synthesis and playback work; the clip is busy for two polls; the
    mixer is up when [finally] starts and down once it has been quit. *)
Definition tts_fine : TtsEnv :=
  mkTtsEnv (Val tt) (Val tt) true (Val tt) (Val tt) (Val tt) 2
           true (fun _ => false) (fun _ => false) (Val tt).

(** The same, but the file is still locked when it is removed. *)
Definition tts_locked : TtsEnv :=
  mkTtsEnv (Val tt) (Val tt) true (Val tt) (Val tt) (Val tt) 2
           true (fun _ => false) (fun _ => false)
           (Exc (mkExn PermissionError "[WinError 32] The process cannot access the file")).

(** A backend that stays up and busy for the first two rounds of the
    removal loop and is free at the third. *)
Definition tts_busy_twice : TtsEnv :=
  mkTtsEnv (Val tt) (Val tt) true (Val tt) (Val tt) (Val tt) 0
           true (fun _ => true) (fun i => (i <? 2)%nat) (Val tt).

(** A backend that stays up and busy at every round. *)
Definition tts_always_busy : TtsEnv :=
  mkTtsEnv (Val tt) (Val tt) true (Val tt) (Val tt) (Val tt) 0
           true (fun _ => true) (fun _ => true) (Val tt).

(** The service answers with the text [s]. *)
Definition ai_says (s : string) : AiEnv :=
  mkAiEnv (Val (mkResponse None (HasAttr s) [])).

(** The service answers with fragments only. *)
Definition ai_parts (ps : list Part) : AiEnv :=
  mkAiEnv (Val (mkResponse None NoAttr ps)).

Definition sample_world (lines : list string) (file : bool)
    (mic : MicEnv) (ai : AiEnv) (tts : TtsEnv) : World :=
  mkWorld lines file (fun _ => mic) 0 (fun _ => ai) 0 (fun _ => tts) 0 [].

Definition english : Session :=
  use_language (mkLang "English (US)" "en-US" "en").

(* ================================================================= *)
(** * Start-up and shutdown of the program *)

(** What the environment decides outside the session loop: the value
    of [os.getenv("GEMINI_API_KEY")], the outcomes of
    [genai.configure] and [genai.GenerativeModel], the outcome of
    creating the recognizer and the microphone, and the answer of
    [pygame.mixer.get_init()] in the last [finally]. *)
Record StartEnv : Type := mkStartEnv {
  getenv_key : option string;
  genai_configure : Res unit;
  new_generative_model : Res unit;
  new_devices : Res unit;
  mixer_up_at_end : bool
}.

(** A call that the trace does not record. *)
Definition untraced {A} (r : Res A) : M A := fun w => (r, w).

(** Lines 25-44: the value of the global [model]. *)
Definition init_model (env : StartEnv) : M (option GenerativeModel) :=
  if opt_truthy (getenv_key env) then
    try_except
      (untraced (genai_configure env) ;;
       untraced (new_generative_model env) ;;
       log INFO "Gemini AI model initialized successfully." ;;
       ret (Some (mkModel "gemini-1.5-flash-latest")))
      (fun e =>
         log ERROR ("Error initializing Gemini AI: " ++ exn_msg e) ;;
         log ERROR "Please ensure your GEMINI_API_KEY is set correctly and is valid." ;;
         ret None)
  else
    log WARNING "GEMINI_API_KEY environment variable not found." ;;
    log WARNING "Gemini AI features will be unavailable." ;;
    log WARNING ("To enable, set it in your environment or a .env file: "
                 ++ "export GEMINI_API_KEY='YOUR_API_KEY'") ;;
    ret None.

Definition fatal_message : string :=
  "Fatal error: Could not initialize speech recognition. Please ensure you have a "
  ++ "working microphone and necessary libraries (like PyAudio/PortAudio) installed.".

(** Lines 25-44 and 200-215: [None] when the program has called
    [exit()], else the model handle the session runs with. *)
Definition startup (env : StartEnv) : M (option (option GenerativeModel)) :=
  model <- init_model env ;;
  print "Welcome to the AI-Powered Multilingual Speech Assistant!" ;;
  (if negb (opt_truthy (getenv_key env)) then
     print "CRITICAL: GEMINI_API_KEY is not set. Gemini features will not work." ;;
     print "Please set the GEMINI_API_KEY environment variable or in a .env file."
   else if negb (is_some model) then
     print ("CRITICAL: Gemini AI model could not be initialized. "
            ++ "Check API key and model name.")
   else ret tt) ;;
  try_except
    (untraced (new_devices env) ;;
     log INFO "Speech recognition components initialized." ;;
     ret (Some model))
    (fun e =>
       log ERROR ("Error initializing speech recognition components: " ++ exn_msg e) ;;
       print fatal_message ;;
       ret None).

(** Lines 271-275: the [finally] clause around the loop. *)
Definition shutdown (env : StartEnv) : M unit :=
  up <- ask GetInit (mixer_up_at_end env) ;;
  (if up then emit MixerQuit else ret tt) ;;
  print "Application closed.".

(** How the process ends. *)
Inductive ProcessEnd : Type :=
| ExitCalled                 (* [exit()] at line 215 *)
| Uncaught (e : Exn)         (* an exception left the program before the loop *)
| LoopEnded (o : Outcome).   (* the loop was entered; [finally] has run *)

(** The whole program.  The first selection is outside the [try]
    statement; the loop runs for as many rounds as there are lines on
    standard input, and one more. *)
Definition main (env : StartEnv) (w : World) : ProcessEnd * World :=
  match startup env w with
  | (Exc e, w1) => (Uncaught e, w1)
  | (Val None, w1) => (ExitCalled, w1)
  | (Val (Some model), w1) =>
      match initial_selection w1 with
      | (Exc e, w2) => (Uncaught e, w2)
      | (Val st, w2) =>
          match run (S (List.length (stdin w2))) model st w2 with
          | (o, w3) => (LoopEnded o, snd (shutdown env w3))
          end
      end
  end.

(* ================================================================= *)
(** * Further observations on a run *)

(** The lines printed on the console, newest first. *)
Definition print_of (e : Event) : option string :=
  match e with
  | Print m => Some m
  | _ => None
  end.
Definition printed (w : World) : list string := pick print_of (trace w).

(** What [select_language] prints before it asks, oldest first. *)
Definition menu_lines : list string :=
  (Py.NL ++ "Please select a language for speech recognition and TTS:")
  :: map (fun entry => fst entry ++ ": " ++ name (snd entry)) SUPPORTED_LANGUAGES.

Definition invalid_notice : string := "Invalid choice. Please try again.".

(** The calls of [input], newest first. *)
Definition prompt_of (e : Event) : option string :=
  match e with
  | Input p => Some p
  | _ => None
  end.
Definition prompts (w : World) : list string := pick prompt_of (trace w).

(** The calls on the microphone and the recognizer, oldest first. *)
Definition mic_call (e : Event) : option Event :=
  match e with
  | MicOpen | MicClose | AdjustNoise _ | Listen _ _ | RecognizeGoogle _ => Some e
  | _ => None
  end.
Definition mic_calls (w : World) : list Event := rev (pick mic_call (trace w)).

(** The calls on gTTS and the mixer that synthesise, play and shut
    down, oldest first. *)
Definition playback_call (e : Event) : option Event :=
  match e with
  | Gtts _ _ | TtsSave | MixerInit | MusicLoad | MusicPlay | MusicStop | MixerQuit => Some e
  | _ => None
  end.
Definition playback_calls (w : World) : list Event := rev (pick playback_call (trace w)).

(** Of a list of calls with their outcomes, made in order until one
    raises: the calls that are made, and the exception that stops them. *)
Fixpoint attempted (steps : list (Event * Res unit)) : list Event :=
  match steps with
  | [] => []
  | (e, r) :: steps' => e :: (if is_val r then attempted steps' else [])
  end.

Fixpoint first_failure (steps : list (Event * Res unit)) : option Exn :=
  match steps with
  | [] => None
  | (_, Val _) :: steps' => first_failure steps'
  | (_, Exc e) :: _ => Some e
  end.

(** The five fallible calls of the [try] block of [speak_text]. *)
Definition tts_steps (env : TtsEnv) (text lang : string) : list (Event * Res unit) :=
  [ (Gtts text lang, gtts_new env);
    (TtsSave, tts_save env);
    (MixerInit, mixer_init env);
    (MusicLoad, music_load env);
    (MusicPlay, music_play env) ].

(** The rounds of the removal loop that find the playback subsystem
    busy before the first one that finds it released. *)
Fixpoint held_rounds (env : TtsEnv) (i rounds : nat) : nat :=
  match rounds with
  | O => O
  | S rounds' => if released env i then O else S (held_rounds env (S i) rounds')
  end.

(** The first character of a string is not white space. *)
Definition starts_clean (s : string) : bool :=
  match Py.after_space s with
  | Some _ => false
  | None => true
  end.

(** The string is one white-space character. *)
Definition one_space (s : string) : bool :=
  match Py.after_space s with
  | Some EmptyString => true
  | _ => false
  end.

(** The last character of a string is not white space. *)
Fixpoint ends_clean (s : string) : bool :=
  match s with
  | EmptyString => true
  | String _ s' => negb (one_space s) && ends_clean s'
  end.

(** A start-up in which the key is set and everything works. *)
Definition start_fine : StartEnv :=
  mkStartEnv (Some "AIza-key") (Val tt) (Val tt) (Val tt) true.

(** No key in the environment. *)
Definition start_without_key : StartEnv :=
  mkStartEnv None (Val tt) (Val tt) (Val tt) false.

(** No working microphone. *)
Definition start_without_microphone : StartEnv :=
  mkStartEnv (Some "AIza-key") (Val tt) (Val tt)
             (Exc (mkExn OSError "No Default Input Device Available")) false.

(** The three things the global [model] needs to be set: a truthy key,
    and the two calls of the client library returning. *)
Definition model_ready (env : StartEnv) : bool :=
  opt_truthy (getenv_key env) && is_val (genai_configure env)
  && is_val (new_generative_model env).

(* ================================================================= *)
(** * Reasoning about programs *)

(** [m] returns: it never raises. *)
Definition returns {A} (m : M A) : Prop :=
  forall w, exists a, fst (m w) = Val a.

(** [m] leaves the observation [obs] of the world as it found it. *)
Definition keeps {X A} (obs : World -> X) (m : M A) : Prop :=
  forall w, obs (snd (m w)) = obs w.

(** The observation does not see the event [e], the standard input,
    the file, or the count of adapter calls. *)
Definition blind {X} (obs : World -> X) (e : Event) : Prop :=
  forall w, obs (emit_event e w) = obs w.
Definition blind_to_stdin {X} (obs : World -> X) : Prop :=
  forall l w, obs (set_stdin l w) = obs w.
Definition blind_to_file {X} (obs : World -> X) : Prop :=
  forall b w, obs (set_temp_file b w) = obs w.
Definition blind_to_mic_turn {X} (obs : World -> X) : Prop :=
  forall w, obs (next_mic_turn w) = obs w.
Definition blind_to_ai_turn {X} (obs : World -> X) : Prop :=
  forall w, obs (next_ai_turn w) = obs w.
Definition blind_to_tts_turn {X} (obs : World -> X) : Prop :=
  forall w, obs (next_tts_turn w) = obs w.

(** ** Stepping through a program *)

Lemma bind_val {A B} (m : M A) (k : A -> M B) w a w1 :
  m w = (Val a, w1) -> bind m k w = k a w1.
Proof. intros H. unfold bind. now rewrite H. Qed.

Lemma bind_exc {A B} (m : M A) (k : A -> M B) w e w1 :
  m w = (Exc e, w1) -> bind m k w = (Exc e, w1).
Proof. intros H. unfold bind. now rewrite H. Qed.

Lemma try_except_val {A} (b : M A) h w a w1 :
  b w = (Val a, w1) -> try_except b h w = (Val a, w1).
Proof. intros H. unfold try_except. now rewrite H. Qed.

Lemma try_except_exc {A} (b : M A) h w e w1 :
  b w = (Exc e, w1) -> try_except b h w = h e w1.
Proof. intros H. unfold try_except. now rewrite H. Qed.

Lemma try_except_bind_val {A B} (m : M A) (k : A -> M B) h w a w1 :
  m w = (Val a, w1) -> try_except (bind m k) h w = try_except (k a) h w1.
Proof. intros H. unfold try_except, bind. now rewrite H. Qed.

Lemma try_except_bind_exc {A B} (m : M A) (k : A -> M B) h w e w1 :
  m w = (Exc e, w1) -> try_except (bind m k) h w = h e w1.
Proof. intros H. unfold try_except, bind. now rewrite H. Qed.

Lemma try_finally_eq {A} (b : M A) f w a w1 w2 :
  b w = (Val a, w1) -> f w1 = (Val tt, w2) -> try_finally b f w = (Val a, w2).
Proof. intros Hb Hf. unfold try_finally. now rewrite Hb, Hf. Qed.

Lemma try_finally_world {A} (b : M A) f w :
  snd (try_finally b f w) = snd (f (snd (b w))).
Proof.
  unfold try_finally. destruct (b w) as [r w1]. cbn.
  destruct (f w1) as [[u|e] w2]; reflexivity.
Qed.

Lemma try_finally_result {A} (b : M A) f w :
  returns f -> fst (try_finally b f w) = fst (b w).
Proof.
  intros Hf. unfold try_finally. destruct (b w) as [r w1]. cbn.
  destruct (Hf w1) as [u Hu]. destruct (f w1) as [[u'|e] w2]; cbn in *; congruence.
Qed.

(** ** Programs that return *)

Lemma returns_ret {A} (a : A) : returns (ret a).
Proof. intros w. now exists a. Qed.

Lemma returns_emit e : returns (emit e).
Proof. intros w. now exists tt. Qed.

Lemma returns_ask e b : returns (ask e b).
Proof. intros w. now exists b. Qed.

Lemma returns_bind {A B} (m : M A) (k : A -> M B) :
  returns m -> (forall a, returns (k a)) -> returns (bind m k).
Proof.
  intros Hm Hk w. unfold bind.
  destruct (Hm w) as [a Ha]. destruct (m w) as [[a'|e] w1]; cbn in Ha; try discriminate.
  apply Hk.
Qed.

Lemma returns_try_except {A} (b : M A) h :
  (forall e, returns (h e)) -> returns (try_except b h).
Proof.
  intros Hh w. unfold try_except.
  destruct (b w) as [[a|e] w1]; [now exists a | apply Hh].
Qed.

Lemma returns_try_finally {A} (b : M A) f :
  returns b -> returns f -> returns (try_finally b f).
Proof.
  intros Hb Hf w. rewrite try_finally_result by assumption. apply Hb.
Qed.

Lemma returns_unit (m : M unit) w : returns m -> fst (m w) = Val tt.
Proof. intros H. destruct (H w) as [[] Hu]. exact Hu. Qed.

(** ** Programs that keep an observation *)

Section Keeps.
Context {X : Type} (obs : World -> X).

Lemma keeps_ret {A} (a : A) : keeps obs (ret a).
Proof. intros w. reflexivity. Qed.

Lemma keeps_raise {A} e : keeps obs (@raise A e).
Proof. intros w. reflexivity. Qed.

Lemma keeps_untraced {A} (r : Res A) : keeps obs (untraced r).
Proof. intros w. reflexivity. Qed.

Lemma keeps_emit e : blind obs e -> keeps obs (emit e).
Proof. intros H w. apply H. Qed.

Lemma keeps_call {A} e (r : Res A) : blind obs e -> keeps obs (call e r).
Proof. intros H w. apply H. Qed.

Lemma keeps_ask e b : blind obs (e b) -> keeps obs (ask e b).
Proof. intros H w. apply H. Qed.

Lemma keeps_bind {A B} (m : M A) (k : A -> M B) :
  keeps obs m -> (forall a, keeps obs (k a)) -> keeps obs (bind m k).
Proof.
  intros Hm Hk w. unfold bind. specialize (Hm w).
  destruct (m w) as [[a|e] w1]; cbn in Hm.
  - rewrite Hk. exact Hm.
  - exact Hm.
Qed.

Lemma keeps_try_except {A} (b : M A) h :
  keeps obs b -> (forall e, keeps obs (h e)) -> keeps obs (try_except b h).
Proof.
  intros Hb Hh w. unfold try_except. specialize (Hb w).
  destruct (b w) as [[a|e] w1]; cbn in Hb.
  - exact Hb.
  - rewrite Hh. exact Hb.
Qed.

Lemma keeps_try_finally {A} (b : M A) f :
  keeps obs b -> keeps obs f -> keeps obs (try_finally b f).
Proof.
  intros Hb Hf w. rewrite try_finally_world, Hf. apply Hb.
Qed.

Lemma keeps_input p :
  blind obs (Input p) -> blind_to_stdin obs -> keeps obs (input p).
Proof.
  intros He Hs w. unfold input. destruct (stdin w); cbn.
  - apply He.
  - rewrite Hs. apply He.
Qed.

Lemma keeps_for_each {A} (l : list A) (f : A -> M unit) :
  (forall x, keeps obs (f x)) -> keeps obs (for_each l f).
Proof.
  intros Hf. induction l as [|x l IH]; cbn.
  - apply keeps_ret.
  - apply keeps_bind; auto.
Qed.

Lemma keeps_wait_while_busy n :
  (forall b, blind obs (GetBusy b)) -> blind obs (ClockTick 10) ->
  keeps obs (wait_while_busy n).
Proof.
  intros Hb Ht. induction n as [|n IH]; cbn.
  - apply keeps_bind; [apply keeps_ask, Hb | intros; apply keeps_ret].
  - apply keeps_bind; [apply keeps_ask, Hb | intros _].
    apply keeps_bind; [apply keeps_emit, Ht | intros _; exact IH].
Qed.

Lemma keeps_select_language_loop n :
  blind obs (Input choice_prompt) -> blind_to_stdin obs ->
  (forall s, blind obs (Print s)) ->
  keeps obs (select_language_loop n).
Proof.
  intros Hi Hs Hp. induction n as [|n IH]; cbn [select_language_loop].
  - apply keeps_bind; [now apply keeps_input | intros choice].
    destruct (lookup choice SUPPORTED_LANGUAGES); [apply keeps_ret|].
    apply keeps_bind; [apply keeps_emit, Hp | intros; apply keeps_raise].
  - apply keeps_bind; [now apply keeps_input | intros choice].
    destruct (lookup choice SUPPORTED_LANGUAGES); [apply keeps_ret|].
    apply keeps_bind; [apply keeps_emit, Hp | intros; exact IH].
Qed.

Lemma keeps_select_language :
  blind obs (Input choice_prompt) -> blind_to_stdin obs ->
  (forall s, blind obs (Print s)) ->
  keeps obs select_language.
Proof.
  intros Hi Hs Hp. unfold select_language.
  apply keeps_bind; [apply keeps_emit, Hp | intros _].
  apply keeps_bind.
  - apply keeps_for_each. intros [key info]. apply keeps_emit, Hp.
  - intros _ w. now apply keeps_select_language_loop.
Qed.

End Keeps.

Section KeepsAdapters.
Context {X : Type} (obs : World -> X).

Lemma keeps_path_exists : (forall b, blind obs (PathExists b)) -> keeps obs path_exists.
Proof. intros H w. apply H. Qed.

Lemma keeps_save env : blind obs TtsSave -> blind_to_file obs -> keeps obs (save env).
Proof.
  intros He Hf w. unfold save. destruct (tts_save env); cbn; rewrite Hf; apply He.
Qed.

Lemma keeps_remove env : blind obs OsRemove -> blind_to_file obs -> keeps obs (remove env).
Proof.
  intros He Hf w. unfold remove. destruct (os_remove env); cbn.
  - rewrite Hf. apply He.
  - apply He.
Qed.

Lemma keeps_next_mic_env : blind_to_mic_turn obs -> keeps obs next_mic_env.
Proof. intros H w. apply H. Qed.

Lemma keeps_next_ai_env : blind_to_ai_turn obs -> keeps obs next_ai_env.
Proof. intros H w. apply H. Qed.

Lemma keeps_next_tts_env : blind_to_tts_turn obs -> keeps obs next_tts_env.
Proof. intros H w. apply H. Qed.

Lemma keeps_remove_rounds env i n :
  (forall b, blind obs (GetInit b)) -> (forall b, blind obs (GetBusy b)) ->
  blind obs (Sleep 100) -> blind obs OsRemove -> blind_to_file obs ->
  keeps obs (remove_rounds env i n).
Proof.
  intros Hi Hb Hs Hr Hf. revert i. induction n as [|n IH]; intros i; cbn.
  - apply keeps_ret.
  - apply keeps_bind; [apply keeps_ask, Hi | intros up].
    apply keeps_bind.
    + destruct up; [apply keeps_ask, Hb | apply keeps_ret].
    + intros busy. destruct (negb up || negb busy).
      * apply keeps_bind; [now apply keeps_remove | intros; apply keeps_ret].
      * apply keeps_bind; [apply keeps_emit, Hs | intros; apply IH].
Qed.

End KeepsAdapters.

(** Decomposes a goal [keeps obs m] along the structure of [m]; the
    side conditions on a concrete [obs] hold by computation. *)
Ltac blindness :=
  first [ assumption
        | intros ?; reflexivity
        | intros ? ?; reflexivity ].

Ltac frame_step :=
  match goal with
  | |- keeps _ (ret _) => apply keeps_ret
  | |- keeps _ (raise _) => apply keeps_raise
  | |- keeps _ (untraced _) => apply keeps_untraced
  | |- keeps _ (bind _ _) => apply keeps_bind; [| intros ?]
  | |- keeps _ (try_except _ _) => apply keeps_try_except; [| intros ?]
  | |- keeps _ (try_finally _ _) => apply keeps_try_finally
  | |- keeps _ (emit _) => apply keeps_emit; blindness
  | |- keeps _ (log _ _) => apply keeps_emit; blindness
  | |- keeps _ (print _) => apply keeps_emit; blindness
  | |- keeps _ (call _ _) => apply keeps_call; blindness
  | |- keeps _ (ask _ _) => apply keeps_ask; blindness
  | |- keeps _ (input _) => apply keeps_input; blindness
  | |- keeps _ (for_each _ _) => apply keeps_for_each; intros ?
  | |- keeps _ (wait_while_busy _) =>
      apply keeps_wait_while_busy; [intros ?; blindness | blindness]
  | |- keeps _ (remove_rounds _ _ _) =>
      apply keeps_remove_rounds; [intros ?; blindness | intros ?; blindness | blindness ..]
  | |- keeps _ (select_language_loop _) =>
      apply keeps_select_language_loop; [blindness | blindness | intros ?; blindness]
  | |- keeps _ select_language =>
      apply keeps_select_language; [blindness | blindness | intros ?; blindness]
  | |- keeps _ path_exists => apply keeps_path_exists; intros ?; blindness
  | |- keeps _ (save _) => apply keeps_save; blindness
  | |- keeps _ (remove _) => apply keeps_remove; blindness
  | |- keeps _ next_mic_env => apply keeps_next_mic_env; blindness
  | |- keeps _ next_ai_env => apply keeps_next_ai_env; blindness
  | |- keeps _ next_tts_env => apply keeps_next_tts_env; blindness
  | |- keeps _ (let _ := _ in _) => cbv zeta
  | |- keeps _ (if ?b then _ else _) => destruct b
  | |- keeps _ (match ?x with _ => _ end) => destruct x
  end.

Create HintDb frame.

Ltac frame := repeat first [assumption | solve [auto with frame nocore] | frame_step].

(* ================================================================= *)
(** * Text to speech: what [speak_text] does *)

Lemma returns_wait_while_busy n : returns (wait_while_busy n).
Proof.
  induction n as [|n IH]; cbn.
  - apply returns_bind; [apply returns_ask | intros; apply returns_ret].
  - apply returns_bind; [apply returns_ask | intros _].
    apply returns_bind; [apply returns_emit | intros _; exact IH].
Qed.

Lemma returns_report_tts_error lang e : returns (report_tts_error lang e).
Proof.
  unfold report_tts_error.
  destruct (is_class ValueError e); [destruct (Py.contains _ _)|];
    (apply returns_bind; [apply returns_emit | intros; apply returns_emit]).
Qed.

Lemma returns_cleanup env : returns (cleanup env).
Proof.
  unfold cleanup.
  apply returns_bind; [apply returns_ask | intros up].
  apply returns_bind.
  { destruct up; [|apply returns_ret].
    apply returns_bind; [apply returns_emit | intros; apply returns_emit]. }
  intros _. apply returns_bind; [intros w; now eexists | intros present].
  destruct present; [|apply returns_ret].
  apply returns_try_except. intros e.
  destruct (is_class PermissionError e); apply returns_emit.
Qed.

Lemma returns_speak_text v lang : returns (speak_text v lang).
Proof.
  unfold speak_text.
  destruct (negb (py_truthy v) || negb (isinstance_str v)); [apply returns_emit|].
  apply returns_bind; [intros w; now eexists | intros env].
  apply returns_try_finally; [|apply returns_cleanup].
  apply returns_try_except. apply returns_report_tts_error.
Qed.

Lemma keeps_spoken_cleanup env : keeps spoken (cleanup env).
Proof. unfold cleanup. frame. Qed.

Lemma keeps_spoken_report lang e : keeps spoken (report_tts_error lang e).
Proof. unfold report_tts_error. frame. Qed.

Lemma speak_text_skips v lang w :
  py_truthy v && isinstance_str v = false ->
  speak_text v lang w =
  (Val tt, emit_event (Log WARNING "No valid text provided to speak. Skipping TTS.") w).
Proof.
  intros H. unfold speak_text.
  destruct (py_truthy v), (isinstance_str v); try discriminate; reflexivity.
Qed.

Lemma speak_text_runs s lang w :
  Py.truthy s = true ->
  speak_text (PyStr s) lang w =
  try_finally
    (try_except (synthesize_and_play (tts_env w (tts_turns w)) s lang)
                (report_tts_error lang))
    (cleanup (tts_env w (tts_turns w)))
    (next_tts_turn w).
Proof.
  intros H. unfold speak_text. cbn [py_truthy isinstance_str str_of].
  rewrite H. reflexivity.
Qed.

Lemma spoken_try_block env s lang w :
  spoken (snd (try_except (synthesize_and_play env s lang) (report_tts_error lang) w))
  = (s, lang) :: spoken w.
Proof.
  unfold synthesize_and_play.
  erewrite try_except_bind_val by reflexivity.
  destruct (gtts_new env) as [[]|e] eqn:G.
  - erewrite try_except_bind_val by reflexivity.
    match goal with
    | |- context [try_except ?b ?h] =>
        assert (K : keeps spoken (try_except b h))
          by (frame; apply keeps_spoken_report)
    end.
    rewrite K. reflexivity.
  - erewrite try_except_bind_exc by reflexivity.
    rewrite keeps_spoken_report. reflexivity.
Qed.

Lemma spoken_speak_text s lang w :
  Py.truthy s = true ->
  spoken (snd (speak_text (PyStr s) lang w)) = (s, lang) :: spoken w.
Proof.
  intros H. rewrite speak_text_runs by assumption.
  rewrite try_finally_world, keeps_spoken_cleanup, spoken_try_block. reflexivity.
Qed.

Lemma keeps_requests_speak_text v lang : keeps requests (speak_text v lang).
Proof.
  unfold speak_text, synthesize_and_play, report_tts_error, cleanup. frame.
Qed.

(** ** The removal loop *)

Lemma remove_rounds_held env n : forall i w,
  released_within env i n = false ->
  exists w',
    remove_rounds env i n w = (Val false, w') /\
    temp_file w' = temp_file w /\
    short_pauses w' = short_pauses w + n /\
    removals w' = removals w.
Proof.
  induction n as [|n IH]; intros i w H; cbn [released_within] in H.
  - exists w. cbn. repeat split; auto.
  - apply orb_false_iff in H. destruct H as [Hr Hw].
    unfold released in Hr. apply orb_false_iff in Hr. destruct Hr as [Hu Hb].
    apply negb_false_iff in Hu, Hb.
    cbn [remove_rounds]. unfold bind, ask, emit. rewrite Hu, Hb. cbn [negb orb].
    destruct (IH (S i) (emit_event (Sleep 100)
                (emit_event (GetBusy true) (emit_event (GetInit true) w))) Hw)
      as (w' & E & F & P & R).
    exists w'. rewrite E. repeat split; auto.
    rewrite P. unfold short_pauses. cbn. lia.
Qed.

(** C6.  [speak_text] never propagates a failure: whatever the text,
    the language and the behaviour of gTTS, pygame and the file
    system, it returns normally; and when the text is empty or is not
    a string it does nothing but log one warning: no synthesis, no
    playback, no file is created. *)
Theorem speak_text_never_fails (v : PyVal) (lang : string) (w : World) :
  fst (speak_text v lang w) = Val tt /\
  (v = PyStr EmptyString \/ isinstance_str v = false ->
   snd (speak_text v lang w) =
   emit_event (Log WARNING "No valid text provided to speak. Skipping TTS.") w).
Proof.
  split.
  - apply returns_unit, returns_speak_text.
  - intros H. rewrite speak_text_skips; [reflexivity|].
    destruct H as [-> | H]; [reflexivity|].
    rewrite H. apply andb_false_r.
Qed.

Lemma speak_text_never_fails_witness :
  fst (speak_text (PyStr "hello") "en"
         (sample_world [] false (mic_hears "hello") (ai_says "hi") tts_locked)) = Val tt /\
  snd (speak_text PyNone "en"
         (sample_world [] false (mic_hears "hello") (ai_says "hi") tts_fine)) =
  emit_event (Log WARNING "No valid text provided to speak. Skipping TTS.")
    (sample_world [] false (mic_hears "hello") (ai_says "hi") tts_fine).
Proof.
  split.
  - apply (speak_text_never_fails (PyStr "hello") "en").
  - apply (speak_text_never_fails PyNone "en"). right. reflexivity.
Defined.

Lemma remove_rounds_released env n : forall i w,
  released_within env i n = true ->
  exists w',
    remove_rounds env i n w =
      (match os_remove env with Val _ => Val true | Exc e => Exc e end, w') /\
    temp_file w' = (if is_val (os_remove env) then false else temp_file w) /\
    short_pauses w' <= short_pauses w + n /\
    removals w' = S (removals w).
Proof.
  induction n as [|n IH]; intros i w H; cbn [released_within] in H; [discriminate|].
  cbn [remove_rounds]. unfold bind at 1, ask at 1. unfold bind at 1.
  destruct (released env i) eqn:R.
  - unfold released in R.
    assert (E : exists w1,
               (if mixer_up env i then ask GetBusy (music_busy env i) else ret false)
                 (emit_event (GetInit (mixer_up env i)) w) =
               (Val (mixer_up env i && music_busy env i), w1) /\
               temp_file w1 = temp_file w /\ short_pauses w1 = short_pauses w /\
               removals w1 = removals w).
    { destruct (mixer_up env i); eexists; (split; [reflexivity|]); auto. }
    destruct E as (w1 & E & F & P & Q). rewrite E.
    replace (negb (mixer_up env i) || negb (mixer_up env i && music_busy env i))
      with true by (destruct (mixer_up env i), (music_busy env i); auto; discriminate).
    unfold bind, remove. destruct (os_remove env) as [[]|e]; eexists;
      (split; [reflexivity|]); cbn; rewrite ?F; repeat split;
      unfold short_pauses, removals in *; cbn; lia.
  - cbn [orb] in H. unfold released in R. apply orb_false_iff in R.
    destruct R as [Hu Hb]. apply negb_false_iff in Hu, Hb.
    rewrite Hu. unfold ask at 1. rewrite Hb. cbn [negb orb].
    unfold bind at 1, emit at 1.
    destruct (IH (S i) (emit_event (Sleep 100)
                (emit_event (GetBusy true) (emit_event (GetInit true) w))) H)
      as (w' & E & F & P & Q).
    exists w'. rewrite E. (split; [reflexivity|]). rewrite F, Q.
    unfold short_pauses, removals in *. cbn in *. repeat split; lia.
Qed.

(** ** The [finally] block *)

Lemma cleanup_spec env w :
  exists w',
    cleanup env w = (Val tt, w') /\
    temp_file w' =
      temp_file w && negb (released_within env 0 3 && is_val (os_remove env)) /\
    short_pauses w' <= short_pauses w + 3 /\
    removals w' <= removals w + 1 /\
    (released_within env 0 3 = false -> temp_file w = true ->
     hd_error (trace w') = Some warning_in_use /\
     short_pauses w' = short_pauses w + 3).
Proof.
  unfold cleanup.
  erewrite bind_val by reflexivity.
  set (w1 := emit_event (GetInit (mixer_up_at_exit env)) w).
  assert (E : exists w2,
             (if mixer_up_at_exit env then emit MusicStop;; emit MixerQuit else ret tt) w1
             = (Val tt, w2) /\
             temp_file w2 = temp_file w /\ short_pauses w2 = short_pauses w /\
             removals w2 = removals w).
  { destruct (mixer_up_at_exit env); eexists; (split; [reflexivity|]); auto. }
  destruct E as (w2 & E & F & P & Q).
  erewrite bind_val by exact E.
  erewrite bind_val by reflexivity.
  rewrite F. destruct (temp_file w) eqn:T.
  2:{ eexists. split; [reflexivity|]. cbn. rewrite F.
      unfold short_pauses, removals in *. cbn. repeat split; try lia; discriminate. }
  set (w3 := emit_event (PathExists true) w2).
  assert (F3 : temp_file w3 = true) by (cbn; congruence).
  assert (P3 : short_pauses w3 = short_pauses w) by (rewrite <- P; reflexivity).
  assert (Q3 : removals w3 = removals w) by (rewrite <- Q; reflexivity).
  cbn [andb].
  destruct (released_within env 0 3) eqn:R.
  - destruct (remove_rounds_released env 3 0 w3 R) as (w' & E' & F' & P' & Q').
    destruct (os_remove env) as [[]|e]; cbn [is_val andb negb] in *.
    + erewrite try_except_bind_val by exact E'.
      eexists. split; [reflexivity|]. rewrite F'. repeat split; try lia; discriminate.
    + erewrite try_except_bind_exc by exact E'.
      destruct (is_class PermissionError e); eexists; (split; [reflexivity|]);
        cbn; rewrite F', F3; unfold short_pauses, removals in *; cbn;
        repeat split; try lia; discriminate.
  - destruct (remove_rounds_held env 3 0 w3 R) as (w' & E' & F' & P' & Q').
    erewrite try_except_bind_val by exact E'.
    cbn [andb negb]. unfold try_except, bind, path_exists. rewrite F', F3.
    eexists. split; [reflexivity|]. cbn. rewrite F', F3.
    unfold short_pauses, removals in *. cbn. repeat split; try lia.
Qed.

(** ** The [try] block and the whole call *)

Lemma returns_try_block env s lang :
  returns (try_except (synthesize_and_play env s lang) (report_tts_error lang)).
Proof. apply returns_try_except, returns_report_tts_error. Qed.

Lemma keeps_file_report lang e : keeps temp_file (report_tts_error lang e).
Proof. unfold report_tts_error. frame. Qed.

Lemma file_try_block env s lang w :
  temp_file (snd (try_except (synthesize_and_play env s lang) (report_tts_error lang) w))
  = file_at_cleanup env (temp_file w).
Proof.
  unfold synthesize_and_play, file_at_cleanup.
  erewrite try_except_bind_val by reflexivity.
  destruct (gtts_new env) as [[]|e] eqn:G.
  - erewrite try_except_bind_val by reflexivity.
    unfold save at 1.
    destruct (tts_save env) as [[]|e] eqn:S.
    + erewrite try_except_bind_val by reflexivity.
      match goal with
      | |- context [try_except ?b ?h] =>
          assert (K : keeps temp_file (try_except b h))
            by (frame; apply keeps_file_report)
      end.
      rewrite K. reflexivity.
    + erewrite try_except_bind_exc by reflexivity.
      rewrite keeps_file_report. reflexivity.
  - erewrite try_except_bind_exc by reflexivity.
    rewrite keeps_file_report. reflexivity.
Qed.

Lemma keeps_pauses_try_block env s lang :
  keeps short_pauses (try_except (synthesize_and_play env s lang) (report_tts_error lang)).
Proof. unfold synthesize_and_play, report_tts_error. frame. Qed.

Lemma keeps_removals_try_block env s lang :
  keeps removals (try_except (synthesize_and_play env s lang) (report_tts_error lang)).
Proof. unfold synthesize_and_play, report_tts_error. frame. Qed.

Lemma truthy_nonempty s : s <> EmptyString -> Py.truthy s = true.
Proof. destruct s; [congruence | reflexivity]. Qed.

(** The cleanup of [speak_text].  A call with a non-empty string
    returns normally whether synthesis and playback succeed or raise,
    and it ends with a run of the [finally] block.  That block polls
    the playback subsystem at most 3 times, pausing 0.1 s after a
    poll that finds it busy, and calls [os.remove] at most once, at
    the first poll that finds it released.  When some poll finds it
    released and [os.remove] succeeds, the file does not exist after
    the call.  When all three polls find it busy the file is left as
    it was, and if it exists the last thing the call does is to log
    the warning, after three pauses. *)
Theorem speak_text_cleans_up (s lang : string) (w : World) :
  s <> EmptyString ->
  let env := tts_env w (tts_turns w) in
  let w' := snd (speak_text (PyStr s) lang w) in
  fst (speak_text (PyStr s) lang w) = Val tt /\
  (exists w1, speak_text (PyStr s) lang w = cleanup env w1) /\
  short_pauses w' <= short_pauses w + 3 /\
  removals w' <= removals w + 1 /\
  (released_within env 0 3 = true -> os_remove env = Val tt -> temp_file w' = false) /\
  (released_within env 0 3 = false ->
   temp_file w' = file_at_cleanup env (temp_file w) /\
   (temp_file w' = true ->
    hd_error (trace w') = Some warning_in_use /\
    short_pauses w' = short_pauses w + 3)).
Proof.
  intros Hs env w'. apply truthy_nonempty in Hs.
  assert (R : speak_text (PyStr s) lang w =
              cleanup env
                (snd (try_except (synthesize_and_play env s lang)
                        (report_tts_error lang) (next_tts_turn w)))).
  { rewrite speak_text_runs by assumption. fold env.
    pose proof (returns_unit _ (next_tts_turn w) (returns_try_block env s lang)) as Hb.
    destruct (try_except _ _ (next_tts_turn w)) as [r w1] eqn:B.
    cbn [fst snd] in Hb |- *. subst r.
    destruct (cleanup_spec env w1) as (w2 & E & _).
    rewrite E. apply try_finally_eq with (w1 := w1); assumption. }
  set (w1 := snd (try_except (synthesize_and_play env s lang)
                    (report_tts_error lang) (next_tts_turn w))) in R.
  assert (F1 : temp_file w1 = file_at_cleanup env (temp_file w))
    by (unfold w1; rewrite file_try_block; reflexivity).
  assert (P1 : short_pauses w1 = short_pauses w)
    by (unfold w1; rewrite keeps_pauses_try_block; reflexivity).
  assert (Q1 : removals w1 = removals w)
    by (unfold w1; rewrite keeps_removals_try_block; reflexivity).
  destruct (cleanup_spec env w1) as (w2 & E & F & P & Q & H).
  assert (W : w' = w2) by (unfold w'; rewrite R, E; reflexivity).
  rewrite W, R, E. cbn [fst]. rewrite P1 in P. rewrite Q1 in Q.
  split; [reflexivity|]. split; [now exists w1|].
  split; [exact P|]. split; [exact Q|]. split.
  - intros Hr Ho. rewrite F, Hr, Ho. cbn. apply andb_false_r.
  - intros Hr. rewrite Hr in F. cbn in F. rewrite andb_true_r in F.
    split; [congruence|]. intros Hf.
    rewrite <- P1. apply H; congruence.
Qed.

Lemma speak_text_cleans_up_witness :
  temp_file
    (snd (speak_text (PyStr "hello") "en"
            (sample_world [] false (mic_hears "hello") (ai_says "hi") tts_busy_twice)))
  = false.
Proof.
  apply (speak_text_cleans_up "hello" "en"
           (sample_world [] false (mic_hears "hello") (ai_says "hi") tts_busy_twice)).
  - discriminate.
  - reflexivity.
  - reflexivity.
Defined.

(** pygame's own mixer is down once it has been quit: then the first
    round of the loop calls [os.remove], there is no pause, and a
    removal that raises is not tried again. *)
Lemma cleanup_when_mixer_is_down env w :
  mixer_up env 0 = false ->
  short_pauses (snd (cleanup env w)) = short_pauses w /\
  removals (snd (cleanup env w)) = removals w + (if temp_file w then 1 else 0) /\
  temp_file (snd (cleanup env w)) = temp_file w && negb (is_val (os_remove env)).
Proof.
  intros H. unfold cleanup, path_exists, try_except. cbn [remove_rounds].
  unfold bind, ask, emit, remove, ret, log. rewrite H. cbn [negb orb].
  destruct (mixer_up_at_exit env); cbn [fst snd temp_file emit_event];
    destruct (temp_file w) eqn:T; cbn [andb];
    try (destruct (os_remove env) as [[]|e]; [|destruct (is_class PermissionError e)]);
    unfold short_pauses, removals; cbn; rewrite ?T; repeat split; lia.
Qed.

(** A backend that stays up and busy through the three polls: the file
    is left, after three pauses and with the warning as the last
    entry of the trace. *)
Lemma busy_backend_keeps_file :
  let w' := snd (speak_text (PyStr "hello") "en"
                   (sample_world [] false (mic_hears "hello") (ai_says "hi")
                      tts_always_busy)) in
  temp_file w' = true /\ short_pauses w' = 3 /\ removals w' = 0 /\
  hd_error (trace w') = Some warning_in_use.
Proof. repeat split. Qed.

(** Two calls after which the file stays.  With an empty text the call
    returns before the [try] statement: the [finally] block does not
    run, and a file left by an earlier call stays.  And when the
    playback subsystem is found released but [os.remove] raises, the
    failure is logged and the file stays. *)
Lemma temp_file_left_behind :
  (released_within tts_fine 0 3 = true /\
   speak_text (PyStr EmptyString) "en"
     (sample_world [] true (mic_hears "hello") (ai_says "hi") tts_fine)
   = (Val tt,
      emit_event (Log WARNING "No valid text provided to speak. Skipping TTS.")
        (sample_world [] true (mic_hears "hello") (ai_says "hi") tts_fine)) /\
   temp_file (snd (speak_text (PyStr EmptyString) "en"
     (sample_world [] true (mic_hears "hello") (ai_says "hi") tts_fine))) = true)
  /\
  (released_within tts_locked 0 3 = true /\
   temp_file (snd (speak_text (PyStr "hello") "en"
     (sample_world [] false (mic_hears "hello") (ai_says "hi") tts_locked))) = true /\
   removals (snd (speak_text (PyStr "hello") "en"
     (sample_world [] false (mic_hears "hello") (ai_says "hi") tts_locked))) = 1 /\
   short_pauses (snd (speak_text (PyStr "hello") "en"
     (sample_world [] false (mic_hears "hello") (ai_says "hi") tts_locked))) = 0).
Proof. repeat split. Qed.

(* ================================================================= *)
(** * Speech recognition: what [recognize_speech_from_mic] does *)

Lemma recognize_outcome lang_code lang_name w :
  fst (recognize_speech_from_mic SrRecognizer SrMicrophone lang_code lang_name w)
  = speech_outcome (mic_env w (mic_turns w)).
Proof.
  unfold recognize_speech_from_mic, speech_outcome, capture, with_microphone, mic_exit.
  cbn [isinstance_Recognizer isinstance_Microphone negb].
  unfold bind, try_except, try_finally, next_mic_env, call, emit, print, log, ret.
  cbn [fst snd].
  destruct (mic_open (mic_env w (mic_turns w))) as [[]|e1]; [|reflexivity].
  destruct (adjust_noise (mic_env w (mic_turns w))) as [[]|e2];
    [|destruct (mic_close (mic_env w (mic_turns w))) as [[]|e5]; reflexivity].
  destruct (listen (mic_env w (mic_turns w))) as [[]|e3].
  - destruct (recognize_google (mic_env w (mic_turns w))) as [t|e4]; [reflexivity|].
    destruct (is_class RequestError e4); [reflexivity|].
    destruct (is_class UnknownValueError e4); reflexivity.
  - destruct (is_class WaitTimeoutError e3); reflexivity.
Qed.

Lemma keeps_spoken_recognize r m c n : keeps spoken (recognize_speech_from_mic r m c n).
Proof. unfold recognize_speech_from_mic, capture, with_microphone. frame. Qed.

Lemma keeps_requests_recognize r m c n : keeps requests (recognize_speech_from_mic r m c n).
Proof. unfold recognize_speech_from_mic, capture, with_microphone. frame. Qed.

Lemma keeps_tts_turns_recognize r m c n : keeps tts_turns (recognize_speech_from_mic r m c n).
Proof. unfold recognize_speech_from_mic, capture, with_microphone. frame. Qed.

Lemma keeps_file_recognize r m c n : keeps temp_file (recognize_speech_from_mic r m c n).
Proof. unfold recognize_speech_from_mic, capture, with_microphone. frame. Qed.

(* ================================================================= *)
(** * Gemini reply: what [get_ai_response] does *)

Lemma returns_get_ai_response model prompt : returns (get_ai_response model prompt).
Proof.
  unfold get_ai_response. destruct model as [m|].
  - destruct (negb (Py.truthy prompt)).
    + apply returns_bind; [apply returns_emit | intros; apply returns_ret].
    + apply returns_try_except. intros e.
      apply returns_bind; [apply returns_emit | intros; apply returns_ret].
  - apply returns_bind; [apply returns_emit | intros; apply returns_ret].
Qed.

Lemma keeps_spoken_get_ai_response model prompt :
  keeps spoken (get_ai_response model prompt).
Proof.
  unfold get_ai_response, generate, read_response, primary_text. frame.
Qed.

Lemma keeps_requests_without_model prompt : keeps requests (get_ai_response None prompt).
Proof. unfold get_ai_response. frame. Qed.

(** With a model and a non-empty prompt, the request is sent and the
    response is read inside the [try] block. *)
Lemma get_ai_response_reads m prompt w response :
  prompt <> EmptyString ->
  generate_content (ai_env w (ai_turns w)) = Val response ->
  get_ai_response (Some m) prompt w =
  try_except (read_response response)
    (fun e => log ERROR ("Error with Gemini API: " ++ exn_msg e) ;; ret reply_error)
    (emit_event (GenerateContent prompt)
       (next_ai_turn
          (emit_event
             (Log INFO ("Sending to Gemini AI: " ++ Py.DQ ++ Py.preview prompt ++ Py.DQ))
             w))).
Proof.
  intros Hp Hg. unfold get_ai_response.
  rewrite (truthy_nonempty _ Hp). cbn [negb].
  erewrite try_except_bind_val by reflexivity.
  erewrite try_except_bind_val; [reflexivity|].
  unfold generate, bind, next_ai_env, call. cbn. rewrite Hg. reflexivity.
Qed.

Lemma all_text_parts_nonempty ps :
  all_text_parts ps <> [] -> nonempty ps && nonempty (all_text_parts ps) = true.
Proof.
  destruct ps as [|p ps]; cbn; [congruence|].
  destruct (part_text p); [reflexivity|].
  destruct (all_text_parts ps); [congruence | reflexivity].
Qed.

(** C1, as amended.  For the empty prompt [get_ai_response] makes no
    call to the Gemini service: it logs one line and returns the
    canned "no input" reply when the model handle is initialised, and
    the "not available" reply when it is not. *)
Theorem empty_prompt_is_not_sent (model : option GenerativeModel) (w : World) :
  get_ai_response model EmptyString w =
    (Val (if is_some model then reply_no_input else reply_unavailable),
     emit_event
       (if is_some model
        then Log INFO "Received empty prompt for AI response."
        else Log WARNING "Gemini model is not initialized. Cannot get AI response.")
       w) /\
  requests (snd (get_ai_response model EmptyString w)) = requests w /\
  ai_turns (snd (get_ai_response model EmptyString w)) = ai_turns w.
Proof. destruct model; repeat split. Qed.

(** C1 as stated fails for a prompt of white space only: it is not
    empty, so it is sent to the service, and the reply of the service
    is returned. *)
Lemma blank_prompt_is_sent :
  Py.all_space " " = true /\
  get_ai_response (Some gemini) " "
    (sample_world [] false (mic_hears " ") (ai_says "Hello!") tts_fine)
  = (Val "Hello!",
     emit_event (GenerateContent " ")
       (next_ai_turn
          (emit_event
             (Log INFO ("Sending to Gemini AI: " ++ Py.DQ ++ " " ++ Py.DQ))
             (sample_world [] false (mic_hears " ") (ai_says "Hello!") tts_fine)))) /\
  requests (snd (get_ai_response (Some gemini) " "
    (sample_world [] false (mic_hears " ") (ai_says "Hello!") tts_fine))) = [" "].
Proof. repeat split. Qed.

(** The reply made of a response.  When the service answers the
    request with a response, the block reason is looked at first: a blocked response
    gives the "blocked" reply with the name of the reason, whatever
    its text is.  Otherwise a primary text that is present and
    non-empty is returned with the white space around it stripped;
    when it is absent or empty and some fragment has a text, the texts
    of the fragments are joined in order by single blanks and the
    result is stripped; when no fragment has a text the reply is the
    "unusual response" message. *)
Theorem reply_from_response (m : GenerativeModel) (prompt : string) (w : World)
    (response : Response) :
  prompt <> EmptyString ->
  generate_content (ai_env w (ai_turns w)) = Val response ->
  let reply := fst (get_ai_response (Some m) prompt w) in
  (forall reason, blocked response = Some reason -> reply = Val (reply_blocked reason)) /\
  (blocked response = None ->
   (forall s, text response = HasAttr s -> s <> EmptyString -> reply = Val (Py.strip s)) /\
   (text response = NoAttr \/ text response = HasAttr EmptyString ->
    (all_text_parts (parts response) <> [] ->
     reply = Val (Py.strip (Py.join " " (all_text_parts (parts response))))) /\
    (all_text_parts (parts response) = [] -> reply = Val reply_unusual))).
Proof.
  intros Hp Hg reply. unfold reply.
  rewrite (get_ai_response_reads m prompt w response Hp Hg).
  unfold read_response. split.
  - intros reason Hb. rewrite Hb. reflexivity.
  - intros Hb. rewrite Hb. split.
    + intros s Hs Hn. unfold primary_text. rewrite Hs, (truthy_nonempty _ Hn). reflexivity.
    + intros Ht.
      assert (E : primary_text response = ret None).
      { unfold primary_text. destruct Ht as [-> | ->]; reflexivity. }
      rewrite E. split.
      * intros Hf. erewrite try_except_bind_val by reflexivity.
        rewrite (all_text_parts_nonempty _ Hf). reflexivity.
      * intros Hf. erewrite try_except_bind_val by reflexivity.
        rewrite Hf. cbn [nonempty]. rewrite andb_false_r. reflexivity.
Qed.

Lemma reply_from_response_witness :
  fst (get_ai_response (Some gemini) "hello"
         (sample_world [] false (mic_hears "hello")
            (mkAiEnv (Val (mkResponse (Some (mkFeedback (Some "SAFETY")))
                             (AttrRaises (mkExn ValueError "no valid part")) [])))
            tts_fine))
  = Val (reply_blocked "SAFETY").
Proof.
  apply (reply_from_response gemini "hello"
           (sample_world [] false (mic_hears "hello")
              (mkAiEnv (Val (mkResponse (Some (mkFeedback (Some "SAFETY")))
                               (AttrRaises (mkExn ValueError "no valid part")) [])))
              tts_fine)
           (mkResponse (Some (mkFeedback (Some "SAFETY")))
              (AttrRaises (mkExn ValueError "no valid part")) [])).
  - discriminate.
  - reflexivity.
  - reflexivity.
Defined.

(** The primary text is not returned as it is but stripped, and
    fragments whose texts are empty give the empty string, not the
    "unusual response" message. *)
Lemma reply_is_stripped :
  (fst (get_ai_response (Some gemini) "hello"
          (sample_world [] false (mic_hears "hello") (ai_says " hi ") tts_fine))
   = Val "hi" /\
   spec_reply (mkResponse None (HasAttr " hi ") []) = " hi ") /\
  (fst (get_ai_response (Some gemini) "hello"
          (sample_world [] false (mic_hears "hello")
             (ai_parts [mkPart (Some EmptyString)]) tts_fine))
   = Val EmptyString /\
   spec_reply (mkResponse None NoAttr [mkPart (Some EmptyString)]) = reply_unusual).
Proof. repeat split. Qed.

(* ================================================================= *)
(** * The session loop: one turn *)

#[local] Hint Resolve keeps_spoken_recognize keeps_requests_recognize
  keeps_tts_turns_recognize keeps_file_recognize
  keeps_requests_speak_text keeps_spoken_get_ai_response
  keeps_requests_without_model : frame.

Lemma returns_respond_to model st r : returns (respond_to model st r).
Proof.
  unfold respond_to.
  destruct (success r && opt_truthy (transcription r)).
  - do 3 (apply returns_bind; [apply returns_emit | intros _]).
    destruct (is_some model).
    + apply returns_bind; [apply returns_get_ai_response | intros reply].
      do 2 (apply returns_bind; [apply returns_emit | intros _]).
      apply returns_speak_text.
    + apply returns_bind; [apply returns_emit | intros _]. apply returns_speak_text.
  - destruct (opt_truthy (error r)); [|apply returns_ret].
    apply returns_bind; [apply returns_emit | intros _].
    destruct (opt_eqb (error r) error_unrecognized); [apply returns_speak_text|].
    destruct (opt_eqb (error r) error_no_speech); [apply returns_speak_text|].
    apply returns_ret.
Qed.

(** A turn in which the microphone opens comes to a dict, and the loop
    responds to it from a world that differs from the first one by
    what the recognition has logged. *)
Lemma take_turn_responds model st w r :
  speech_outcome (mic_env w (mic_turns w)) = Val r ->
  exists w1,
    take_turn model st w = respond_to model st r w1 /\
    spoken w1 = spoken w /\ requests w1 = requests w /\
    tts_turns w1 = tts_turns w /\ temp_file w1 = temp_file w.
Proof.
  intros H. unfold take_turn.
  pose proof (recognize_outcome (current_speech_lang_code st)
                (current_speech_lang_name st) w) as Ho.
  pose proof (keeps_spoken_recognize SrRecognizer SrMicrophone
                (current_speech_lang_code st) (current_speech_lang_name st) w) as Hs.
  pose proof (keeps_requests_recognize SrRecognizer SrMicrophone
                (current_speech_lang_code st) (current_speech_lang_name st) w) as Hr.
  pose proof (keeps_tts_turns_recognize SrRecognizer SrMicrophone
                (current_speech_lang_code st) (current_speech_lang_name st) w) as Ht.
  pose proof (keeps_file_recognize SrRecognizer SrMicrophone
                (current_speech_lang_code st) (current_speech_lang_name st) w) as Hf.
  destruct (recognize_speech_from_mic _ _ _ _ w) as [res w1] eqn:E.
  cbn [fst snd] in *. rewrite H in Ho. subst res.
  exists w1. erewrite bind_val by exact E. auto.
Qed.

Lemma keeps_requests_loop_without_model st : keeps requests (loop_body None st).
Proof.
  unfold loop_body, take_turn, respond_to. cbn [is_some]. frame.
Qed.

(** ** The idle prompt *)

Lemma input_reads p w line rest :
  stdin w = line :: rest ->
  input p w = (Val line, after_input p w).
Proof. intros H. unfold input, after_input. rewrite H. reflexivity. Qed.

Lemma loop_body_listens model st w line rest :
  stdin w = line :: rest ->
  user_choice line <> "q" -> user_choice line <> "c" ->
  loop_body model st w =
  (take_turn model st ;; ret (Continue st)) (after_input idle_prompt w).
Proof.
  intros H Hq Hc. unfold loop_body.
  erewrite bind_val by (eapply input_reads; eassumption).
  fold (user_choice line).
  apply String.eqb_neq in Hq, Hc. rewrite Hq, Hc. reflexivity.
Qed.

Lemma loop_body_after_turn model st w line rest :
  stdin w = line :: rest ->
  user_choice line <> "q" -> user_choice line <> "c" ->
  mic_open (mic_env w (mic_turns w)) = Val tt ->
  adjust_noise (mic_env w (mic_turns w)) = Val tt ->
  let w1 := after_input idle_prompt w in
  fst (loop_body model st w) = Val (Continue st) /\
  snd (loop_body model st w) = snd (take_turn model st w1) /\
  exists r w2,
    speech_outcome (mic_env w (mic_turns w)) = Val r /\
    take_turn model st w1 = respond_to model st r w2 /\
    spoken w2 = spoken w /\ requests w2 = requests w /\
    tts_turns w2 = tts_turns w /\ temp_file w2 = temp_file w.
Proof.
  intros H Hq Hc Ho Ha w1.
  rewrite (loop_body_listens model st w line rest H Hq Hc). fold w1.
  assert (Hr : exists r, speech_outcome (mic_env w (mic_turns w)) = Val r).
  { unfold speech_outcome. rewrite Ho, Ha.
    destruct (listen _) as [|e].
    - destruct (recognize_google _) as [|e]; [eauto|].
      destruct (is_class RequestError e); [eauto|].
      destruct (is_class UnknownValueError e); eauto.
    - destruct (is_class WaitTimeoutError e); eauto. }
  destruct Hr as [r Hr].
  destruct (take_turn_responds model st w1 r Hr) as (w2 & E & A & B & C & D).
  pose proof (returns_unit _ w2 (returns_respond_to model st r)) as Hu.
  unfold bind. rewrite E.
  destruct (respond_to model st r w2) as [res w3] eqn:R. cbn [fst snd] in *. subst res.
  split; [reflexivity|]. split; [reflexivity|].
  exists r, w2. repeat split; auto.
Qed.

Lemma is_class_eq c e : exn_class e = c -> is_class c e = true.
Proof. intros <-. unfold is_class. destruct (exn_class e); reflexivity. Qed.

(** C8, as amended.  When the listening times out ([listen] raises
    [WaitTimeoutError]) the recognizer's dict is
    [{success: True, error: "No speech detected", transcription: None}],
    the loop hands exactly one text to the synthesiser,
    "I didn't hear anything. Please try speaking.", in the current
    synthesis language, sends nothing to the Gemini service, and goes
    on to the next round with the session unchanged. *)
Theorem silence_is_announced (model : option GenerativeModel) (st : Session)
    (w : World) (line : string) (rest : list string) (e : Exn) :
  stdin w = line :: rest ->
  user_choice line <> "q" -> user_choice line <> "c" ->
  mic_open (mic_env w (mic_turns w)) = Val tt ->
  adjust_noise (mic_env w (mic_turns w)) = Val tt ->
  listen (mic_env w (mic_turns w)) = Exc e ->
  exn_class e = WaitTimeoutError ->
  fst (recognize_speech_from_mic SrRecognizer SrMicrophone
         (current_speech_lang_code st) (current_speech_lang_name st)
         (after_input idle_prompt w))
    = Val (mkSpeech true (Some "No speech detected") None) /\
  fst (loop_body model st w) = Val (Continue st) /\
  spoken (snd (loop_body model st w))
    = ("I didn't hear anything. Please try speaking.", current_gtts_lang st) :: spoken w /\
  requests (snd (loop_body model st w)) = requests w.
Proof.
  intros H Hq Hc Ho Ha Hl He.
  assert (Hr : speech_outcome (mic_env w (mic_turns w))
               = Val (mkSpeech true (Some error_no_speech) None)).
  { unfold speech_outcome. rewrite Ho, Ha, Hl, (is_class_eq _ _ He). reflexivity. }
  split.
  { rewrite recognize_outcome. exact Hr. }
  destruct (loop_body_after_turn model st w line rest H Hq Hc Ho Ha)
    as (Hf & Hw & r & w2 & Hr' & E & A & B & _).
  rewrite Hr in Hr'. injection Hr' as <-.
  split; [exact Hf|]. rewrite Hw, E.
  change (respond_to model st (mkSpeech true (Some error_no_speech) None) w2)
    with (speak_text (PyStr say_nothing_heard) (current_gtts_lang st)
            (emit_event (Print ("Speech Recognition Info: " ++ error_no_speech)) w2)).
  rewrite spoken_speak_text by reflexivity.
  rewrite keeps_requests_speak_text.
  split; [|exact B]. f_equal. exact A.
Qed.

Lemma silence_is_announced_witness :
  spoken (snd (loop_body (Some gemini) english
                 (sample_world [EmptyString; "q"] false mic_silence (ai_says "hi") tts_fine)))
  = [("I didn't hear anything. Please try speaking.", "en")].
Proof.
  apply (silence_is_announced (Some gemini) english
           (sample_world [EmptyString; "q"] false mic_silence (ai_says "hi") tts_fine)
           EmptyString ["q"]
           (mkExn WaitTimeoutError "listening timed out while waiting for phrase to start"));
    solve [reflexivity | discriminate].
Defined.

(** C8 as stated names a prompt that the program does not speak: the
    text handed to the synthesiser after a timeout is another
    sentence. *)
Lemma silence_prompt_text :
  spoken (snd (loop_body (Some gemini) english
                 (sample_world [EmptyString; "q"] false mic_silence (ai_says "hi") tts_fine)))
  = [("I didn't hear anything. Please try speaking.", "en")] /\
  spoken (snd (loop_body (Some gemini) english
                 (sample_world [EmptyString; "q"] false mic_silence (ai_says "hi") tts_fine)))
  <> [("I didn't hear anything, please try speaking", "en")].
Proof. split; [reflexivity | discriminate]. Qed.

Lemma is_class_true c e : is_class c e = true -> exn_class e = c.
Proof. unfold is_class. destruct c, (exn_class e); congruence. Qed.

(** C4, as amended.  When the recognizer raises on the captured
    audio, the loop goes on to the next round with the session
    unchanged and sends nothing to the Gemini service.  If the
    exception is [UnknownValueError] it hands exactly one text to the
    synthesiser, "I didn't quite catch that. Could you please
    repeat?"; for every other exception it hands none and does not
    call [speak_text] with a text: the last thing it does is to print
    the error. *)
Theorem recognition_failure_is_reported (model : option GenerativeModel) (st : Session)
    (w : World) (line : string) (rest : list string) (e : Exn) :
  stdin w = line :: rest ->
  user_choice line <> "q" -> user_choice line <> "c" ->
  mic_open (mic_env w (mic_turns w)) = Val tt ->
  adjust_noise (mic_env w (mic_turns w)) = Val tt ->
  listen (mic_env w (mic_turns w)) = Val tt ->
  recognize_google (mic_env w (mic_turns w)) = Exc e ->
  fst (loop_body model st w) = Val (Continue st) /\
  requests (snd (loop_body model st w)) = requests w /\
  (exn_class e = UnknownValueError ->
   spoken (snd (loop_body model st w))
   = ("I didn't quite catch that. Could you please repeat?", current_gtts_lang st)
       :: spoken w) /\
  (exn_class e <> UnknownValueError ->
   spoken (snd (loop_body model st w)) = spoken w /\
   tts_turns (snd (loop_body model st w)) = tts_turns w /\
   exists info,
     hd_error (trace (snd (loop_body model st w)))
     = Some (Print ("Speech Recognition Info: " ++ info))).
Proof.
  intros H Hq Hc Ho Ha Hl Hg.
  destruct (loop_body_after_turn model st w line rest H Hq Hc Ho Ha)
    as (Hf & Hw & r & w2 & Hr & E & A & B & C & _).
  split; [exact Hf|]. rewrite Hw, E. clear Hf Hw E.
  unfold speech_outcome in Hr. rewrite Ho, Ha, Hl, Hg in Hr.
  destruct (is_class RequestError e) eqn:R.
  - injection Hr as <-. apply is_class_true in R.
    split; [exact B|]. split; [intros U; congruence|]. intros _.
    repeat split; auto. eexists. reflexivity.
  - destruct (is_class UnknownValueError e) eqn:U; injection Hr as <-.
    + apply is_class_true in U.
      change (respond_to model st (mkSpeech true (Some error_unrecognized) None) w2)
        with (speak_text (PyStr say_repeat) (current_gtts_lang st)
                (emit_event (Print ("Speech Recognition Info: " ++ error_unrecognized)) w2)).
      rewrite spoken_speak_text by reflexivity.
      rewrite keeps_requests_speak_text.
      split; [exact B|]. split; [|congruence].
      intros _. f_equal. exact A.
    + split; [exact B|]. split.
      * intros V. rewrite (is_class_eq _ _ V) in U. discriminate.
      * intros _. repeat split; auto. eexists. reflexivity.
Qed.

Lemma recognition_failure_is_reported_witness :
  spoken (snd (loop_body (Some gemini) english
                 (sample_world [EmptyString; "q"] false mic_mumble (ai_says "hi") tts_fine)))
  = [("I didn't quite catch that. Could you please repeat?", "en")] /\
  spoken (snd (loop_body (Some gemini) english
                 (sample_world [EmptyString; "q"] false mic_offline (ai_says "hi") tts_fine)))
  = [].
Proof.
  split.
  - apply (recognition_failure_is_reported (Some gemini) english
             (sample_world [EmptyString; "q"] false mic_mumble (ai_says "hi") tts_fine)
             EmptyString ["q"] (mkExn UnknownValueError EmptyString));
      solve [reflexivity | discriminate].
  - apply (recognition_failure_is_reported (Some gemini) english
             (sample_world [EmptyString; "q"] false mic_offline (ai_says "hi") tts_fine)
             EmptyString ["q"] (mkExn RequestError "recognition connection failed"));
      solve [reflexivity | discriminate].
Defined.

(** C4 as stated names a retry prompt that the program does not speak:
    the text handed to the synthesiser is another sentence. *)
Lemma retry_prompt_text :
  spoken (snd (loop_body (Some gemini) english
                 (sample_world [EmptyString; "q"] false mic_mumble (ai_says "hi") tts_fine)))
  = [("I didn't quite catch that. Could you please repeat?", "en")] /\
  spoken (snd (loop_body (Some gemini) english
                 (sample_world [EmptyString; "q"] false mic_mumble (ai_says "hi") tts_fine)))
  <> [("I didn't quite catch that, could you repeat?", "en")].
Proof. split; [reflexivity | discriminate]. Qed.

Lemma keeps_requests_run_without_model n : forall st w,
  requests (snd (run n None st w)) = requests w.
Proof.
  induction n as [|n IH]; intros st w; cbn [run]; [reflexivity|].
  pose proof (keeps_requests_loop_without_model st w) as K.
  destruct (loop_body None st w) as [[[|st']|e] w']; cbn [snd] in *; auto.
  rewrite IH. exact K.
Qed.

(** C3.  When the model handle is [None], [get_ai_response] returns
    the "not available" reply for every prompt and only logs a
    warning; no run of the session loop, of any length, sends a
    request to the Gemini service; and in a round in which the
    recognizer has understood a non-empty text, the loop hands exactly
    one text to the synthesiser, "I'm sorry, my AI brain is currently
    unavailable.". *)
Theorem without_model (prompt heard : string) (st : Session) (w : World) (n : nat)
    (line : string) (rest : list string) :
  get_ai_response None prompt w =
    (Val reply_unavailable,
     emit_event (Log WARNING "Gemini model is not initialized. Cannot get AI response.") w) /\
  requests (snd (run n None st w)) = requests w /\
  (stdin w = line :: rest ->
   user_choice line <> "q" -> user_choice line <> "c" ->
   mic_open (mic_env w (mic_turns w)) = Val tt ->
   adjust_noise (mic_env w (mic_turns w)) = Val tt ->
   listen (mic_env w (mic_turns w)) = Val tt ->
   recognize_google (mic_env w (mic_turns w)) = Val heard ->
   heard <> EmptyString ->
   fst (loop_body None st w) = Val (Continue st) /\
   spoken (snd (loop_body None st w))
   = ("I'm sorry, my AI brain is currently unavailable.", current_gtts_lang st)
       :: spoken w).
Proof.
  split; [reflexivity|]. split; [apply keeps_requests_run_without_model|].
  intros H Hq Hc Ho Ha Hl Hg Hh.
  assert (Hs : speech_outcome (mic_env w (mic_turns w))
               = Val (mkSpeech true None (Some heard))).
  { unfold speech_outcome. rewrite Ho, Ha, Hl, Hg. reflexivity. }
  destruct (loop_body_after_turn None st w line rest H Hq Hc Ho Ha)
    as (Hf & Hw & r & w2 & Hr & E & A & _).
  rewrite Hs in Hr. injection Hr as <-.
  split; [exact Hf|]. rewrite Hw, E.
  unfold respond_to. cbn [success transcription opt_truthy andb is_some].
  rewrite (truthy_nonempty _ Hh).
  do 4 (erewrite bind_val by reflexivity).
  rewrite spoken_speak_text by reflexivity.
  f_equal. exact A.
Qed.

Lemma without_model_witness :
  spoken (snd (loop_body None english
                 (sample_world [EmptyString; "q"] false (mic_hears "hello")
                    (ai_says "hi") tts_fine)))
  = [("I'm sorry, my AI brain is currently unavailable.", "en")].
Proof.
  apply (without_model "hello" "hello" english
           (sample_world [EmptyString; "q"] false (mic_hears "hello") (ai_says "hi") tts_fine)
           0 EmptyString ["q"]);
    solve [reflexivity | discriminate].
Defined.

(* ================================================================= *)
(** * The idle prompt: which lines quit, change the language, listen *)

(** ** White space and stripping *)

Lemma all_space_cons c1 s1 :
  Py.all_space (String c1 s1) =
  if Py.is_space1 c1 then Py.all_space s1 else
  match s1 with
  | EmptyString => false
  | String c2 s2 =>
      if Py.is_space2 c1 c2 then Py.all_space s2 else
      match s2 with
      | EmptyString => false
      | String c3 s3 => Py.is_space3 c1 c2 c3 && Py.all_space s3
      end
  end.
Proof. reflexivity. Qed.

Lemma lstrip_cons c1 s1 :
  Py.lstrip (String c1 s1) =
  if Py.is_space1 c1 then Py.lstrip s1 else
  match s1 with
  | EmptyString => String c1 s1
  | String c2 s2 =>
      if Py.is_space2 c1 c2 then Py.lstrip s2 else
      match s2 with
      | EmptyString => String c1 s1
      | String c3 s3 => if Py.is_space3 c1 c2 c3 then Py.lstrip s3 else String c1 s1
      end
  end.
Proof. reflexivity. Qed.

Lemma rstrip_cons c s :
  Py.rstrip (String c s) =
  if Py.all_space (String c s) then EmptyString else String c (Py.rstrip s).
Proof. reflexivity. Qed.

(** A string is white space when it is empty or begins with a
    white-space character and is white space after it. *)
Lemma all_space_step s :
  Py.all_space s =
  match s with
  | EmptyString => true
  | String _ _ =>
      match Py.after_space s with
      | Some s' => Py.all_space s'
      | None => false
      end
  end.
Proof.
  destruct s as [|c1 s1]; [reflexivity|].
  rewrite all_space_cons. unfold Py.after_space.
  destruct (Py.is_space1 c1); [reflexivity|].
  destruct s1 as [|c2 s2]; [reflexivity|].
  destruct (Py.is_space2 c1 c2); [reflexivity|].
  destruct s2 as [|c3 s3]; [reflexivity|].
  destruct (Py.is_space3 c1 c2 c3); reflexivity.
Qed.

Lemma lstrip_step s :
  Py.lstrip s =
  match Py.after_space s with
  | Some s' => Py.lstrip s'
  | None => s
  end.
Proof.
  destruct s as [|c1 s1]; [reflexivity|].
  rewrite lstrip_cons. unfold Py.after_space.
  destruct (Py.is_space1 c1); [reflexivity|].
  destruct s1 as [|c2 s2]; [reflexivity|].
  destruct (Py.is_space2 c1 c2); [reflexivity|].
  destruct s2 as [|c3 s3]; [reflexivity|].
  destruct (Py.is_space3 c1 c2 c3); reflexivity.
Qed.

(** The white-space character that [after_space] has passed. *)
Lemma after_space_split s s' :
  Py.after_space s = Some s' ->
  exists x,
    s = x ++ s' /\ x <> EmptyString /\ String.length x <= 3 /\
    forall t, Py.after_space (x ++ t) = Some t.
Proof.
  unfold Py.after_space.
  destruct s as [|c1 s1]; [discriminate|].
  destruct (Py.is_space1 c1) eqn:E1.
  { intros H. injection H as <-. exists (String c1 EmptyString).
    repeat split; [discriminate | cbn; lia |].
    intros t. cbn. rewrite E1. reflexivity. }
  destruct s1 as [|c2 s2]; [discriminate|].
  destruct (Py.is_space2 c1 c2) eqn:E2.
  { intros H. injection H as <-. exists (String c1 (String c2 EmptyString)).
    repeat split; [discriminate | cbn; lia |].
    intros t. cbn. rewrite E1, E2. reflexivity. }
  destruct s2 as [|c3 s3]; [discriminate|].
  destruct (Py.is_space3 c1 c2 c3) eqn:E3; [|discriminate].
  intros H. injection H as <-.
  exists (String c1 (String c2 (String c3 EmptyString))).
  repeat split; [discriminate | cbn; lia |].
  intros t. cbn. rewrite E1, E2, E3. reflexivity.
Qed.

Lemma append_length a b : String.length (a ++ b) = String.length a + String.length b.
Proof. induction a as [|c a IH]; cbn; [reflexivity | now rewrite IH]. Qed.

Lemma append_assoc a b c : (a ++ b) ++ c = a ++ (b ++ c).
Proof. induction a as [|x a IH]; cbn; [reflexivity | now rewrite IH]. Qed.

Lemma append_nil_r a : a ++ EmptyString = a.
Proof. induction a as [|x a IH]; cbn; [reflexivity | now rewrite IH]. Qed.

Lemma after_space_app s s' t :
  Py.after_space s = Some s' -> Py.after_space (s ++ t) = Some (s' ++ t).
Proof.
  intros H. destruct (after_space_split s s' H) as (x & -> & _ & _ & Hx).
  rewrite append_assoc. apply Hx.
Qed.

(** Induction along the white space a string begins with. *)
Lemma space_ind (P : string -> Prop) :
  (forall s, Py.after_space s = None -> P s) ->
  (forall s s', Py.after_space s = Some s' -> P s' -> P s) ->
  forall s, P s.
Proof.
  intros Hn Hs s.
  assert (G : forall n s, String.length s < n -> P s).
  { induction n as [|n IH]; intros s0 L; [lia|].
    destruct (Py.after_space s0) as [s'|] eqn:E; [|now apply Hn].
    apply (Hs s0 s' E). apply IH.
    destruct (after_space_split s0 s' E) as (x & -> & Hx & _).
    rewrite append_length in L. destruct x; [congruence | cbn in L; lia]. }
  apply (G (S (String.length s))). lia.
Qed.

Lemma all_space_after s s' :
  Py.after_space s = Some s' -> Py.all_space s = Py.all_space s'.
Proof.
  intros H. rewrite (all_space_step s), H.
  destruct s; [discriminate | reflexivity].
Qed.

Lemma all_space_stuck s :
  Py.after_space s = None -> Py.all_space s = true -> s = EmptyString.
Proof.
  intros H. rewrite (all_space_step s), H. destruct s; [reflexivity | discriminate].
Qed.

Lemma all_space_app a b :
  Py.all_space a = true -> Py.all_space b = true -> Py.all_space (a ++ b) = true.
Proof.
  revert a. apply (space_ind (fun a => Py.all_space a = true ->
                                        Py.all_space b = true ->
                                        Py.all_space (a ++ b) = true)).
  - intros a Hn Ha Hb. rewrite (all_space_stuck a Hn Ha). exact Hb.
  - intros a a' E IH Ha Hb.
    rewrite (all_space_after _ _ (after_space_app a a' b E)).
    apply IH; [|exact Hb]. rewrite <- (all_space_after a a' E). exact Ha.
Qed.

Lemma lstrip_padded a s : Py.all_space a = true -> Py.lstrip (a ++ s) = Py.lstrip s.
Proof.
  revert a. apply (space_ind (fun a => Py.all_space a = true ->
                                        Py.lstrip (a ++ s) = Py.lstrip s)).
  - intros a Hn Ha. rewrite (all_space_stuck a Hn Ha). reflexivity.
  - intros a a' E IH Ha.
    rewrite (lstrip_step (a ++ s)), (after_space_app a a' s E).
    apply IH. rewrite <- (all_space_after a a' E). exact Ha.
Qed.

Lemma rstrip_blank b : Py.all_space b = true -> Py.rstrip b = EmptyString.
Proof.
  destruct b as [|c b]; [reflexivity|]. intros H. rewrite rstrip_cons, H. reflexivity.
Qed.

Lemma lstrip_split s :
  exists a, Py.all_space a = true /\ s = a ++ Py.lstrip s.
Proof.
  revert s. apply space_ind.
  - intros s Hn. exists EmptyString. rewrite lstrip_step, Hn. auto.
  - intros s s' E (a & Ha & Ea).
    destruct (after_space_split s s' E) as (x & -> & _ & _ & Hx).
    exists (x ++ a). split.
    + rewrite (all_space_after _ _ (Hx a)). exact Ha.
    + rewrite lstrip_step, E, append_assoc. congruence.
Qed.

Lemma rstrip_split s :
  exists b, Py.all_space b = true /\ s = Py.rstrip s ++ b.
Proof.
  induction s as [|c s (b & Hb & E)].
  - exists EmptyString. auto.
  - rewrite rstrip_cons. destruct (Py.all_space (String c s)) eqn:A.
    + exists (String c s). auto.
    + exists b. split; [assumption|]. cbn. f_equal. exact E.
Qed.

Lemma strip_split s :
  exists a b,
    Py.all_space a = true /\ Py.all_space b = true /\ s = a ++ Py.strip s ++ b.
Proof.
  destruct (lstrip_split s) as (a & Ha & Ea).
  destruct (rstrip_split (Py.lstrip s)) as (b & Hb & Eb).
  exists a, b. repeat split; auto. unfold Py.strip. congruence.
Qed.

(** An ASCII character that is not white space does not begin a
    white-space character. *)
Lemma after_space_plain c t :
  (nat_of_ascii c <? 128)%nat = true -> Py.is_space1 c = false ->
  Py.after_space (String c t) = None.
Proof.
  intros Hc Hs. apply Nat.ltb_lt in Hc. unfold Py.after_space. rewrite Hs.
  destruct t as [|c2 t]; [reflexivity|].
  assert (E2 : Py.is_space2 c c2 = false).
  { unfold Py.is_space2. destruct (Nat.eqb_spec (nat_of_ascii c) 194); [lia | reflexivity]. }
  rewrite E2. destruct t as [|c3 t]; [reflexivity|].
  assert (E3 : Py.is_space3 c c2 c3 = false).
  { unfold Py.is_space3. cbv zeta.
    destruct (Nat.eqb_spec (nat_of_ascii c) 225); [lia|].
    destruct (Nat.eqb_spec (nat_of_ascii c) 226); [lia|].
    destruct (Nat.eqb_spec (nat_of_ascii c) 227); [lia | reflexivity]. }
  rewrite E3. reflexivity.
Qed.

Lemma strip_padded a c b :
  Py.all_space a = true ->
  (nat_of_ascii c <? 128)%nat = true -> Py.is_space1 c = false ->
  Py.all_space b = true ->
  Py.strip (a ++ String c b) = String c EmptyString.
Proof.
  intros Ha Hc Hs Hb. unfold Py.strip. rewrite lstrip_padded by assumption.
  pose proof (after_space_plain c b Hc Hs) as N.
  rewrite lstrip_step, N, rstrip_cons, (all_space_step (String c b)), N.
  rewrite (rstrip_blank b Hb). reflexivity.
Qed.

Lemma lower_char_q c : Py.lower_char c = "q"%char -> c = "q"%char \/ c = "Q"%char.
Proof.
  destruct c as [[] [] [] [] [] [] [] []]; cbn; intros H;
    first [discriminate | now left | now right].
Qed.

Lemma lower_char_c c : Py.lower_char c = "c"%char -> c = "c"%char \/ c = "C"%char.
Proof.
  destruct c as [[] [] [] [] [] [] [] []]; cbn; intros H;
    first [discriminate | now left | now right].
Qed.

Lemma lower_cons c1 s1 :
  Py.lower (String c1 s1) =
  match s1 with
  | EmptyString => String (Py.lower_char c1) EmptyString
  | String c2 s2 =>
      if Py.is_dotted_I c1 c2 then
        String "i"%char
          (String (ascii_of_nat 204) (String (ascii_of_nat 135) (Py.lower s2)))
      else
        match s2 with
        | EmptyString => String (Py.lower_char c1) (Py.lower s1)
        | String c3 s3 =>
            if Py.is_kelvin c1 c2 c3 then String "k"%char (Py.lower s3)
            else String (Py.lower_char c1) (Py.lower s1)
        end
  end.
Proof. destruct s1; reflexivity. Qed.

Lemma lower_nonempty c s : Py.lower (String c s) <> EmptyString.
Proof.
  rewrite lower_cons. destruct s as [|c2 s2]; [discriminate|].
  destruct (Py.is_dotted_I c c2); [discriminate|].
  destruct s2 as [|c3 s3]; [discriminate|].
  destruct (Py.is_kelvin c c2 c3); discriminate.
Qed.

(** A string whose lower case is one ASCII letter other than [k] is
    one character. *)
Lemma lower_one s c :
  c <> "k"%char ->
  Py.lower s = String c EmptyString ->
  exists c', s = String c' EmptyString /\ Py.lower_char c' = c.
Proof.
  intros Hk. destruct s as [|c1 s1]; [discriminate|].
  rewrite lower_cons. destruct s1 as [|c2 s2].
  - intros H. injection H as H. eauto.
  - destruct (Py.is_dotted_I c1 c2); [discriminate|].
    destruct s2 as [|c3 s3].
    + intros H. injection H as _ H. discriminate.
    + destruct (Py.is_kelvin c1 c2 c3).
      * intros H. injection H as H _. congruence.
      * pose proof (lower_nonempty c2 (String c3 s3)) as N.
        destruct (Py.lower (String c2 (String c3 s3))); [congruence | discriminate].
Qed.

(** The lines that count as [q]: a [q] or a [Q] with white space
    around it. *)
Lemma user_choice_q line :
  user_choice line = "q" <->
  exists a b, Py.all_space a = true /\ Py.all_space b = true /\
              (line = a ++ "q" ++ b \/ line = a ++ "Q" ++ b).
Proof.
  unfold user_choice. split.
  - intros H. apply lower_one in H; [|discriminate]. destruct H as (c & Hs & Hc).
    destruct (strip_split line) as (a & b & Ha & Hb & E). rewrite Hs in E.
    exists a, b. repeat split; auto.
    apply lower_char_q in Hc. destruct Hc as [-> | ->]; auto.
  - intros (a & b & Ha & Hb & [-> | ->]); cbn [append];
      rewrite strip_padded by auto; reflexivity.
Qed.

(** The lines that count as [c]. *)
Lemma user_choice_c line :
  user_choice line = "c" <->
  exists a b, Py.all_space a = true /\ Py.all_space b = true /\
              (line = a ++ "c" ++ b \/ line = a ++ "C" ++ b).
Proof.
  unfold user_choice. split.
  - intros H. apply lower_one in H; [|discriminate]. destruct H as (c & Hs & Hc).
    destruct (strip_split line) as (a & b & Ha & Hb & E). rewrite Hs in E.
    exists a, b. repeat split; auto.
    apply lower_char_c in Hc. destruct Hc as [-> | ->]; auto.
  - intros (a & b & Ha & Hb & [-> | ->]); cbn [append];
      rewrite strip_padded by auto; reflexivity.
Qed.

Lemma keeps_mic_turns_speak_text v lang : keeps mic_turns (speak_text v lang).
Proof. unfold speak_text, synthesize_and_play, report_tts_error, cleanup. frame. Qed.

Lemma keeps_mic_turns_get_ai_response model prompt :
  keeps mic_turns (get_ai_response model prompt).
Proof. unfold get_ai_response, generate, read_response, primary_text. frame. Qed.

Lemma keeps_mic_turns_respond_to model st r : keeps mic_turns (respond_to model st r).
Proof.
  pose proof keeps_mic_turns_speak_text. pose proof keeps_mic_turns_get_ai_response.
  unfold respond_to. frame.
Qed.

Lemma mic_turns_recognize c n w :
  mic_turns (snd (recognize_speech_from_mic SrRecognizer SrMicrophone c n w))
  = S (mic_turns w).
Proof.
  unfold recognize_speech_from_mic.
  cbn [isinstance_Recognizer isinstance_Microphone negb].
  erewrite bind_val by reflexivity. cbv beta.
  match goal with
  | |- mic_turns (snd (?m _)) = _ =>
      assert (K : keeps mic_turns m) by (unfold capture, with_microphone; frame);
      rewrite K
  end.
  reflexivity.
Qed.

Lemma mic_turns_take_turn model st w :
  mic_turns (snd (take_turn model st w)) = S (mic_turns w).
Proof.
  unfold take_turn, bind.
  pose proof (mic_turns_recognize (current_speech_lang_code st)
                (current_speech_lang_name st) w) as Hm.
  destruct (recognize_speech_from_mic _ _ _ _ w) as [[r|e] w1]; cbn [snd] in *.
  - rewrite keeps_mic_turns_respond_to. exact Hm.
  - exact Hm.
Qed.

Lemma loop_body_dispatch model st w line rest :
  stdin w = line :: rest ->
  loop_body model st w =
  (if String.eqb (user_choice line) "q" then
     print "Exiting assistant. Goodbye!" ;; ret Break
   else if String.eqb (user_choice line) "c" then
     selected <- select_language ;;
     let st' := use_language selected in
     print (Py.NL ++ "Language changed to: " ++ current_speech_lang_name st'
            ++ " (Code: " ++ current_speech_lang_code st' ++ ")") ;;
     ret (Continue st')
   else
     take_turn model st ;; ret (Continue st))
    (after_input idle_prompt w).
Proof.
  intros H. unfold loop_body.
  erewrite bind_val by (eapply input_reads; eassumption). reflexivity.
Qed.

(* ================================================================= *)
(** * Language selection and the language of the session *)

Lemma bind_inv {A B} (m : M A) (k : A -> M B) w b w' :
  bind m k w = (Val b, w') ->
  exists a w1, m w = (Val a, w1) /\ k a w1 = (Val b, w').
Proof.
  unfold bind. destruct (m w) as [[a|e] w1]; intros H; [eauto | discriminate].
Qed.

Lemma select_language_loop_in_registry n : forall w info w',
  select_language_loop n w = (Val info, w') ->
  exists key, lookup key SUPPORTED_LANGUAGES = Some info.
Proof.
  induction n as [|n IH]; intros w info w' H; cbn [select_language_loop] in H;
    apply bind_inv in H; destruct H as (choice & w1 & _ & H);
    destruct (lookup choice SUPPORTED_LANGUAGES) as [i|] eqn:L.
  - unfold ret in H. inversion H; subst. eauto.
  - apply bind_inv in H. destruct H as (u & w2 & Hp & H). discriminate.
  - unfold ret in H. inversion H; subst. eauto.
  - apply bind_inv in H. destruct H as (u & w2 & Hp & H). eauto.
Qed.

Lemma select_language_in_registry w info w' :
  select_language w = (Val info, w') ->
  exists key, lookup key SUPPORTED_LANGUAGES = Some info.
Proof.
  unfold select_language. intros H.
  apply bind_inv in H. destruct H as (u1 & w1 & Hp1 & H).
  apply bind_inv in H. destruct H as (u2 & w2 & Hp2 & H).
  eapply select_language_loop_in_registry. exact H.
Qed.

(** The rounds allowed to the selection loop never run out: more
    rounds than waiting lines change nothing. *)
Lemma select_language_loop_rounds n : forall m w,
  List.length (stdin w) <= n -> List.length (stdin w) <= m ->
  select_language_loop n w = select_language_loop m w.
Proof.
  induction n as [|n IH]; intros m w Hn Hm.
  - destruct (stdin w) as [|l rest] eqn:S; [|cbn in Hn; lia].
    destruct m; cbn [select_language_loop]; unfold bind, input; rewrite S; reflexivity.
  - destruct (stdin w) as [|l rest] eqn:S.
    + destruct m; cbn [select_language_loop]; unfold bind, input; rewrite S; reflexivity.
    + destruct m as [|m]; [cbn in Hm; lia|].
      cbn [select_language_loop].
      rewrite !(bind_val _ _ _ _ _ (input_reads choice_prompt w l rest S)).
      destruct (lookup l SUPPORTED_LANGUAGES); [reflexivity|].
      erewrite !bind_val by reflexivity.
      apply IH; unfold after_input; rewrite S; cbn in *; lia.
Qed.

(** Invalid answers are asked again, as often as they come, until a
    key of the registry is typed. *)
Lemma select_language_loop_reprompts bad : forall n w key info rest,
  Forall (fun l => lookup l SUPPORTED_LANGUAGES = None) bad ->
  lookup key SUPPORTED_LANGUAGES = Some info ->
  stdin w = (bad ++ key :: rest)%list ->
  fst (select_language_loop (List.length (stdin w) + n) w) = Val info /\
  stdin (snd (select_language_loop (List.length (stdin w) + n) w)) = rest.
Proof.
  induction bad as [|l bad IH]; intros n w key info rest Hb Hk Hs.
  - cbn [app] in Hs. rewrite Hs. cbn [List.length plus select_language_loop].
    rewrite (bind_val _ _ _ _ _ (input_reads choice_prompt w key rest Hs)).
    rewrite Hk. unfold after_input. rewrite Hs. split; reflexivity.
  - cbn [app] in Hs. inversion Hb as [|? ? Hl Hb']; subst.
    rewrite Hs. cbn [List.length plus select_language_loop].
    rewrite (bind_val _ _ _ _ _ (input_reads choice_prompt w l _ Hs)).
    rewrite Hl. erewrite bind_val by reflexivity.
    set (w2 := emit_event _ (after_input choice_prompt w)).
    assert (S2 : stdin w2 = (bad ++ key :: rest)%list)
      by (unfold w2, after_input; rewrite Hs; reflexivity).
    specialize (IH n w2 key info rest Hb' Hk S2). rewrite S2 in IH. exact IH.
Qed.

Lemma select_language_reprompts bad w key info rest :
  Forall (fun l => lookup l SUPPORTED_LANGUAGES = None) bad ->
  lookup key SUPPORTED_LANGUAGES = Some info ->
  stdin w = (bad ++ key :: rest)%list ->
  fst (select_language w) = Val info /\ stdin (snd (select_language w)) = rest.
Proof.
  intros Hb Hk Hs. unfold select_language.
  erewrite bind_val by reflexivity.
  assert (K : keeps stdin
                (for_each SUPPORTED_LANGUAGES
                   (fun '(key, lang_info) => print (key ++ ": " ++ name lang_info))))
    by (apply keeps_for_each; intros [k i]; frame).
  set (w1 := emit_event _ w).
  specialize (K w1).
  destruct (for_each _ _ w1) as [[[]|e] w2] eqn:F.
  2:{ exfalso. revert F. unfold w1. cbn. discriminate. }
  erewrite bind_val by exact F. cbn [snd] in K.
  assert (S2 : stdin w2 = (bad ++ key :: rest)%list) by (rewrite K; exact Hs).
  pose proof (select_language_loop_reprompts bad 0 w2 key info rest Hb Hk S2) as R.
  rewrite Nat.add_0_r in R. exact R.
Qed.

(** Every round leaves the session as it is or replaces it by the
    registry entry that [select_language] has returned. *)
Lemma loop_body_session model st w st' w' :
  loop_body model st w = (Val (Continue st'), w') ->
  st' = st \/
  (exists line rest info,
     stdin w = line :: rest /\ user_choice line = "c" /\
     lookup (fst info) SUPPORTED_LANGUAGES = Some (snd info) /\
     st' = use_language (snd info)).
Proof.
  intros H. destruct (stdin w) as [|line rest] eqn:S.
  - unfold loop_body, bind, input in H. rewrite S in H. discriminate.
  - rewrite (loop_body_dispatch model st w line rest S) in H.
    destruct (String.eqb (user_choice line) "q") eqn:Q.
    { cbn in H. discriminate. }
    destruct (String.eqb (user_choice line) "c") eqn:C.
    + right. apply String.eqb_eq in C.
      apply bind_inv in H. destruct H as (info & w1 & Hsel & H).
      apply select_language_in_registry in Hsel. destruct Hsel as [key Hk].
      cbv zeta in H. apply bind_inv in H. destruct H as (u2 & w2 & Hp2 & H).
      unfold ret in H; inversion H; subst.
      exists line, rest, (key, info). auto.
    + left. apply bind_inv in H. destruct H as (u1 & w1 & Hp1 & H).
      unfold ret in H; inversion H; subst. reflexivity.
Qed.

(** ** The languages handed to the recognizer and the synthesiser *)

Lemma lookup_In {V} key (d : list (string * V)) v :
  lookup key d = Some v -> In (key, v) d.
Proof.
  induction d as [|[k x] d IH]; cbn; [discriminate|].
  destruct (String.eqb key k) eqn:E.
  - apply String.eqb_eq in E. intros H. injection H as ->. subst. now left.
  - intros H. right. auto.
Qed.

Lemma in_registry_codes st :
  in_registry st ->
  In (current_speech_lang_code st) recognition_codes /\
  In (current_gtts_lang st) synthesis_codes.
Proof.
  intros (key & info & Hk & _ & -> & _ & ->). apply lookup_In in Hk.
  split.
  - apply (in_map (fun entry => code (snd entry))) in Hk. exact Hk.
  - apply (in_map (fun entry => gtts_lang (snd entry))) in Hk. exact Hk.
Qed.

Lemma keeps_foreign_speak_text v lang :
  In lang synthesis_codes -> keeps foreign_uses (speak_text v lang).
Proof.
  intros H. cbn in H. destruct H as [<- | [<- | [<- | []]]];
    unfold speak_text, synthesize_and_play, report_tts_error, cleanup; frame.
Qed.

Lemma keeps_foreign_recognize r m c n :
  In c recognition_codes -> keeps foreign_uses (recognize_speech_from_mic r m c n).
Proof.
  intros H. cbn in H. destruct H as [<- | [<- | [<- | []]]];
    unfold recognize_speech_from_mic, capture, with_microphone; frame.
Qed.

Lemma keeps_foreign_get_ai_response model prompt :
  keeps foreign_uses (get_ai_response model prompt).
Proof. unfold get_ai_response, generate, read_response, primary_text. frame. Qed.

Lemma keeps_foreign_loop_body model st :
  in_registry st -> keeps foreign_uses (loop_body model st).
Proof.
  intros H. apply in_registry_codes in H. destruct H as [Hc Hg].
  assert (Ks : forall v, keeps foreign_uses (speak_text v (current_gtts_lang st)))
    by (intros; now apply keeps_foreign_speak_text).
  assert (Kr : keeps foreign_uses
                 (recognize_speech_from_mic SrRecognizer SrMicrophone
                    (current_speech_lang_code st) (current_speech_lang_name st)))
    by now apply keeps_foreign_recognize.
  pose proof keeps_foreign_get_ai_response as Ka.
  unfold loop_body, take_turn, respond_to. frame.
Qed.

Lemma keeps_foreign_initial_selection : keeps foreign_uses initial_selection.
Proof. unfold initial_selection. frame. Qed.

Lemma use_language_in_registry key info :
  lookup key SUPPORTED_LANGUAGES = Some info -> in_registry (use_language info).
Proof. intros H. exists key, info. repeat split. exact H. Qed.

(** A round in which [c] is typed and then a key of the registry
    makes the three assignments of lines 233-235. *)
Lemma loop_body_changes_language model st w line key info rest :
  stdin w = line :: key :: rest ->
  user_choice line = "c" ->
  lookup key SUPPORTED_LANGUAGES = Some info ->
  fst (loop_body model st w)
  = Val (Continue (mkSession info (code info) (name info) (gtts_lang info))).
Proof.
  intros H Hc Hk.
  rewrite (loop_body_dispatch model st w line (key :: rest) H), Hc.
  cbn [String.eqb Ascii.eqb Bool.eqb andb].
  assert (S1 : stdin (after_input idle_prompt w) = ([] ++ key :: rest)%list)
    by (unfold after_input; rewrite H; reflexivity).
  destruct (select_language_reprompts [] (after_input idle_prompt w) key info rest
              (Forall_nil _) Hk S1) as (A & _).
  unfold bind at 1.
  destruct (select_language (after_input idle_prompt w)) as [r w1].
  cbn [fst] in A. subst r. reflexivity.
Qed.

(** C9.  At the start of every round of the session the language
    variables are those of one entry of [SUPPORTED_LANGUAGES]: the
    recognition code, the display name and the synthesis code are the
    three fields of the same entry.  No call of the recognizer or of
    the synthesiser made since the session started has used a
    language outside the registry.  Language selection returns
    entries of the registry only, asking again after every invalid
    answer; a round changes the language only by such a selection,
    after the user has typed [c], and then all three variables are
    those of the entry selected. *)
Theorem language_is_a_registry_entry (model : option GenerativeModel)
    (w0 : World) (st : Session) (w : World) :
  reachable model w0 st w ->
  in_registry st /\
  foreign_uses w = foreign_uses w0 /\
  (forall st' w',
     loop_body model st w = (Val (Continue st'), w') ->
     in_registry st' /\
     (Py.lower (Py.strip (hd EmptyString (stdin w))) <> "c" -> st' = st)) /\
  (forall bad key info rest,
     Forall (fun l => lookup l SUPPORTED_LANGUAGES = None) bad ->
     lookup key SUPPORTED_LANGUAGES = Some info ->
     stdin w = (bad ++ key :: rest)%list ->
     fst (select_language w) = Val info /\ stdin (snd (select_language w)) = rest) /\
  (forall line key info rest,
     stdin w = line :: key :: rest ->
     Py.lower (Py.strip line) = "c" ->
     lookup key SUPPORTED_LANGUAGES = Some info ->
     fst (loop_body model st w)
     = Val (Continue (mkSession info (code info) (name info) (gtts_lang info)))).
Proof.
  intros R.
  assert (I : in_registry st /\ foreign_uses w = foreign_uses w0).
  { induction R as [st w H | st w st' w' R [IH IF] H].
    - split.
      + unfold initial_selection in H.
        apply bind_inv in H. destruct H as (info & w1 & Hsel & H).
        apply select_language_in_registry in Hsel. destruct Hsel as [key Hk].
        cbv zeta in H. apply bind_inv in H. destruct H as (u2 & w2 & Hp2 & H).
        unfold ret in H; inversion H; subst.
        exact (use_language_in_registry key info Hk).
      + pose proof (keeps_foreign_initial_selection w0) as K.
        rewrite H in K. exact K.
    - split.
      + apply loop_body_session in H.
        destruct H as [-> | (line & rest & [key info] & _ & _ & Hk & ->)]; [exact IH|].
        exact (use_language_in_registry key info Hk).
      + pose proof (keeps_foreign_loop_body model st IH w) as K.
        rewrite H in K. cbn [snd] in K. congruence. }
  destruct I as [I F].
  split; [exact I|]. split; [exact F|]. split; [|split].
  - intros st' w' H. pose proof (loop_body_session _ _ _ _ _ H) as J.
    destruct J as [-> | (line & rest & [key info] & S & C & Hk & ->)].
    + auto.
    + split; [exact (use_language_in_registry key info Hk)|].
      rewrite S. cbn [hd]. fold (user_choice line). congruence.
  - intros bad key info rest. apply select_language_reprompts.
  - intros line key info rest. apply loop_body_changes_language.
Qed.

Lemma language_is_a_registry_entry_witness :
  in_registry (mkSession (mkLang "Hindi (India)" "hi-IN" "hi")
                 "hi-IN" "Hindi (India)" "hi").
Proof.
  refine (proj1 (language_is_a_registry_entry (Some gemini)
           (sample_world ["7"; " 2"; "2"; "q"] false (mic_hears "hello") (ai_says "hi") tts_fine)
           (mkSession (mkLang "Hindi (India)" "hi-IN" "hi") "hi-IN" "Hindi (India)" "hi")
           (snd (initial_selection
                   (sample_world ["7"; " 2"; "2"; "q"] false (mic_hears "hello")
                      (ai_says "hi") tts_fine))) _)).
  apply reach_start. vm_compute. reflexivity.
Defined.

(* ================================================================= *)
(** * What leaves [recognize_speech_from_mic] *)

(** With objects that are not the genuine devices, or with a
    microphone that opens and closes, the call returns a dict. *)
Lemma recognize_returns_dict r m c n w :
  r <> SrRecognizer \/ m <> SrMicrophone \/
  (mic_open (mic_env w (mic_turns w)) = Val tt /\
   mic_exit (mic_env w (mic_turns w)) = Val tt) ->
  exists d, fst (recognize_speech_from_mic r m c n w) = Val d.
Proof.
  intros H. destruct r; try (eexists; reflexivity);
    destruct m; try (eexists; reflexivity).
  destruct H as [H | [H | [H Hx]]]; try congruence.
  rewrite recognize_outcome. unfold speech_outcome. rewrite H.
  unfold mic_exit in Hx.
  destruct (adjust_noise _); [|rewrite Hx; eauto]. destruct (listen _) as [|e].
  - destruct (recognize_google _) as [|e]; [eauto|].
    destruct (is_class RequestError e); [eauto|].
    destruct (is_class UnknownValueError e); eauto.
  - destruct (is_class WaitTimeoutError e); eauto.
Qed.

(** When [__enter__] has returned without a stream, the adjustment
    fails, its handler returns a dict from inside the [with] block,
    and what [__exit__] raises replaces that dict: the exception
    leaves the call, and the turn of the loop with it. *)
Lemma microphone_exit_is_not_caught model st w e e' :
  mic_open (mic_env w (mic_turns w)) = Val tt ->
  adjust_noise (mic_env w (mic_turns w)) = Exc e ->
  mic_close (mic_env w (mic_turns w)) = Exc e' ->
  fst (recognize_speech_from_mic SrRecognizer SrMicrophone
         (current_speech_lang_code st) (current_speech_lang_name st) w) = Exc e' /\
  fst (take_turn model st w) = Exc e'.
Proof.
  intros Ho Ha Hx.
  pose proof (recognize_outcome (current_speech_lang_code st)
                (current_speech_lang_name st) w) as Hr.
  unfold speech_outcome in Hr. rewrite Ho, Ha, Hx in Hr.
  split; [exact Hr|]. unfold take_turn, bind.
  destruct (recognize_speech_from_mic _ _ _ _ w) as [[r|e1] w1]; cbn in *; congruence.
Qed.

(** [success] does not tell that there is a transcript: after a
    timeout, and after audio that was not understood, the dict has
    [success = True], an error text and no transcription. *)
Lemma success_without_transcript c n w e :
  mic_open (mic_env w (mic_turns w)) = Val tt ->
  adjust_noise (mic_env w (mic_turns w)) = Val tt ->
  (listen (mic_env w (mic_turns w)) = Exc e /\ exn_class e = WaitTimeoutError) \/
  (listen (mic_env w (mic_turns w)) = Val tt /\
   recognize_google (mic_env w (mic_turns w)) = Exc e /\
   exn_class e = UnknownValueError) ->
  exists msg,
    fst (recognize_speech_from_mic SrRecognizer SrMicrophone c n w)
    = Val (mkSpeech true (Some msg) None).
Proof.
  intros Ho Ha H. rewrite recognize_outcome. unfold speech_outcome. rewrite Ho, Ha.
  destruct H as [[Hl He] | (Hl & Hg & He)].
  - rewrite Hl, (is_class_eq _ _ He). eauto.
  - rewrite Hl, Hg, (is_class_eq _ _ He).
    replace (is_class RequestError e) with false
      by (unfold is_class; rewrite He; reflexivity).
    eauto.
Qed.

(** Whatever exception the opening of the microphone raises leaves the
    call, and the turn of the loop with it. *)
Lemma microphone_failure_is_not_caught model st w e :
  mic_open (mic_env w (mic_turns w)) = Exc e ->
  fst (recognize_speech_from_mic SrRecognizer SrMicrophone
         (current_speech_lang_code st) (current_speech_lang_name st) w) = Exc e /\
  fst (take_turn model st w) = Exc e.
Proof.
  intros H.
  pose proof (recognize_outcome (current_speech_lang_code st)
                (current_speech_lang_name st) w) as Ho.
  unfold speech_outcome in Ho. rewrite H in Ho.
  split; [exact Ho|]. unfold take_turn, bind.
  destruct (recognize_speech_from_mic _ _ _ _ w) as [[r|e'] w1]; cbn in *; congruence.
Qed.

(** C10.  The claim fails where the microphone cannot be opened: the
    [with microphone as source] statement is outside every [try], so
    the exception of the device leaves [recognize_speech_from_mic]
    instead of being returned in a dict, and it ends the session
    loop. *)
Theorem microphone_failure_escapes :
  fst (recognize_speech_from_mic SrRecognizer SrMicrophone "en-US" "English (US)"
         (sample_world [] false mic_unplugged (ai_says "hi") tts_fine))
  = Exc (mkExn OSError "[Errno -9996] Invalid input device (no default output device)") /\
  fst (run 3 (Some gemini) english
         (sample_world [EmptyString; "q"] false mic_unplugged (ai_says "hi") tts_fine))
  = Crashed (mkExn OSError "[Errno -9996] Invalid input device (no default output device)").
Proof. split; reflexivity. Qed.

(* ================================================================= *)
(** * The session ends with its input *)

Lemma stdin_select_language_loop n : forall w,
  List.length (stdin (snd (select_language_loop n w))) <= List.length (stdin w).
Proof.
  induction n as [|n IH]; intros w; cbn [select_language_loop];
    (destruct (stdin w) as [|l rest] eqn:S;
     [ unfold bind, input; rewrite S; cbn; rewrite S; cbn; lia
     | rewrite (bind_val _ _ _ _ _ (input_reads choice_prompt w l rest S));
       destruct (lookup l SUPPORTED_LANGUAGES);
       [ unfold after_input; rewrite S; cbn; lia | ] ]).
  - erewrite bind_val by reflexivity. unfold after_input. rewrite S. cbn. lia.
  - erewrite bind_val by reflexivity.
    etransitivity; [apply IH|]. unfold after_input. rewrite S. cbn. lia.
Qed.

Lemma stdin_select_language w :
  List.length (stdin (snd (select_language w))) <= List.length (stdin w).
Proof.
  unfold select_language.
  erewrite bind_val by reflexivity.
  assert (K : keeps stdin
                (for_each SUPPORTED_LANGUAGES
                   (fun '(key, lang_info) => print (key ++ ": " ++ name lang_info))))
    by (apply keeps_for_each; intros [k i]; frame).
  set (w1 := emit_event _ w). specialize (K w1). unfold bind.
  destruct (for_each _ _ w1) as [[[]|e] w2]; cbn [snd] in *.
  - pose proof (stdin_select_language_loop (List.length (stdin w2)) w2).
    rewrite K in *. exact H.
  - rewrite K. reflexivity.
Qed.

Lemma keeps_stdin_take_turn model st : keeps stdin (take_turn model st).
Proof.
  unfold take_turn, respond_to, recognize_speech_from_mic, capture, with_microphone,
    get_ai_response, generate, read_response, primary_text,
    speak_text, synthesize_and_play, report_tts_error, cleanup.
  frame.
Qed.

Lemma loop_body_consumes model st w st' w' :
  loop_body model st w = (Val (Continue st'), w') ->
  List.length (stdin w') < List.length (stdin w).
Proof.
  intros H. destruct (stdin w) as [|line rest] eqn:S.
  - unfold loop_body, bind, input in H. rewrite S in H. discriminate.
  - rewrite (loop_body_dispatch model st w line rest S) in H.
    assert (S1 : stdin (after_input idle_prompt w) = rest)
      by (unfold after_input; rewrite S; reflexivity).
    destruct (String.eqb (user_choice line) "q"); [cbn in H; discriminate|].
    destruct (String.eqb (user_choice line) "c").
    + apply bind_inv in H. destruct H as (info & w1 & Hsel & H).
      pose proof (stdin_select_language (after_input idle_prompt w)) as L.
      rewrite Hsel, S1 in L. cbn [snd] in L.
      cbv zeta in H. unfold bind, print, emit, ret in H.
      injection H as _ Hw. rewrite <- Hw. cbn. lia.
    + apply bind_inv in H. destruct H as (u & w1 & Ht & H).
      pose proof (keeps_stdin_take_turn model st (after_input idle_prompt w)) as K.
      rewrite Ht, S1 in K. cbn [snd] in K.
      unfold ret in H. injection H as _ Hw. rewrite <- Hw, K. cbn. lia.
Qed.

(** Every round reads at least one line, so the loop cannot make more
    rounds than there are lines: it ends by [q], or by the [EOFError]
    of [input], or by an exception of the microphone. *)
Lemma run_ends model n : forall st w st',
  List.length (stdin w) < n -> fst (run n model st w) <> Running st'.
Proof.
  induction n as [|n IH]; intros st w st' H; [lia|].
  cbn [run]. destruct (loop_body model st w) as [[[|st1]|e] w1] eqn:E; cbn [fst];
    try discriminate.
  apply IH. apply loop_body_consumes in E. lia.
Qed.

(* ================================================================= *)
(** * Two sessions from start to end *)

(** The user picks English, presses Enter, says "hello", the service
    answers "hi there", the user quits: one request, one utterance,
    no file left. *)
Example session_hello :
  let end_ := session 5 (Some gemini)
                (sample_world ["1"; EmptyString; "q"] false (mic_hears "hello")
                   (ai_says "hi there") tts_fine) in
  fst end_ = Finished /\
  spoken (snd end_) = [("hi there", "en")] /\
  requests (snd end_) = ["hello"] /\
  temp_file (snd end_) = false /\
  stdin (snd end_) = [].
Proof. repeat split. Qed.

(** The user picks Kannada after a wrong key, changes to Hindi, and the
    input ends: the loop stops on the [EOFError] of [input]. *)
Example session_input_ends :
  let end_ := session 5 None
                (sample_world ["9"; "3"; " C "; "2"] false mic_silence
                   (ai_says "hi") tts_fine) in
  fst end_ = Crashed (mkExn EOFError "EOF when reading a line") /\
  spoken (snd end_) = [] /\
  requests (snd end_) = [].
Proof. repeat split. Qed.

(* ================================================================= *)
(** * Further properties: the registry and the language selector *)

(** The registry resolves a key to the entry stored under it, and to
    nothing when the key is not one of its keys; keys are compared as
    they are typed, without stripping. *)
Theorem registry_lookup (key : string) :
  (forall info,
     lookup key SUPPORTED_LANGUAGES = Some info <-> In (key, info) SUPPORTED_LANGUAGES) /\
  (lookup key SUPPORTED_LANGUAGES = None <-> ~ In key (map fst SUPPORTED_LANGUAGES)).
Proof.
  split.
  - intros info. split; [apply lookup_In|].
    cbn. intros [H | [H | [H | []]]]; injection H as <- <-; reflexivity.
  - cbn. destruct (String.eqb key "1") eqn:E1; [apply String.eqb_eq in E1|];
      [split; [discriminate | intros H; exfalso; apply H; auto]|].
    destruct (String.eqb key "2") eqn:E2; [apply String.eqb_eq in E2|];
      [split; [discriminate | intros H; exfalso; apply H; auto]|].
    destruct (String.eqb key "3") eqn:E3; [apply String.eqb_eq in E3|];
      [split; [discriminate | intros H; exfalso; apply H; auto]|].
    apply String.eqb_neq in E1, E2, E3.
    split; [|reflexivity]. intros _ [H | [H | [H | []]]]; congruence.
Qed.

Lemma repeat_snoc {A} (x : A) n l : (repeat x n ++ x :: l = x :: repeat x n ++ l)%list.
Proof. induction n as [|n IH]; cbn; [reflexivity|]. now rewrite IH. Qed.

Lemma select_language_loop_asks bad : forall n w key info rest,
  Forall (fun l => lookup l SUPPORTED_LANGUAGES = None) bad ->
  lookup key SUPPORTED_LANGUAGES = Some info ->
  stdin w = (bad ++ key :: rest)%list ->
  printed (snd (select_language_loop (List.length (stdin w) + n) w))
    = (repeat invalid_notice (List.length bad) ++ printed w)%list /\
  prompts (snd (select_language_loop (List.length (stdin w) + n) w))
    = (repeat choice_prompt (S (List.length bad)) ++ prompts w)%list.
Proof.
  induction bad as [|l bad IH]; intros n w key info rest Hb Hk Hs.
  - cbn [app] in Hs. rewrite Hs. cbn [List.length plus select_language_loop].
    rewrite (bind_val _ _ _ _ _ (input_reads choice_prompt w key rest Hs)).
    rewrite Hk. split; reflexivity.
  - cbn [app] in Hs. inversion Hb as [|? ? Hl Hb']; subst.
    rewrite Hs. cbn [List.length plus select_language_loop].
    rewrite (bind_val _ _ _ _ _ (input_reads choice_prompt w l _ Hs)).
    rewrite Hl. erewrite bind_val by reflexivity.
    set (w2 := emit_event _ (after_input choice_prompt w)).
    assert (S2 : stdin w2 = (bad ++ key :: rest)%list)
      by (unfold w2, after_input; rewrite Hs; reflexivity).
    specialize (IH n w2 key info rest Hb' Hk S2). rewrite S2 in IH.
    destruct IH as [IP II]. rewrite IP, II. split.
    + change (printed w2) with (invalid_notice :: printed w).
      cbn [List.length repeat]. rewrite repeat_snoc. reflexivity.
    + change (prompts w2) with (choice_prompt :: prompts w).
      cbn [List.length]. change (repeat choice_prompt (S (S (List.length bad))))
        with (choice_prompt :: repeat choice_prompt (S (List.length bad))).
      rewrite repeat_snoc. reflexivity.
Qed.

Lemma select_language_menu w :
  exists w1,
    select_language w = select_language_loop (List.length (stdin w1)) w1 /\
    stdin w1 = stdin w /\
    printed w1 = (rev menu_lines ++ printed w)%list /\
    prompts w1 = prompts w.
Proof.
  eexists. split; [|split; [|split]]; [reflexivity | reflexivity ..].
Qed.

(** The selector shows the menu once, asks once per line it reads,
    and answers every invalid line with one notice, until a key of
    the registry is typed; it reads nothing after that key. *)
Theorem select_language_asks_until_valid (bad : list string) (key : string)
    (info : LangInfo) (rest : list string) (w : World) :
  Forall (fun l => lookup l SUPPORTED_LANGUAGES = None) bad ->
  lookup key SUPPORTED_LANGUAGES = Some info ->
  stdin w = (bad ++ key :: rest)%list ->
  fst (select_language w) = Val info /\
  stdin (snd (select_language w)) = rest /\
  printed (snd (select_language w))
    = (repeat invalid_notice (List.length bad) ++ rev menu_lines ++ printed w)%list /\
  prompts (snd (select_language w))
    = (repeat choice_prompt (S (List.length bad)) ++ prompts w)%list.
Proof.
  intros Hb Hk Hs.
  destruct (select_language_reprompts bad w key info rest Hb Hk Hs) as [R1 R2].
  split; [exact R1|]. split; [exact R2|].
  destruct (select_language_menu w) as (w1 & E & S1 & P1 & Q1).
  rewrite E. rewrite <- S1 in Hs.
  pose proof (select_language_loop_asks bad 0 w1 key info rest Hb Hk Hs) as [A B].
  rewrite Nat.add_0_r in A, B. rewrite A, B, P1, Q1. split; reflexivity.
Qed.

Lemma select_language_asks_until_valid_witness :
  printed (snd (select_language
                  (sample_world ["x"; " 1"; "3"; "q"] false mic_silence (ai_says "hi")
                     tts_fine)))
  = [invalid_notice; invalid_notice;
     "3: Kannada (India)"; "2: Hindi (India)"; "1: English (US)";
     Py.NL ++ "Please select a language for speech recognition and TTS:"].
Proof.
  refine (proj1 (proj2 (proj2 (select_language_asks_until_valid ["x"; " 1"] "3"
            (mkLang "Kannada (India)" "kn-IN" "kn") ["q"]
            (sample_world ["x"; " 1"; "3"; "q"] false mic_silence (ai_says "hi") tts_fine)
            _ _ _)))).
  - repeat constructor.
  - reflexivity.
  - reflexivity.
Defined.

Lemma select_language_loop_exhausted l : forall n w,
  stdin w = l ->
  Forall (fun x => lookup x SUPPORTED_LANGUAGES = None) l ->
  fst (select_language_loop (List.length l + n) w)
    = Exc (mkExn EOFError "EOF when reading a line") /\
  stdin (snd (select_language_loop (List.length l + n) w)) = [] /\
  printed (snd (select_language_loop (List.length l + n) w))
    = (repeat invalid_notice (List.length l) ++ printed w)%list.
Proof.
  induction l as [|x l IH]; intros n w Hs Hb.
  - cbn [List.length plus]. destruct n; cbn [select_language_loop];
      unfold bind, input; rewrite Hs; cbn; rewrite Hs; auto.
  - inversion Hb as [|? ? Hx Hb']; subst.
    cbn [List.length plus select_language_loop].
    rewrite (bind_val _ _ _ _ _ (input_reads choice_prompt w x l Hs)).
    rewrite Hx. erewrite bind_val by reflexivity.
    set (w2 := emit_event _ (after_input choice_prompt w)).
    assert (S2 : stdin w2 = l) by (unfold w2, after_input; rewrite Hs; reflexivity).
    destruct (IH n w2 S2 Hb') as (A & B & C).
    rewrite A, B, C. repeat split.
    change (printed w2) with (invalid_notice :: printed w).
    cbn [repeat]. rewrite repeat_snoc. reflexivity.
Qed.

(** When the input ends before a key of the registry is typed, the
    selector raises the [EOFError] of [input], after one notice per
    line read. *)
Theorem select_language_input_ends (w : World) :
  Forall (fun x => lookup x SUPPORTED_LANGUAGES = None) (stdin w) ->
  fst (select_language w) = Exc (mkExn EOFError "EOF when reading a line") /\
  stdin (snd (select_language w)) = [] /\
  printed (snd (select_language w))
    = (repeat invalid_notice (List.length (stdin w)) ++ rev menu_lines ++ printed w)%list.
Proof.
  intros Hb.
  destruct (select_language_menu w) as (w1 & E & S1 & P1 & Q1).
  rewrite E. rewrite <- S1 in Hb |- *.
  pose proof (select_language_loop_exhausted (stdin w1) 0 w1 eq_refl Hb) as (A & B & C).
  rewrite Nat.add_0_r in A, B, C. rewrite A, B, C, P1. repeat split.
Qed.

Lemma select_language_input_ends_witness :
  fst (select_language
         (sample_world ["0"; "1 "; "one"] false mic_silence (ai_says "hi") tts_fine))
  = Exc (mkExn EOFError "EOF when reading a line").
Proof.
  refine (proj1 (select_language_input_ends
            (sample_world ["0"; "1 "; "one"] false mic_silence (ai_says "hi") tts_fine) _)).
  repeat constructor.
Defined.

(* ================================================================= *)
(** * Further properties: speech recognition *)

(** The dict of the recognizer is consistent for every caller: it has
    a transcription exactly when it has no error, a transcription
    only with [success], and a failure always with a non-empty error
    message. *)
Theorem speech_result_is_consistent (r m : PyObject) (c n : string) (w : World)
    (d : SpeechResult) :
  fst (recognize_speech_from_mic r m c n w) = Val d ->
  (is_some (transcription d) = negb (is_some (error d))) /\
  (is_some (transcription d) = true -> success d = true) /\
  (success d = false -> opt_truthy (error d) = true).
Proof.
  destruct r; try (cbn; intros H; injection H as <-; repeat split; discriminate).
  destruct m; try (cbn; intros H; injection H as <-; repeat split; discriminate).
  rewrite recognize_outcome. unfold speech_outcome.
  destruct (mic_open _); [|discriminate].
  destruct (adjust_noise _);
    [|destruct (mic_close _); [|discriminate];
      intros H; injection H as <-; repeat split; try discriminate; reflexivity].
  destruct (listen _) as [|e].
  - destruct (recognize_google _) as [t|e];
      [intros H; injection H as <-; repeat split; discriminate|].
    destruct (is_class RequestError e);
      [intros H; injection H as <-; repeat split; try discriminate; reflexivity|].
    destruct (is_class UnknownValueError e);
      intros H; injection H as <-; repeat split; try discriminate; reflexivity.
  - destruct (is_class WaitTimeoutError e);
      intros H; injection H as <-; repeat split; try discriminate; reflexivity.
Qed.

Lemma speech_result_is_consistent_witness :
  is_some (transcription (mkSpeech true (Some error_unrecognized) None))
  = negb (is_some (error (mkSpeech true (Some error_unrecognized) None))).
Proof.
  refine (proj1 (speech_result_is_consistent SrRecognizer SrMicrophone "en-US" "English (US)"
            (sample_world [] false mic_mumble (ai_says "hi") tts_fine)
            (mkSpeech true (Some error_unrecognized) None) _)).
  vm_compute. reflexivity.
Defined.

Lemma recognize_calls (c n : string) (w : World) :
  let env := mic_env w (mic_turns w) in
  mic_calls (snd (recognize_speech_from_mic SrRecognizer SrMicrophone c n w))
  = (mic_calls w ++
     MicOpen ::
     (if is_val (mic_open env) then
        attempted [(AdjustNoise 1, adjust_noise env); (Listen 7 20, listen env)] ++
        MicClose ::
        (if is_val (adjust_noise env) && is_val (listen env)
         then [RecognizeGoogle c] else [])
      else []))%list.
Proof.
  intros env. unfold recognize_speech_from_mic, capture, with_microphone, mic_exit.
  cbn [isinstance_Recognizer isinstance_Microphone negb].
  unfold bind, try_except, try_finally, next_mic_env, call, emit, print, log, ret.
  cbn [fst snd]. fold env.
  destruct (mic_open env) as [[]|e1]; [|reflexivity].
  destruct (adjust_noise env) as [[]|e2];
    [|destruct (mic_close env) as [[]|e5];
      unfold mic_calls; cbn; rewrite <- !app_assoc; reflexivity].
  destruct (listen env) as [[]|e3].
  - destruct (recognize_google env) as [t|e4];
      [unfold mic_calls; cbn; rewrite <- !app_assoc; reflexivity|].
    destruct (is_class RequestError e4);
      [unfold mic_calls; cbn; rewrite <- !app_assoc; reflexivity|].
    destruct (is_class UnknownValueError e4);
      unfold mic_calls; cbn; rewrite <- !app_assoc; reflexivity.
  - destruct (is_class WaitTimeoutError e3);
      unfold mic_calls; cbn; rewrite <- !app_assoc; reflexivity.
Qed.

(** The calls on the devices come in one order, each only when the one
    before has succeeded: the microphone is opened, the noise is
    measured for 1 s, the recognizer listens with a timeout of 7 s and
    a phrase limit of 20 s.  A microphone that was opened is closed
    again on every path, and the recognition request, with the
    language code of the call, is made only after it is closed and
    only when audio was captured. *)
Theorem microphone_is_scoped (c n : string) (w : World) :
  let env := mic_env w (mic_turns w) in
  mic_calls (snd (recognize_speech_from_mic SrRecognizer SrMicrophone c n w))
  = (mic_calls w ++
     MicOpen ::
     (if is_val (mic_open env) then
        attempted [(AdjustNoise 1, adjust_noise env); (Listen 7 20, listen env)] ++
        MicClose ::
        (if is_val (adjust_noise env) && is_val (listen env)
         then [RecognizeGoogle c] else [])
      else []))%list.
Proof. apply recognize_calls. Qed.


Lemma keeps_ai_turns_recognize r m c n : keeps ai_turns (recognize_speech_from_mic r m c n).
Proof. unfold recognize_speech_from_mic, capture, with_microphone. frame. Qed.

Lemma keeps_ai_env_recognize r m c n : keeps ai_env (recognize_speech_from_mic r m c n).
Proof. unfold recognize_speech_from_mic, capture, with_microphone. frame. Qed.




(* ================================================================= *)
(** * Further properties: text to speech *)

Lemma keeps_playback_report lang e : keeps playback_calls (report_tts_error lang e).
Proof. unfold report_tts_error. frame. Qed.

Lemma printed_report lang e w :
  printed (snd (report_tts_error lang e w))
  = (if is_class ValueError e && Py.contains "is not a valid language code" (exn_msg e)
     then "Sorry, I cannot speak in " ++ lang
          ++ ". Please check the language support for gTTS."
     else "An error occurred during text-to-speech: " ++ exn_msg e)
    :: printed w.
Proof.
  unfold report_tts_error.
  destruct (is_class ValueError e); [destruct (Py.contains _ _)|]; reflexivity.
Qed.

Lemma try_except_returns {A} (b : M A) h w :
  returns b -> snd (try_except b h w) = snd (b w).
Proof.
  intros R. unfold try_except. destruct (R w) as [a Ha].
  destruct (b w) as [[a'|e] w1]; cbn in *; [reflexivity | discriminate].
Qed.

(** The [try] block makes its five fallible calls in order and stops
    at the first that raises; what it leaves is the world [w1] after
    those calls, passed through the handler when one has raised. *)
Lemma try_block_world env s lang w :
  exists w1,
    snd (try_except (synthesize_and_play env s lang) (report_tts_error lang) w)
    = match first_failure (tts_steps env s lang) with
      | None => w1
      | Some e => snd (report_tts_error lang e w1)
      end /\
    playback_calls w1 = (playback_calls w ++ attempted (tts_steps env s lang))%list /\
    printed w1 = printed w.
Proof.
  unfold synthesize_and_play, tts_steps. cbn [attempted first_failure].
  erewrite try_except_bind_val by reflexivity.
  destruct (gtts_new env) as [[]|e] eqn:G; cbn [is_val].
  2:{ erewrite try_except_bind_exc by reflexivity.
      eexists. split; [reflexivity|]. split; reflexivity. }
  erewrite try_except_bind_val by reflexivity.
  unfold save at 1.
  destruct (tts_save env) as [[]|e] eqn:S; cbn [is_val].
  2:{ erewrite try_except_bind_exc by reflexivity.
      eexists. split; [reflexivity|].
      split; [unfold playback_calls; cbn; rewrite <- !app_assoc|]; reflexivity. }
  erewrite try_except_bind_val by reflexivity.
  destruct (mixer_init env) as [[]|e] eqn:I; cbn [is_val].
  2:{ erewrite try_except_bind_exc by reflexivity.
      eexists. split; [reflexivity|].
      split; [unfold playback_calls; cbn; rewrite <- !app_assoc|]; reflexivity. }
  erewrite try_except_bind_val by reflexivity.
  destruct (music_load env) as [[]|e] eqn:L; cbn [is_val].
  2:{ erewrite try_except_bind_exc by reflexivity.
      eexists. split; [reflexivity|].
      split; [unfold playback_calls; cbn; rewrite <- !app_assoc|]; reflexivity. }
  erewrite try_except_bind_val by reflexivity.
  erewrite try_except_bind_val by reflexivity.
  destruct (music_play env) as [[]|e] eqn:P; cbn [is_val].
  2:{ erewrite try_except_bind_exc by reflexivity.
      eexists. split; [reflexivity|].
      split; [unfold playback_calls; cbn; rewrite <- !app_assoc|]; reflexivity. }
  erewrite try_except_bind_val by reflexivity.
  eexists. split; [reflexivity|].
  assert (R : returns (wait_while_busy (busy_ticks env) ;; emit (Sleep 500)))
    by (apply returns_bind; [apply returns_wait_while_busy | intros; apply returns_emit]).
  assert (K1 : keeps playback_calls (wait_while_busy (busy_ticks env) ;; emit (Sleep 500)))
    by frame.
  assert (K2 : keeps printed (wait_while_busy (busy_ticks env) ;; emit (Sleep 500)))
    by frame.
  rewrite !(try_except_returns _ _ _ R), K1, K2.
  split; [unfold playback_calls; cbn; rewrite <- !app_assoc|]; reflexivity.
Qed.

Lemma playback_calls_cleanup env w :
  playback_calls (snd (cleanup env w))
  = (playback_calls w ++ (if mixer_up_at_exit env then [MusicStop; MixerQuit] else []))%list.
Proof.
  unfold cleanup. erewrite bind_val by reflexivity.
  destruct (mixer_up_at_exit env); erewrite bind_val by reflexivity; cbv beta;
    match goal with
    | |- playback_calls (snd (?m ?w1)) = _ =>
        assert (K : keeps playback_calls m) by frame; rewrite K
    end.
  - unfold playback_calls. cbn. rewrite <- !app_assoc. reflexivity.
  - unfold playback_calls. cbn. rewrite app_nil_r. reflexivity.
Qed.

Lemma keeps_printed_cleanup env : keeps printed (cleanup env).
Proof. unfold cleanup. frame. Qed.

(** A call with a non-empty text makes the calls on gTTS and the mixer
    in one order, each only when every one before has succeeded:
    [gTTS], [save], [mixer.init], [music.load], [music.play].  Nothing
    is played when the synthesis or the writing of the file has
    failed.  Whatever happened before, the mixer is stopped and quit
    when it is found up on entry to the [finally] block, and only
    then. *)
Theorem playback_calls_in_order (s lang : string) (w : World) :
  s <> EmptyString ->
  let env := tts_env w (tts_turns w) in
  playback_calls (snd (speak_text (PyStr s) lang w))
  = (playback_calls w ++ attempted (tts_steps env s lang)
     ++ (if mixer_up_at_exit env then [MusicStop; MixerQuit] else []))%list.
Proof.
  intros Hs env. rewrite speak_text_runs by (apply truthy_nonempty; assumption).
  fold env. rewrite try_finally_world, playback_calls_cleanup.
  destruct (try_block_world env s lang (next_tts_turn w)) as (w1 & E & C & _).
  rewrite E.
  destruct (first_failure (tts_steps env s lang));
    rewrite ?keeps_playback_report, C, <- app_assoc; reflexivity.
Qed.

Lemma playback_calls_in_order_witness :
  playback_calls
    (snd (speak_text (PyStr "hello") "xx"
            (sample_world [] false (mic_hears "hello") (ai_says "hi")
               (mkTtsEnv (Val tt) (Exc (mkExn OtherException "Failed to connect"))
                  true (Val tt) (Val tt) (Val tt) 3 false
                  (fun _ => false) (fun _ => false) (Val tt)))))
  = [Gtts "hello" "xx"; TtsSave].
Proof.
  refine (playback_calls_in_order "hello" "xx"
            (sample_world [] false (mic_hears "hello") (ai_says "hi")
               (mkTtsEnv (Val tt) (Exc (mkExn OtherException "Failed to connect"))
                  true (Val tt) (Val tt) (Val tt) 3 false
                  (fun _ => false) (fun _ => false) (Val tt))) _).
  discriminate.
Defined.

(** A failure of synthesis or playback is reported by exactly one
    printed line, and success by none.  The line is the "cannot speak
    in this language" message when the exception is a [ValueError]
    whose text contains "is not a valid language code", and the
    generic message with the text of the exception otherwise. *)
Theorem tts_failure_is_printed (s lang : string) (w : World) :
  s <> EmptyString ->
  printed (snd (speak_text (PyStr s) lang w))
  = List.app
      match first_failure (tts_steps (tts_env w (tts_turns w)) s lang) with
      | None => []
      | Some e =>
          [if is_class ValueError e
              && Py.contains "is not a valid language code" (exn_msg e)
           then "Sorry, I cannot speak in " ++ lang
                ++ ". Please check the language support for gTTS."
           else "An error occurred during text-to-speech: " ++ exn_msg e]
      end
      (printed w).
Proof.
  intros Hs. rewrite speak_text_runs by (apply truthy_nonempty; assumption).
  rewrite try_finally_world, keeps_printed_cleanup.
  destruct (try_block_world (tts_env w (tts_turns w)) s lang (next_tts_turn w))
    as (w1 & E & _ & P).
  rewrite E.
  destruct (first_failure (tts_steps (tts_env w (tts_turns w)) s lang)).
  - rewrite printed_report, P. reflexivity.
  - rewrite P. reflexivity.
Qed.

Lemma tts_failure_is_printed_witness :
  printed
    (snd (speak_text (PyStr "hello") "xx"
            (sample_world [] false (mic_hears "hello") (ai_says "hi")
               (mkTtsEnv (Exc (mkExn ValueError "'xx' is not a valid language code"))
                  (Val tt) false (Val tt) (Val tt) (Val tt) 0 false
                  (fun _ => false) (fun _ => false) (Val tt)))))
  = ["Sorry, I cannot speak in xx. Please check the language support for gTTS."].
Proof.
  refine (tts_failure_is_printed "hello" "xx"
            (sample_world [] false (mic_hears "hello") (ai_says "hi")
               (mkTtsEnv (Exc (mkExn ValueError "'xx' is not a valid language code"))
                  (Val tt) false (Val tt) (Val tt) (Val tt) 0 false
                  (fun _ => false) (fun _ => false) (Val tt))) _).
  discriminate.
Defined.

(** ** The removal, exactly *)

Lemma remove_rounds_exact env n : forall i w,
  short_pauses (snd (remove_rounds env i n w)) = short_pauses w + held_rounds env i n /\
  removals (snd (remove_rounds env i n w))
    = removals w + (if released_within env i n then 1 else 0) /\
  temp_file (snd (remove_rounds env i n w))
    = (if released_within env i n && is_val (os_remove env) then false else temp_file w).
Proof.
  induction n as [|n IH]; intros i w; cbn [remove_rounds held_rounds released_within].
  - cbn. repeat split; lia.
  - unfold released.
    destruct (mixer_up env i) eqn:U; [destruct (music_busy env i) eqn:B|];
      unfold bind, ask, ret, emit, remove; cbn [negb orb].
    + destruct (IH (S i) (emit_event (Sleep 100)
                  (emit_event (GetBusy true) (emit_event (GetInit true) w))))
        as (P & Q & F).
      rewrite P, Q, F. unfold short_pauses, removals. cbn. repeat split; lia.
    + destruct (os_remove env) as [[]|e];
        unfold short_pauses, removals; cbn; repeat split; lia.
    + destruct (os_remove env) as [[]|e];
        unfold short_pauses, removals; cbn; repeat split; lia.
Qed.

Lemma after_try_except_bind {X A B} (obs : World -> X) (m : M A) (k : A -> M B) h w :
  (forall a, keeps obs (k a)) -> (forall e, keeps obs (h e)) ->
  obs (snd (try_except (bind m k) h w)) = obs (snd (m w)).
Proof.
  intros Hk Hh. unfold try_except, bind.
  destruct (m w) as [[a|e] w1]; cbn [snd].
  - specialize (Hk a w1). destruct (k a w1) as [[b|e] w2]; cbn [snd] in *;
      [exact Hk | rewrite Hh; exact Hk].
  - apply Hh.
Qed.

Lemma cleanup_exact env w :
  short_pauses (snd (cleanup env w))
    = short_pauses w + (if temp_file w then held_rounds env 0 3 else 0) /\
  removals (snd (cleanup env w))
    = removals w + (if temp_file w && released_within env 0 3 then 1 else 0) /\
  temp_file (snd (cleanup env w))
    = temp_file w && negb (released_within env 0 3 && is_val (os_remove env)).
Proof.
  unfold cleanup. erewrite bind_val by reflexivity.
  set (w1 := emit_event (GetInit (mixer_up_at_exit env)) w).
  assert (E : exists w2,
             (if mixer_up_at_exit env then emit MusicStop;; emit MixerQuit else ret tt) w1
             = (Val tt, w2) /\
             temp_file w2 = temp_file w /\ short_pauses w2 = short_pauses w /\
             removals w2 = removals w).
  { destruct (mixer_up_at_exit env); eexists; (split; [reflexivity|]); auto. }
  destruct E as (w2 & E & F & P & Q).
  erewrite bind_val by exact E. erewrite bind_val by reflexivity.
  rewrite F. destruct (temp_file w) eqn:T; cbn [andb].
  2:{ cbn. rewrite F. unfold short_pauses, removals in *. cbn. repeat split; lia. }
  set (w3 := emit_event (PathExists true) w2).
  destruct (remove_rounds_exact env 3 0 w3) as (P3 & Q3 & F3).
  rewrite !after_try_except_bind; try (intros; frame).
  rewrite P3, Q3, F3.
  replace (short_pauses w3) with (short_pauses w) by (rewrite <- P; reflexivity).
  replace (removals w3) with (removals w) by (rewrite <- Q; reflexivity).
  replace (temp_file w3) with true by (cbn; congruence).
  repeat split.
Qed.

(** After a call with a non-empty text the file exists exactly when it
    existed on entry to the [finally] block and no removal has
    succeeded.  [os.remove] is called once when the file exists there
    and some round finds the playback subsystem released, and is not
    called otherwise, in particular never on a file that does not
    exist; the pauses are as many as the rounds that found it busy. *)
Theorem removal_is_exact (s lang : string) (w : World) :
  s <> EmptyString ->
  let env := tts_env w (tts_turns w) in
  let there := file_at_cleanup env (temp_file w) in
  let w' := snd (speak_text (PyStr s) lang w) in
  temp_file w' = there && negb (released_within env 0 3 && is_val (os_remove env)) /\
  removals w' = removals w + (if there && released_within env 0 3 then 1 else 0) /\
  short_pauses w' = short_pauses w + (if there then held_rounds env 0 3 else 0).
Proof.
  intros Hs env there w'. unfold w'.
  rewrite speak_text_runs by (apply truthy_nonempty; assumption). fold env.
  rewrite try_finally_world.
  set (w1 := snd (try_except (synthesize_and_play env s lang)
                    (report_tts_error lang) (next_tts_turn w))).
  assert (F1 : temp_file w1 = there)
    by (unfold w1; rewrite file_try_block; reflexivity).
  assert (P1 : short_pauses w1 = short_pauses w)
    by (unfold w1; rewrite keeps_pauses_try_block; reflexivity).
  assert (Q1 : removals w1 = removals w)
    by (unfold w1; rewrite keeps_removals_try_block; reflexivity).
  destruct (cleanup_exact env w1) as (P & Q & F).
  rewrite P, Q, F, F1, P1, Q1. repeat split.
Qed.

Lemma removal_is_exact_witness :
  removals
    (snd (speak_text (PyStr "hello") "en"
            (sample_world [] false (mic_hears "hello") (ai_says "hi")
               (mkTtsEnv (Exc (mkExn OtherException "no network"))
                  (Val tt) false (Val tt) (Val tt) (Val tt) 0 false
                  (fun _ => false) (fun _ => false) (Val tt))))) = 0.
Proof.
  pose proof (removal_is_exact "hello" "en"
                (sample_world [] false (mic_hears "hello") (ai_says "hi")
                   (mkTtsEnv (Exc (mkExn OtherException "no network"))
                      (Val tt) false (Val tt) (Val tt) (Val tt) 0 false
                      (fun _ => false) (fun _ => false) (Val tt)))) as H.
  cbv zeta in H. destruct H as (_ & H & _); [discriminate|]. exact H.
Defined.

(** C2.  The claim fails where the file cannot be removed at the first
    attempt.  The three rounds of the removal loop are rounds of
    asking the playback subsystem, not of trying the removal: when
    the first round finds the subsystem released -- with pygame this
    is every call, the mixer having been quit just before -- and
    [os.remove] raises, on a file that another process or the audio
    backend still holds, the exception leaves the loop for the
    handlers of lines 157-160.  [os.remove] has been called once,
    there is no pause and no second attempt, and the file stays,
    against the comment of line 148 ("adding a small delay if it
    fails initially").  The call itself still returns. *)
Theorem removal_is_not_retried (s lang : string) (w : World) (e : Exn) :
  s <> EmptyString ->
  let env := tts_env w (tts_turns w) in
  file_at_cleanup env (temp_file w) = true ->
  released env 0 = true ->
  os_remove env = Exc e ->
  let w' := snd (speak_text (PyStr s) lang w) in
  fst (speak_text (PyStr s) lang w) = Val tt /\
  removals w' = removals w + 1 /\
  short_pauses w' = short_pauses w /\
  temp_file w' = true.
Proof.
  intros Hs env Hf Hr He w'. split.
  { apply returns_unit, returns_speak_text. }
  unfold w'.
  rewrite speak_text_runs by (apply truthy_nonempty; assumption). fold env.
  rewrite try_finally_world.
  set (w1 := snd (try_except (synthesize_and_play env s lang)
                    (report_tts_error lang) (next_tts_turn w))).
  assert (F1 : temp_file w1 = true)
    by (unfold w1; rewrite file_try_block; exact Hf).
  assert (P1 : short_pauses w1 = short_pauses w)
    by (unfold w1; rewrite keeps_pauses_try_block; reflexivity).
  assert (Q1 : removals w1 = removals w)
    by (unfold w1; rewrite keeps_removals_try_block; reflexivity).
  destruct (cleanup_exact env w1) as (P & Q & F).
  rewrite P, Q, F, F1, P1, Q1, He.
  cbn [released_within held_rounds]. rewrite Hr. cbn. repeat split; lia.
Qed.

Lemma removal_is_not_retried_witness :
  removals (snd (speak_text (PyStr "hello") "en"
                   (sample_world [] false (mic_hears "hello") (ai_says "hi") tts_locked)))
  = 1 /\
  short_pauses (snd (speak_text (PyStr "hello") "en"
                       (sample_world [] false (mic_hears "hello") (ai_says "hi") tts_locked)))
  = 0 /\
  temp_file (snd (speak_text (PyStr "hello") "en"
                    (sample_world [] false (mic_hears "hello") (ai_says "hi") tts_locked)))
  = true.
Proof.
  pose proof (removal_is_not_retried "hello" "en"
                (sample_world [] false (mic_hears "hello") (ai_says "hi") tts_locked)
                (mkExn PermissionError "[WinError 32] The process cannot access the file")
                ltac:(discriminate) eq_refl eq_refl eq_refl) as H.
  cbv zeta in H. destruct H as (_ & H1 & H2 & H3).
  repeat split; assumption.
Defined.



Lemma keeps_mic_calls_speak_text v lang : keeps mic_calls (speak_text v lang).
Proof. unfold speak_text, synthesize_and_play, report_tts_error, cleanup. frame. Qed.




(* ================================================================= *)
(** * Further properties: the Gemini reply *)

Lemma keeps_requests_read_response response : keeps requests (read_response response).
Proof. unfold read_response, primary_text. frame. Qed.

Lemma keeps_ai_turns_read_response response : keeps ai_turns (read_response response).
Proof. unfold read_response, primary_text. frame. Qed.

Lemma get_ai_response_sends m prompt w :
  prompt <> EmptyString ->
  requests (snd (get_ai_response (Some m) prompt w)) = prompt :: requests w /\
  ai_turns (snd (get_ai_response (Some m) prompt w)) = S (ai_turns w).
Proof.
  intros Hp. unfold get_ai_response. rewrite (truthy_nonempty _ Hp). cbn [negb].
  erewrite try_except_bind_val by reflexivity.
  rewrite !after_try_except_bind;
    try (intros; first [apply keeps_requests_read_response
                       | apply keeps_ai_turns_read_response | frame]).
  unfold generate, bind, next_ai_env, call. cbn. split; reflexivity.
Qed.

(** Every call with a model and a non-empty prompt sends exactly one
    request, whatever the service does with it, and the request
    carries the prompt whole: the cut to 100 characters is made for
    the log line only. *)
Theorem prompt_is_sent_whole (m : GenerativeModel) (prompt : string) (w : World) :
  prompt <> EmptyString ->
  requests (snd (get_ai_response (Some m) prompt w)) = prompt :: requests w /\
  ai_turns (snd (get_ai_response (Some m) prompt w)) = S (ai_turns w).
Proof. apply get_ai_response_sends. Qed.

Lemma prompt_is_sent_whole_witness :
  requests
    (snd (get_ai_response (Some gemini)
            "Tell me a very long story about a fox who learns to sing and then travels the whole world twice"
            (sample_world [] false mic_silence
               (mkAiEnv (Exc (mkExn OtherException "503 service unavailable"))) tts_fine)))
  = ["Tell me a very long story about a fox who learns to sing and then travels the whole world twice"].
Proof.
  refine (proj1 (prompt_is_sent_whole gemini
            "Tell me a very long story about a fox who learns to sing and then travels the whole world twice"
            (sample_world [] false mic_silence
               (mkAiEnv (Exc (mkExn OtherException "503 service unavailable"))) tts_fine) _)).
  discriminate.
Defined.

(** When the request raises, or when the response is not blocked and
    reading its text raises, the exception does not leave the
    function: the reply is the fixed "error" sentence and the last
    thing done is to log the exception as an error. *)
Theorem service_failure_gives_error_reply (m : GenerativeModel) (prompt : string)
    (w : World) (e : Exn) :
  prompt <> EmptyString ->
  generate_content (ai_env w (ai_turns w)) = Exc e \/
  (exists response,
     generate_content (ai_env w (ai_turns w)) = Val response /\
     blocked response = None /\ text response = AttrRaises e) ->
  fst (get_ai_response (Some m) prompt w) = Val reply_error /\
  hd_error (trace (snd (get_ai_response (Some m) prompt w)))
    = Some (Log ERROR ("Error with Gemini API: " ++ exn_msg e)).
Proof.
  intros Hp [Hg | (response & Hg & Hb & Ht)].
  - unfold get_ai_response. rewrite (truthy_nonempty _ Hp). cbn [negb].
    erewrite try_except_bind_val by reflexivity.
    erewrite try_except_bind_exc;
      [|unfold generate, bind, next_ai_env, call; cbn; rewrite Hg; reflexivity].
    split; reflexivity.
  - rewrite (get_ai_response_reads m prompt w response Hp Hg).
    unfold read_response, primary_text. rewrite Hb, Ht.
    split; reflexivity.
Qed.

Lemma service_failure_gives_error_reply_witness :
  fst (get_ai_response (Some gemini) "hello"
         (sample_world [] false mic_silence
            (mkAiEnv (Exc (mkExn OtherException "503 service unavailable"))) tts_fine))
  = Val reply_error.
Proof.
  refine (proj1 (service_failure_gives_error_reply gemini "hello"
            (sample_world [] false mic_silence
               (mkAiEnv (Exc (mkExn OtherException "503 service unavailable"))) tts_fine)
            (mkExn OtherException "503 service unavailable") _ _)).
  - discriminate.
  - left. reflexivity.
Defined.

(** ** Replies carry no white space around them *)

Lemma starts_clean_lstrip s : starts_clean (Py.lstrip s) = true.
Proof.
  revert s. apply space_ind.
  - intros s Hn. rewrite lstrip_step, Hn. unfold starts_clean. now rewrite Hn.
  - intros s s' E IH. rewrite lstrip_step, E. exact IH.
Qed.

Lemma starts_clean_rstrip s : starts_clean s = true -> starts_clean (Py.rstrip s) = true.
Proof.
  unfold starts_clean. destruct (rstrip_split s) as (b & _ & E).
  destruct (Py.after_space (Py.rstrip s)) as [r|] eqn:A; [|reflexivity].
  apply (after_space_app _ _ b) in A. rewrite <- E in A. now rewrite A.
Qed.

Lemma ends_clean_rstrip s : ends_clean (Py.rstrip s) = true.
Proof.
  induction s as [|c s IH]; [reflexivity|].
  rewrite rstrip_cons. destruct (Py.all_space (String c s)) eqn:A; [reflexivity|].
  cbn [ends_clean]. rewrite IH, andb_true_r.
  unfold one_space.
  destruct (Py.after_space (String c (Py.rstrip s))) as [[|x r]|] eqn:O; try reflexivity.
  exfalso. destruct (rstrip_split s) as (b & Hb & E).
  apply (after_space_app _ _ b) in O. cbn [append] in O. rewrite <- E in O.
  rewrite (all_space_after _ _ O) in A. congruence.
Qed.

Lemma strip_is_clean s :
  starts_clean (Py.strip s) = true /\ ends_clean (Py.strip s) = true.
Proof.
  unfold Py.strip. split.
  - apply starts_clean_rstrip, starts_clean_lstrip.
  - apply ends_clean_rstrip.
Qed.

Lemma one_space_short s : one_space s = true -> String.length s <= 3.
Proof.
  unfold one_space. destruct (Py.after_space s) as [[|x r]|] eqn:A; try discriminate.
  intros _. destruct (after_space_split s _ A) as (y & -> & _ & L & _).
  rewrite append_length. cbn. lia.
Qed.

(** A white-space character takes three bytes at most, so what a
    string ends with is decided by its last three bytes. *)
Lemma ends_clean_app a b :
  3 <= String.length b -> ends_clean (a ++ b) = ends_clean b.
Proof.
  intros Hb. induction a as [|c a IH]; cbn [append]; [reflexivity|].
  cbn [ends_clean]. rewrite IH.
  destruct (one_space (String c (a ++ b))) eqn:O; [|reflexivity].
  apply one_space_short in O. cbn in O. rewrite append_length in O. lia.
Qed.

(** Whatever the model, the prompt and the service, the call returns a
    reply, and the reply neither begins nor ends with a white-space
    character. *)
Theorem reply_is_clean (model : option GenerativeModel) (prompt : string) (w : World) :
  exists reply,
    fst (get_ai_response model prompt w) = Val reply /\
    starts_clean reply = true /\ ends_clean reply = true.
Proof.
  unfold get_ai_response.
  destruct model as [m|]; [|eexists; repeat split].
  destruct (negb (Py.truthy prompt)); [eexists; repeat split|].
  unfold generate. unfold try_except, bind, log, emit, next_ai_env, call, ret.
  cbn [fst snd].
  match goal with
  | |- context [generate_content ?x] => destruct (generate_content x) as [response|e]
  end; [|eexists; repeat split].
  unfold read_response, primary_text, bind, log, emit, ret.
  destruct (blocked response) as [reason|].
  { eexists. split; [reflexivity|]. split; [reflexivity|].
    unfold reply_blocked.
    rewrite ends_clean_app by (rewrite append_length; cbn; lia).
    rewrite ends_clean_app by (cbn; lia). reflexivity. }
  destruct (text response) as [|s|e].
  - destruct (nonempty (parts response) && nonempty (all_text_parts (parts response)));
      eexists; (split; [reflexivity|]); [apply strip_is_clean | split; reflexivity].
  - destruct (Py.truthy s).
    + eexists. split; [reflexivity|]. apply strip_is_clean.
    + destruct (nonempty (parts response) && nonempty (all_text_parts (parts response)));
        eexists; (split; [reflexivity|]); [apply strip_is_clean | split; reflexivity].
  - eexists. repeat split.
Qed.

Lemma strip_blank s : Py.all_space s = true -> Py.strip s = EmptyString.
Proof.
  intros H. unfold Py.strip.
  rewrite <- (append_nil_r s), lstrip_padded by assumption. reflexivity.
Qed.

(** C5.  The claim fails for a response that carries nothing but blank
    text.  The fragments are tested as a list (line 186), not as the
    text they make: when the primary text is absent or empty and the
    fragments that have a text have the empty one, or white space,
    the joined and stripped text is the empty string, and that is
    returned as the reply.  The same holds of a primary text of white
    space only, which is truthy at line 182 and empty once stripped.
    The "empty or unexpected format" warning of line 189 is not
    logged and the "unusual response" message is not returned:
    nothing happens after the request. *)
Theorem blank_response_gives_empty_reply (m : GenerativeModel) (prompt : string)
    (w : World) (response : Response) :
  prompt <> EmptyString ->
  generate_content (ai_env w (ai_turns w)) = Val response ->
  blocked response = None ->
  (exists s, text response = HasAttr s /\ s <> EmptyString /\ Py.all_space s = true) \/
  ((text response = NoAttr \/ text response = HasAttr EmptyString) /\
   all_text_parts (parts response) <> [] /\
   Py.all_space (Py.join " " (all_text_parts (parts response))) = true) ->
  fst (get_ai_response (Some m) prompt w) = Val EmptyString /\
  hd_error (trace (snd (get_ai_response (Some m) prompt w)))
  = Some (GenerateContent prompt).
Proof.
  intros Hp Hg Hb H.
  rewrite (get_ai_response_reads m prompt w response Hp Hg).
  unfold read_response. rewrite Hb.
  destruct H as [(s & Ht & Hn & Hs) | (Ht & Hf & Hs)].
  - unfold primary_text. rewrite Ht, (truthy_nonempty _ Hn).
    erewrite try_except_bind_val by reflexivity. cbv iota beta.
    rewrite (strip_blank s Hs). split; reflexivity.
  - assert (E : primary_text response = ret None).
    { unfold primary_text. destruct Ht as [-> | ->]; reflexivity. }
    rewrite E. erewrite try_except_bind_val by reflexivity.
    rewrite (all_text_parts_nonempty _ Hf), (strip_blank _ Hs). split; reflexivity.
Qed.

Lemma blank_response_gives_empty_reply_witness :
  fst (get_ai_response (Some gemini) "hello"
         (sample_world [] false (mic_hears "hello")
            (ai_parts [mkPart (Some EmptyString)]) tts_fine))
  = Val EmptyString /\
  reply_unusual <> EmptyString.
Proof.
  split; [|discriminate].
  refine (proj1 (blank_response_gives_empty_reply gemini "hello"
                   (sample_world [] false (mic_hears "hello")
                      (ai_parts [mkPart (Some EmptyString)]) tts_fine)
                   (mkResponse None NoAttr [mkPart (Some EmptyString)])
                   ltac:(discriminate) eq_refl eq_refl _)).
  right. repeat split; [now left | discriminate].
Defined.

(* ================================================================= *)
(** * Further properties: the rounds of the session loop *)

(** A round that is a microphone turn, once the recognizer has come to
    the dict [r]: the loop responds to [r] in the world the
    recognition has left, and goes on with the session unchanged. *)
Lemma round_responds model st w line rest r :
  stdin w = line :: rest ->
  user_choice line <> "q" -> user_choice line <> "c" ->
  speech_outcome (mic_env w (mic_turns w)) = Val r ->
  loop_body model st w =
  (Val (Continue st),
   snd (respond_to model st r
          (snd (recognize_speech_from_mic SrRecognizer SrMicrophone
                  (current_speech_lang_code st) (current_speech_lang_name st)
                  (after_input idle_prompt w))))).
Proof.
  intros H Hq Hc Hr.
  rewrite (loop_body_listens model st w line rest H Hq Hc).
  unfold take_turn, bind.
  pose proof (recognize_outcome (current_speech_lang_code st)
                (current_speech_lang_name st) (after_input idle_prompt w)) as Ho.
  change (mic_env (after_input idle_prompt w) (mic_turns (after_input idle_prompt w)))
    with (mic_env w (mic_turns w)) in Ho.
  rewrite Hr in Ho.
  destruct (recognize_speech_from_mic _ _ _ _ (after_input idle_prompt w)) as [res w2].
  cbn [fst snd] in *. subst res.
  pose proof (returns_unit _ w2 (returns_respond_to model st r)) as Hu.
  destruct (respond_to model st r w2) as [res w3]. cbn [fst snd] in *. subst res.
  reflexivity.
Qed.

Lemma spoken_speak_text_any s lang w :
  spoken (snd (speak_text (PyStr s) lang w))
  = ((if Py.truthy s then [(s, lang)] else []) ++ spoken w)%list.
Proof.
  destruct (Py.truthy s) eqn:T.
  - rewrite spoken_speak_text by assumption. reflexivity.
  - rewrite speak_text_skips by (cbn; rewrite T; reflexivity). reflexivity.
Qed.

(** A round in which a non-empty text was understood, with a model:
    the text goes to [get_ai_response] in a world [w5] that has the
    Gemini scenario of the start of the round, and what comes back is
    spoken unless it is empty. *)
Lemma transcript_round m st w line rest heard :
  stdin w = line :: rest ->
  user_choice line <> "q" -> user_choice line <> "c" ->
  mic_open (mic_env w (mic_turns w)) = Val tt ->
  adjust_noise (mic_env w (mic_turns w)) = Val tt ->
  listen (mic_env w (mic_turns w)) = Val tt ->
  recognize_google (mic_env w (mic_turns w)) = Val heard ->
  heard <> EmptyString ->
  exists w5 reply,
    generate_content (ai_env w5 (ai_turns w5)) = generate_content (ai_env w (ai_turns w)) /\
    fst (get_ai_response (Some m) heard w5) = Val reply /\
    fst (loop_body (Some m) st w) = Val (Continue st) /\
    requests (snd (loop_body (Some m) st w)) = heard :: requests w /\
    spoken (snd (loop_body (Some m) st w))
    = ((if Py.truthy reply then [(reply, current_gtts_lang st)] else []) ++ spoken w)%list.
Proof.
  intros H Hq Hc Ho Ha Hl Hg Hh.
  assert (Hr : speech_outcome (mic_env w (mic_turns w))
               = Val (mkSpeech true None (Some heard))).
  { unfold speech_outcome. rewrite Ho, Ha, Hl, Hg. reflexivity. }
  rewrite (round_responds (Some m) st w line rest _ H Hq Hc Hr).
  set (w2 := snd (recognize_speech_from_mic _ _ _ _ (after_input idle_prompt w))).
  assert (A2 : ai_env w2 = ai_env w) by (unfold w2; rewrite keeps_ai_env_recognize; reflexivity).
  assert (T2 : ai_turns w2 = ai_turns w)
    by (unfold w2; rewrite keeps_ai_turns_recognize; reflexivity).
  assert (R2 : requests w2 = requests w)
    by (unfold w2; rewrite keeps_requests_recognize; reflexivity).
  assert (S2 : spoken w2 = spoken w)
    by (unfold w2; rewrite keeps_spoken_recognize; reflexivity).
  unfold respond_to. cbn [success transcription opt_truthy andb is_some opt_str].
  rewrite (truthy_nonempty _ Hh).
  do 3 (erewrite bind_val by reflexivity).
  set (w5 := emit_event _ (emit_event _ (emit_event _ w2))).
  destruct (returns_get_ai_response (Some m) heard w5) as [reply Hreply].
  exists w5, reply.
  split; [change (ai_env w5) with (ai_env w2); change (ai_turns w5) with (ai_turns w2);
          rewrite A2, T2; reflexivity|].
  split; [exact Hreply|]. split; [reflexivity|]. cbn [snd].
  pose proof (get_ai_response_sends m heard w5 Hh) as [Q _].
  pose proof (keeps_spoken_get_ai_response (Some m) heard w5) as P.
  destruct (get_ai_response (Some m) heard w5) as [res w6] eqn:E.
  cbn [fst snd] in *. subst res.
  erewrite bind_val by exact E.
  do 2 (erewrite bind_val by reflexivity).
  rewrite keeps_requests_speak_text, spoken_speak_text_any. cbn [requests spoken].
  split.
  - change (requests w5) with (requests w2) in Q. rewrite R2 in Q. exact Q.
  - f_equal. change (spoken w5) with (spoken w2) in P. rewrite S2 in P. exact P.
Qed.

(** A round from the microphone to the loudspeaker.  When a non-empty
    text is understood and the service answers it with a primary
    text, exactly one request is sent, with the understood text as
    its prompt, and the answer, stripped, is the one text spoken, in
    the synthesis language of the session; an answer of white space
    only is not spoken at all. *)
Theorem answered_round (m : GenerativeModel) (st : Session) (w : World)
    (line : string) (rest : list string) (heard : string)
    (response : Response) (s : string) :
  stdin w = line :: rest ->
  user_choice line <> "q" -> user_choice line <> "c" ->
  mic_open (mic_env w (mic_turns w)) = Val tt ->
  adjust_noise (mic_env w (mic_turns w)) = Val tt ->
  listen (mic_env w (mic_turns w)) = Val tt ->
  recognize_google (mic_env w (mic_turns w)) = Val heard ->
  heard <> EmptyString ->
  generate_content (ai_env w (ai_turns w)) = Val response ->
  blocked response = None ->
  text response = HasAttr s -> s <> EmptyString ->
  fst (loop_body (Some m) st w) = Val (Continue st) /\
  requests (snd (loop_body (Some m) st w)) = heard :: requests w /\
  spoken (snd (loop_body (Some m) st w))
  = ((if Py.truthy (Py.strip s) then [(Py.strip s, current_gtts_lang st)] else [])
     ++ spoken w)%list.
Proof.
  intros H Hq Hc Ho Ha Hl Hg Hh Hgen Hb Ht Hs.
  destruct (transcript_round m st w line rest heard H Hq Hc Ho Ha Hl Hg Hh)
    as (w5 & reply & G5 & Hreply & R1 & R2 & R3).
  rewrite Hgen in G5.
  rewrite (get_ai_response_reads m heard w5 response Hh G5) in Hreply.
  unfold read_response, primary_text in Hreply.
  rewrite Hb, Ht, (truthy_nonempty _ Hs) in Hreply.
  cbn in Hreply. injection Hreply as <-.
  repeat split; assumption.
Qed.

Lemma answered_round_witness :
  spoken (snd (loop_body (Some gemini) english
                 (sample_world [EmptyString; "q"] false (mic_hears "hello")
                    (ai_says (Py.NBSP ++ " Hi there!" ++ Py.IDSP)) tts_fine)))
  = [("Hi there!", "en")] /\
  spoken (snd (loop_body (Some gemini) english
                 (sample_world [EmptyString; "q"] false (mic_hears "hello")
                    (ai_says Py.NBSP) tts_fine)))
  = [].
Proof.
  split.
  - pose proof (answered_round gemini english
                  (sample_world [EmptyString; "q"] false (mic_hears "hello")
                     (ai_says (Py.NBSP ++ " Hi there!" ++ Py.IDSP)) tts_fine)
                  EmptyString ["q"] "hello"
                  (mkResponse None (HasAttr (Py.NBSP ++ " Hi there!" ++ Py.IDSP)) [])
                  (Py.NBSP ++ " Hi there!" ++ Py.IDSP)
                  eq_refl ltac:(discriminate) ltac:(discriminate)
                  eq_refl eq_refl eq_refl eq_refl ltac:(discriminate)
                  eq_refl eq_refl eq_refl ltac:(discriminate)) as (_ & _ & H).
    exact H.
  - pose proof (answered_round gemini english
                  (sample_world [EmptyString; "q"] false (mic_hears "hello")
                     (ai_says Py.NBSP) tts_fine)
                  EmptyString ["q"] "hello"
                  (mkResponse None (HasAttr Py.NBSP) []) Py.NBSP
                  eq_refl ltac:(discriminate) ltac:(discriminate)
                  eq_refl eq_refl eq_refl eq_refl ltac:(discriminate)
                  eq_refl eq_refl eq_refl ltac:(discriminate)) as (_ & _ & H).
    exact H.
Defined.

(** When the service blocks the prompt, the round speaks the "blocked"
    sentence with the name of the reason, like any other reply, and
    goes on. *)
Theorem blocked_round (m : GenerativeModel) (st : Session) (w : World)
    (line : string) (rest : list string) (heard : string)
    (response : Response) (reason : string) :
  stdin w = line :: rest ->
  user_choice line <> "q" -> user_choice line <> "c" ->
  mic_open (mic_env w (mic_turns w)) = Val tt ->
  adjust_noise (mic_env w (mic_turns w)) = Val tt ->
  listen (mic_env w (mic_turns w)) = Val tt ->
  recognize_google (mic_env w (mic_turns w)) = Val heard ->
  heard <> EmptyString ->
  generate_content (ai_env w (ai_turns w)) = Val response ->
  blocked response = Some reason ->
  fst (loop_body (Some m) st w) = Val (Continue st) /\
  requests (snd (loop_body (Some m) st w)) = heard :: requests w /\
  spoken (snd (loop_body (Some m) st w))
  = (reply_blocked reason, current_gtts_lang st) :: spoken w.
Proof.
  intros H Hq Hc Ho Ha Hl Hg Hh Hgen Hb.
  destruct (transcript_round m st w line rest heard H Hq Hc Ho Ha Hl Hg Hh)
    as (w5 & reply & G5 & Hreply & R1 & R2 & R3).
  rewrite Hgen in G5.
  rewrite (get_ai_response_reads m heard w5 response Hh G5) in Hreply.
  unfold read_response in Hreply. rewrite Hb in Hreply.
  cbn in Hreply. injection Hreply as <-.
  repeat split; assumption.
Qed.

Lemma blocked_round_witness :
  spoken (snd (loop_body (Some gemini) english
                 (sample_world [EmptyString; "q"] false (mic_hears "hello")
                    (mkAiEnv (Val (mkResponse (Some (mkFeedback (Some "SAFETY")))
                                     NoAttr [])))
                    tts_fine)))
  = [("Sorry, your request was blocked by the AI for safety reasons (SAFETY). Please try rephrasing.",
      "en")].
Proof.
  pose proof (blocked_round gemini english
                (sample_world [EmptyString; "q"] false (mic_hears "hello")
                   (mkAiEnv (Val (mkResponse (Some (mkFeedback (Some "SAFETY")))
                                    NoAttr [])))
                   tts_fine)
                EmptyString ["q"] "hello"
                (mkResponse (Some (mkFeedback (Some "SAFETY"))) NoAttr []) "SAFETY") as H.
  destruct H as (_ & _ & H); solve [reflexivity | discriminate | exact H].
Defined.

Lemma get_ai_response_raises m prompt w e :
  prompt <> EmptyString ->
  generate_content (ai_env w (ai_turns w)) = Exc e ->
  fst (get_ai_response (Some m) prompt w) = Val reply_error.
Proof.
  intros Hp Hg. unfold get_ai_response. rewrite (truthy_nonempty _ Hp). cbn [negb].
  erewrite try_except_bind_val by reflexivity.
  erewrite try_except_bind_exc;
    [|unfold generate, bind, next_ai_env, call; cbn; rewrite Hg; reflexivity].
  reflexivity.
Qed.

(** A request that raises does not end the session: the round speaks
    the fixed "error" sentence and goes on with the session
    unchanged. *)
Theorem failed_request_round (m : GenerativeModel) (st : Session) (w : World)
    (line : string) (rest : list string) (heard : string) (e : Exn) :
  stdin w = line :: rest ->
  user_choice line <> "q" -> user_choice line <> "c" ->
  mic_open (mic_env w (mic_turns w)) = Val tt ->
  adjust_noise (mic_env w (mic_turns w)) = Val tt ->
  listen (mic_env w (mic_turns w)) = Val tt ->
  recognize_google (mic_env w (mic_turns w)) = Val heard ->
  heard <> EmptyString ->
  generate_content (ai_env w (ai_turns w)) = Exc e ->
  fst (loop_body (Some m) st w) = Val (Continue st) /\
  requests (snd (loop_body (Some m) st w)) = heard :: requests w /\
  spoken (snd (loop_body (Some m) st w))
  = (reply_error, current_gtts_lang st) :: spoken w.
Proof.
  intros H Hq Hc Ho Ha Hl Hg Hh Hgen.
  destruct (transcript_round m st w line rest heard H Hq Hc Ho Ha Hl Hg Hh)
    as (w5 & reply & G5 & Hreply & R1 & R2 & R3).
  rewrite Hgen in G5.
  rewrite (get_ai_response_raises m heard w5 e Hh G5) in Hreply.
  injection Hreply as <-.
  repeat split; assumption.
Qed.

Lemma failed_request_round_witness :
  spoken (snd (loop_body (Some gemini) english
                 (sample_world [EmptyString; "q"] false (mic_hears "hello")
                    (mkAiEnv (Exc (mkExn OtherException "503 service unavailable")))
                    tts_fine)))
  = [(reply_error, "en")].
Proof.
  pose proof (failed_request_round gemini english
                (sample_world [EmptyString; "q"] false (mic_hears "hello")
                   (mkAiEnv (Exc (mkExn OtherException "503 service unavailable")))
                   tts_fine)
                EmptyString ["q"] "hello"
                (mkExn OtherException "503 service unavailable")) as H.
  destruct H as (_ & _ & H); solve [reflexivity | discriminate | exact H].
Defined.

Lemma printed_after_capture c n w :
  mic_open (mic_env w (mic_turns w)) = Val tt ->
  adjust_noise (mic_env w (mic_turns w)) = Val tt ->
  listen (mic_env w (mic_turns w)) = Val tt ->
  printed (snd (recognize_speech_from_mic SrRecognizer SrMicrophone c n w))
  = "Processing your speech..."
    :: ("Listening in " ++ n ++ ". Please start speaking...")
    :: (Py.NL ++ "Adjusting for ambient noise, please wait...")
    :: printed w.
Proof.
  intros Ho Ha Hl. unfold recognize_speech_from_mic, capture, with_microphone, mic_exit.
  cbn [isinstance_Recognizer isinstance_Microphone negb].
  unfold bind, try_except, try_finally, next_mic_env, call, emit, print, log, ret.
  cbn [fst snd]. rewrite Ho, Ha, Hl.
  destruct (recognize_google (mic_env w (mic_turns w))) as [t|e]; [reflexivity|].
  destruct (is_class RequestError e); [reflexivity|].
  destruct (is_class UnknownValueError e); reflexivity.
Qed.

(** When the recognizer returns the empty text, the round is silent:
    nothing is printed after "Processing your speech...", nothing is
    spoken, no request is sent, and the loop goes on. *)
Theorem empty_transcript_round (model : option GenerativeModel) (st : Session)
    (w : World) (line : string) (rest : list string) :
  stdin w = line :: rest ->
  user_choice line <> "q" -> user_choice line <> "c" ->
  mic_open (mic_env w (mic_turns w)) = Val tt ->
  adjust_noise (mic_env w (mic_turns w)) = Val tt ->
  listen (mic_env w (mic_turns w)) = Val tt ->
  recognize_google (mic_env w (mic_turns w)) = Val EmptyString ->
  fst (loop_body model st w) = Val (Continue st) /\
  hd_error (printed (snd (loop_body model st w))) = Some "Processing your speech..." /\
  spoken (snd (loop_body model st w)) = spoken w /\
  requests (snd (loop_body model st w)) = requests w /\
  tts_turns (snd (loop_body model st w)) = tts_turns w.
Proof.
  intros H Hq Hc Ho Ha Hl Hg.
  assert (Hr : speech_outcome (mic_env w (mic_turns w))
               = Val (mkSpeech true None (Some EmptyString))).
  { unfold speech_outcome. rewrite Ho, Ha, Hl, Hg. reflexivity. }
  rewrite (round_responds model st w line rest _ H Hq Hc Hr).
  cbn [fst snd respond_to ret].
  change (respond_to model st (mkSpeech true None (Some EmptyString))) with (@ret unit tt).
  cbn [ret snd].
  rewrite printed_after_capture by assumption.
  rewrite keeps_spoken_recognize, keeps_requests_recognize, keeps_tts_turns_recognize.
  repeat split.
Qed.

Lemma empty_transcript_round_witness :
  spoken (snd (loop_body (Some gemini) english
                 (sample_world [EmptyString; "q"] false (mic_hears EmptyString)
                    (ai_says "hi") tts_fine)))
  = [].
Proof.
  pose proof (empty_transcript_round (Some gemini) english
                (sample_world [EmptyString; "q"] false (mic_hears EmptyString)
                   (ai_says "hi") tts_fine)
                EmptyString ["q"]) as H.
  destruct H as (_ & _ & H & _); solve [reflexivity | discriminate | exact H].
Defined.





(* ================================================================= *)
(** * Further properties: how the session loop ends *)



Lemma stdin_In_select_language_loop n : forall w x,
  In x (stdin (snd (select_language_loop n w))) -> In x (stdin w).
Proof.
  induction n as [|n IH]; intros w x; cbn [select_language_loop];
    (destruct (stdin w) as [|l rest] eqn:S;
     [ unfold bind, input; rewrite S; cbn; rewrite S; auto
     | rewrite (bind_val _ _ _ _ _ (input_reads choice_prompt w l rest S));
       destruct (lookup l SUPPORTED_LANGUAGES);
       [ unfold after_input; rewrite S; cbn; auto | ] ]).
  - erewrite bind_val by reflexivity. unfold after_input. rewrite S. cbn. auto.
  - erewrite bind_val by reflexivity. intros H. apply IH in H.
    revert H. unfold after_input. rewrite S. cbn. auto.
Qed.

Lemma stdin_In_select_language w x :
  In x (stdin (snd (select_language w))) -> In x (stdin w).
Proof.
  destruct (select_language_menu w) as (w1 & E & S1 & _). rewrite E, <- S1.
  apply stdin_In_select_language_loop.
Qed.

Lemma loop_body_stdin_In model st w st' w' :
  loop_body model st w = (Val (Continue st'), w') ->
  forall x, In x (stdin w') -> In x (stdin w).
Proof.
  intros H x. destruct (stdin w) as [|line rest] eqn:S.
  - unfold loop_body, bind, input in H. rewrite S in H. discriminate.
  - rewrite (loop_body_dispatch model st w line rest S) in H.
    assert (S1 : stdin (after_input idle_prompt w) = rest)
      by (unfold after_input; rewrite S; reflexivity).
    destruct (String.eqb (user_choice line) "q"); [cbn in H; discriminate|].
    destruct (String.eqb (user_choice line) "c").
    + apply bind_inv in H. destruct H as (info & w1 & Hsel & H).
      pose proof (stdin_In_select_language (after_input idle_prompt w) x) as L.
      rewrite Hsel, S1 in L. cbn [snd] in L.
      cbv zeta in H. unfold bind, print, emit, ret in H.
      injection H as _ Hw. rewrite <- Hw. cbn. auto.
    + apply bind_inv in H. destruct H as (u & w1 & Ht & H).
      pose proof (keeps_stdin_take_turn model st (after_input idle_prompt w)) as K.
      rewrite Ht, S1 in K. cbn [snd] in K.
      unfold ret in H. injection H as _ Hw. rewrite <- Hw, K. cbn. auto.
Qed.

Lemma loop_body_breaks model st w w' :
  loop_body model st w = (Val Break, w') ->
  exists line rest, stdin w = line :: rest /\ user_choice line = "q".
Proof.
  intros H. destruct (stdin w) as [|line rest] eqn:S.
  - unfold loop_body, bind, input in H. rewrite S in H. discriminate.
  - rewrite (loop_body_dispatch model st w line rest S) in H.
    destruct (String.eqb (user_choice line) "q") eqn:Q.
    { apply String.eqb_eq in Q. eauto. }
    destruct (String.eqb (user_choice line) "c").
    + apply bind_inv in H. destruct H as (info & w1 & _ & H).
      cbv zeta in H. unfold bind, print, emit, ret in H. discriminate.
    + apply bind_inv in H. destruct H as (u & w1 & _ & H).
      unfold ret in H. discriminate.
Qed.






Lemma run_finished_cause model n : forall st w,
  fst (run n model st w) = Finished ->
  exists line, In line (stdin w) /\ user_choice line = "q".
Proof.
  induction n as [|n IH]; intros st w H; cbn [run] in H; [discriminate|].
  destruct (loop_body model st w) as [[[|st1]|e1] w1] eqn:E; cbn [fst] in H.
  - apply loop_body_breaks in E. destruct E as (line & rest & S & Q).
    exists line. rewrite S. split; [left; reflexivity | exact Q].
  - apply IH in H. destruct H as (line & Hin & Q).
    exists line. split; [|exact Q]. eapply loop_body_stdin_In; eassumption.
  - discriminate.
Qed.



(** The loop is left by [break] only when a line was typed that is
    [q] once stripped and lowercased. *)
Theorem loop_breaks_only_on_q (model : option GenerativeModel) (n : nat)
    (st : Session) (w : World) :
  fst (run n model st w) = Finished ->
  exists line, In line (stdin w) /\ user_choice line = "q".
Proof. apply run_finished_cause. Qed.

Lemma loop_breaks_only_on_q_witness :
  exists line,
    In line (stdin (sample_world [EmptyString; "Q" ++ Py.NBSP; "x"] false
                      (mic_hears "hello") (ai_says "hi") tts_fine)) /\
    user_choice line = "q".
Proof.
  apply (loop_breaks_only_on_q (Some gemini) 5 english
           (sample_world [EmptyString; "Q" ++ Py.NBSP; "x"] false (mic_hears "hello")
              (ai_says "hi") tts_fine)).
  vm_compute. reflexivity.
Defined.

(* ================================================================= *)
(** * Further properties: start-up and shutdown *)

Lemma startup_spec env w :
  exists w1,
    startup env w
    = (Val (if is_val (new_devices env)
            then Some (if model_ready env
                       then Some (mkModel "gemini-1.5-flash-latest") else None)
            else None), w1) /\
    stdin w1 = stdin w /\
    requests w1 = requests w /\
    prompts w1 = prompts w /\
    mic_calls w1 = mic_calls w /\
    playback_calls w1 = playback_calls w /\
    (is_val (new_devices env) = false ->
     hd_error (trace w1) = Some (Print fatal_message)).
Proof.
  unfold startup, init_model, model_ready.
  destruct (opt_truthy (getenv_key env));
    destruct (genai_configure env) as [[]|e1];
    destruct (new_generative_model env) as [[]|e2];
    destruct (new_devices env) as [[]|e3];
    eexists; (split; [reflexivity|]); repeat split; intros; discriminate.
Qed.

(** Start-up never raises; it reads no input, sends no request and
    makes no call on the microphone, the recognizer or the mixer.  It
    ends in [exit()] exactly when the recognizer and the microphone
    cannot be created; otherwise the session gets a model handle
    exactly when the key is truthy and both calls of the client
    library have returned, and no handle in every other case. *)
Theorem startup_outcome (env : StartEnv) (w : World) :
  fst (startup env w)
  = Val (if is_val (new_devices env)
         then Some (if model_ready env
                    then Some (mkModel "gemini-1.5-flash-latest") else None)
         else None) /\
  stdin (snd (startup env w)) = stdin w /\
  requests (snd (startup env w)) = requests w /\
  prompts (snd (startup env w)) = prompts w /\
  mic_calls (snd (startup env w)) = mic_calls w /\
  playback_calls (snd (startup env w)) = playback_calls w.
Proof.
  destruct (startup_spec env w) as (w1 & E & A & B & C & D & F & _).
  rewrite E. cbn [fst snd]. auto 6.
Qed.

(** When the recognizer or the microphone cannot be created, the
    program prints the fatal message and exits: it asks nothing, reads
    nothing, and the [finally] clause of the loop is not reached, so
    the fatal message is the last thing it does. *)
Theorem main_exits_without_devices (env : StartEnv) (w : World) (e : Exn) :
  new_devices env = Exc e ->
  fst (main env w) = ExitCalled /\
  stdin (snd (main env w)) = stdin w /\
  prompts (snd (main env w)) = prompts w /\
  hd_error (trace (snd (main env w))) = Some (Print fatal_message).
Proof.
  intros H. unfold main.
  destruct (startup_spec env w) as (w1 & E & A & _ & C & _ & _ & F).
  rewrite E, H in *. cbn [is_val fst snd] in *. auto.
Qed.

Lemma main_exits_without_devices_witness :
  fst (main start_without_microphone
         (sample_world ["1"; "q"] false (mic_hears "hello") (ai_says "hi") tts_fine))
  = ExitCalled.
Proof.
  refine (proj1 (main_exits_without_devices start_without_microphone
                   (sample_world ["1"; "q"] false (mic_hears "hello") (ai_says "hi") tts_fine)
                   (mkExn OSError "No Default Input Device Available") _)).
  reflexivity.
Defined.

Lemma initial_selection_selects bad w key info rest :
  Forall (fun l => lookup l SUPPORTED_LANGUAGES = None) bad ->
  lookup key SUPPORTED_LANGUAGES = Some info ->
  stdin w = (bad ++ key :: rest)%list ->
  exists w2, initial_selection w = (Val (use_language info), w2) /\ stdin w2 = rest.
Proof.
  intros Hb Hk Hs.
  destruct (select_language_reprompts bad w key info rest Hb Hk Hs) as (A & B).
  unfold initial_selection, bind at 1.
  destruct (select_language w) as [r w1]. cbn [fst snd] in A, B. subst r.
  cbv zeta. eexists. split; [reflexivity|]. exact B.
Qed.

(** Once the devices exist and a language has been selected, the
    program ends through the [finally] clause, however the loop was
    left: the loop has ended, the last calls are
    [pygame.mixer.get_init()], then [pygame.mixer.quit()] when the
    mixer is initialised and only then, and the last thing printed is
    "Application closed.". *)
Theorem main_runs_finally (env : StartEnv) (w : World)
    (bad : list string) (key : string) (info : LangInfo) (rest : list string) :
  new_devices env = Val tt ->
  Forall (fun l => lookup l SUPPORTED_LANGUAGES = None) bad ->
  lookup key SUPPORTED_LANGUAGES = Some info ->
  stdin w = (bad ++ key :: rest)%list ->
  exists o tr,
    fst (main env w) = LoopEnded o /\
    (forall st, o <> Running st) /\
    trace (snd (main env w))
    = Print "Application closed."
      :: ((if mixer_up_at_end env then [MixerQuit] else [])
          ++ GetInit (mixer_up_at_end env) :: tr)%list.
Proof.
  intros Hd Hb Hk Hs. unfold main.
  destruct (startup_spec env w) as (w1 & E & A & _).
  rewrite E, Hd. cbn [is_val].
  rewrite <- A in Hs.
  destruct (initial_selection_selects bad w1 key info rest Hb Hk Hs) as (w2 & E2 & S2).
  rewrite E2.
  pose proof (run_ends (if model_ready env
                        then Some (mkModel "gemini-1.5-flash-latest") else None)
                (S (List.length (stdin w2))) (use_language info) w2) as R.
  destruct (run _ _ _ w2) as [o w3]. cbn [fst snd] in *.
  exists o, (trace w3). split; [reflexivity|]. split.
  - intros st. apply R. lia.
  - unfold shutdown, bind, ask, emit, print.
    destruct (mixer_up_at_end env); reflexivity.
Qed.

Lemma main_runs_finally_witness :
  exists o tr,
    fst (main start_fine
           (sample_world ["7"; "1"; EmptyString] false mic_unplugged
              (ai_says "hi") tts_fine)) = LoopEnded o /\
    (forall st, o <> Running st) /\
    trace (snd (main start_fine
                  (sample_world ["7"; "1"; EmptyString] false mic_unplugged
                     (ai_says "hi") tts_fine)))
    = Print "Application closed."
      :: ((if mixer_up_at_end start_fine then [MixerQuit] else [])
          ++ GetInit (mixer_up_at_end start_fine) :: tr)%list.
Proof.
  apply (main_runs_finally start_fine
           (sample_world ["7"; "1"; EmptyString] false mic_unplugged
              (ai_says "hi") tts_fine)
           ["7"] "1" (mkLang "English (US)" "en-US" "en") [EmptyString]).
  - reflexivity.
  - repeat constructor.
  - reflexivity.
  - reflexivity.
Defined.

Lemma select_language_loop_exhausted_last l : forall n w,
  stdin w = l ->
  Forall (fun x => lookup x SUPPORTED_LANGUAGES = None) l ->
  hd_error (trace (snd (select_language_loop (List.length l + n) w)))
  = Some (Input choice_prompt).
Proof.
  induction l as [|x l IH]; intros n w Hs Hb.
  - cbn [List.length plus]. destruct n; cbn [select_language_loop];
      unfold bind, input; rewrite Hs; reflexivity.
  - inversion Hb as [|? ? Hx Hb']; subst.
    cbn [List.length plus select_language_loop].
    rewrite (bind_val _ _ _ _ _ (input_reads choice_prompt w x l Hs)).
    rewrite Hx. erewrite bind_val by reflexivity.
    apply IH; [|exact Hb']. unfold after_input. rewrite Hs. reflexivity.
Qed.

(** The first selection of a language is outside the [try] statement
    of the loop: when the input ends before a key of the registry is
    typed, the [EOFError] of [input] ends the program uncaught, and
    the [finally] clause does not run, so the call of [input] that
    raised is the last thing the program does. *)
Theorem first_selection_is_unprotected (env : StartEnv) (w : World) :
  new_devices env = Val tt ->
  Forall (fun l => lookup l SUPPORTED_LANGUAGES = None) (stdin w) ->
  fst (main env w) = Uncaught (mkExn EOFError "EOF when reading a line") /\
  hd_error (trace (snd (main env w))) = Some (Input choice_prompt).
Proof.
  intros Hd Hb. unfold main.
  destruct (startup_spec env w) as (w1 & E & A & _).
  rewrite E, Hd. cbn [is_val]. rewrite <- A in Hb.
  destruct (select_language_menu w1) as (w2 & E2 & S2 & _).
  rewrite <- S2 in Hb.
  pose proof (select_language_loop_exhausted (stdin w2) 0 w2 eq_refl Hb) as (X & _).
  pose proof (select_language_loop_exhausted_last (stdin w2) 0 w2 eq_refl Hb) as Y.
  rewrite Nat.add_0_r in X, Y. rewrite <- E2 in X, Y.
  assert (I : exists w3,
             initial_selection w1
             = (Exc (mkExn EOFError "EOF when reading a line"), w3) /\
             hd_error (trace w3) = Some (Input choice_prompt)).
  { unfold initial_selection, bind at 1.
    destruct (select_language w1) as [r w3]. cbn [fst snd] in X, Y. subst r. eauto. }
  destruct I as (w3 & I & Y'). rewrite I. auto.
Qed.

Lemma first_selection_is_unprotected_witness :
  fst (main start_fine
         (sample_world ["english"; "q"] false (mic_hears "hello") (ai_says "hi") tts_fine))
  = Uncaught (mkExn EOFError "EOF when reading a line").
Proof.
  refine (proj1 (first_selection_is_unprotected start_fine
                   (sample_world ["english"; "q"] false (mic_hears "hello")
                      (ai_says "hi") tts_fine) _ _)).
  - reflexivity.
  - repeat constructor.
Defined.

Lemma keeps_requests_initial_selection : keeps requests initial_selection.
Proof. unfold initial_selection. frame. Qed.

Lemma keeps_requests_shutdown env : keeps requests (shutdown env).
Proof. unfold shutdown. frame. Qed.

(** Without a model handle -- no key, an empty key, or a failure of
    one of the two calls of the client library -- the whole program,
    from start-up to shutdown, sends no request to the Gemini
    service, whatever is typed and said. *)
Theorem no_model_no_request (env : StartEnv) (w : World) :
  model_ready env = false ->
  requests (snd (main env w)) = requests w.
Proof.
  intros H. unfold main.
  destruct (startup_spec env w) as (w1 & E & _ & B & _).
  rewrite E, H.
  destruct (is_val (new_devices env)); [|exact B].
  pose proof (keeps_requests_initial_selection w1) as K.
  destruct (initial_selection w1) as [[st|e] w2]; cbn [snd] in *; [|congruence].
  pose proof (keeps_requests_run_without_model (S (List.length (stdin w2))) st w2) as R.
  destruct (run _ None st w2) as [o w3]. cbn [snd] in *.
  rewrite keeps_requests_shutdown. congruence.
Qed.

Lemma no_model_no_request_witness :
  requests (snd (main start_without_key
                   (sample_world ["1"; EmptyString; "q"] false (mic_hears "hello")
                      (ai_says "hi") tts_fine)))
  = [].
Proof.
  apply (no_model_no_request start_without_key
           (sample_world ["1"; EmptyString; "q"] false (mic_hears "hello")
              (ai_says "hi") tts_fine)).
  reflexivity.
Defined.

(* ================================================================= *)
(** * The idle prompt: what a round does with the line typed *)

Lemma obs_bind {X A B} (obs : World -> X) (m : M A) (k : A -> M B) w :
  (forall a, keeps obs (k a)) -> obs (snd (bind m k w)) = obs (snd (m w)).
Proof.
  intros K. unfold bind. destruct (m w) as [[a|e] w1]; [apply K | reflexivity].
Qed.

Lemma keeps_mic_calls_get_ai_response model prompt :
  keeps mic_calls (get_ai_response model prompt).
Proof. unfold get_ai_response, generate, read_response, primary_text. frame. Qed.

Lemma keeps_mic_calls_respond_to model st r : keeps mic_calls (respond_to model st r).
Proof.
  pose proof keeps_mic_calls_speak_text. pose proof keeps_mic_calls_get_ai_response.
  unfold respond_to. frame.
Qed.

Lemma keeps_prompts_take_turn model st : keeps prompts (take_turn model st).
Proof.
  unfold take_turn, respond_to, recognize_speech_from_mic, capture, with_microphone,
    get_ai_response, generate, read_response, primary_text,
    speak_text, synthesize_and_play, report_tts_error, cleanup.
  frame.
Qed.

Lemma keeps_mic_calls_select_language : keeps mic_calls select_language.
Proof. frame. Qed.

(** The selection loop asks once more than it complains. *)
Lemma select_language_loop_trace n : forall w,
  List.length (stdin w) <= n ->
  exists k,
    printed (snd (select_language_loop n w))
      = (repeat invalid_notice k ++ printed w)%list /\
    prompts (snd (select_language_loop n w))
      = (repeat choice_prompt (S k) ++ prompts w)%list.
Proof.
  induction n as [|n IH]; intros w L; cbn [select_language_loop];
    (destruct (stdin w) as [|l rest] eqn:Sw;
     [ exists 0; unfold bind, input; rewrite Sw; split; reflexivity |]).
  - cbn in L. lia.
  - rewrite (bind_val _ _ _ _ _ (input_reads choice_prompt w l rest Sw)).
    destruct (lookup l SUPPORTED_LANGUAGES); [exists 0; split; reflexivity|].
    erewrite bind_val by reflexivity.
    set (w2 := emit_event _ (after_input choice_prompt w)).
    assert (S2 : List.length (stdin w2) <= n)
      by (unfold w2, after_input; rewrite Sw; cbn in *; lia).
    destruct (IH w2 S2) as (k & P & Q). exists (S k). rewrite P, Q. split.
    + change (printed w2) with (invalid_notice :: printed w).
      cbn [repeat]. rewrite repeat_snoc. reflexivity.
    + change (prompts w2) with (choice_prompt :: prompts w).
      change (repeat choice_prompt (S (S k)))
        with (choice_prompt :: repeat choice_prompt (S k)).
      rewrite repeat_snoc. reflexivity.
Qed.

Lemma select_language_trace w :
  exists k,
    printed (snd (select_language w))
      = (repeat invalid_notice k ++ rev menu_lines ++ printed w)%list /\
    prompts (snd (select_language w))
      = (repeat choice_prompt (S k) ++ prompts w)%list.
Proof.
  destruct (select_language_menu w) as (w1 & E & _ & P1 & Q1). rewrite E.
  destruct (select_language_loop_trace (List.length (stdin w1)) w1 (le_n _))
    as (k & P & Q).
  exists k. rewrite P, Q, P1, Q1. split; reflexivity.
Qed.

(** C7.  The line read at the idle prompt is stripped and lowercased.
    If the result is [q] the loop ends, having only printed the
    farewell.  If it is [c] the round is a language selection: the
    menu is shown and the choice is asked for, and no call is made on
    the microphone or the recognizer.  For every other line, the
    empty one included, the round is a microphone turn: the
    microphone is opened, and the calls on the devices are those of
    one recognition in the language of the session; nothing more is
    read or asked, and the language stays.  Two lines with the same
    stripped and lowercased form make the round behave identically. *)
Theorem idle_prompt_dispatch (model : option GenerativeModel) (st : Session)
    (w : World) (line : string) (rest : list string) :
  stdin w = line :: rest ->
  let w1 := after_input idle_prompt w in
  let env := mic_env w (mic_turns w) in
  (Py.lower (Py.strip line) = "q" ->
   forall n, run (S n) model st w
             = (Finished, emit_event (Print "Exiting assistant. Goodbye!") w1)) /\
  (Py.lower (Py.strip line) = "c" ->
   loop_body model st w =
     (selected <- select_language ;;
      print (Py.NL ++ "Language changed to: " ++ name selected
             ++ " (Code: " ++ code selected ++ ")") ;;
      ret (Continue (use_language selected))) w1 /\
   mic_turns (snd (loop_body model st w)) = mic_turns w /\
   mic_calls (snd (loop_body model st w)) = mic_calls w /\
   exists k more,
     prompts (snd (loop_body model st w))
       = (repeat choice_prompt (S k) ++ idle_prompt :: prompts w)%list /\
     printed (snd (loop_body model st w))
       = (more ++ repeat invalid_notice k ++ rev menu_lines ++ printed w)%list) /\
  (Py.lower (Py.strip line) <> "q" -> Py.lower (Py.strip line) <> "c" ->
   loop_body model st w = (take_turn model st ;; ret (Continue st)) w1 /\
   mic_turns (snd (loop_body model st w)) = S (mic_turns w) /\
   mic_calls (snd (loop_body model st w))
   = (mic_calls w ++
      MicOpen ::
      (if is_val (mic_open env) then
         attempted [(AdjustNoise 1, adjust_noise env); (Listen 7 20, listen env)] ++
         MicClose ::
         (if is_val (adjust_noise env) && is_val (listen env) && is_val (mic_exit env)
          then [RecognizeGoogle (current_speech_lang_code st)] else [])
       else []))%list /\
   prompts (snd (loop_body model st w)) = idle_prompt :: prompts w /\
   stdin (snd (loop_body model st w)) = rest /\
   (forall st' w', loop_body model st w = (Val (Continue st'), w') -> st' = st)) /\
  (forall line',
     Py.lower (Py.strip line') = Py.lower (Py.strip line) ->
     loop_body model st (set_stdin (line' :: rest) w) = loop_body model st w).
Proof.
  intros H w1 env. fold (user_choice line).
  pose proof (loop_body_dispatch model st w line rest H) as D. fold w1 in D.
  assert (S1 : stdin w1 = rest) by (unfold w1, after_input; rewrite H; reflexivity).
  split; [|split; [|split]].
  - intros Hq n. cbn [run]. rewrite D, Hq. reflexivity.
  - intros Hc. rewrite D, Hc. split; [reflexivity|].
    cbn [String.eqb Ascii.eqb Bool.eqb andb].
    assert (K : keeps mic_turns
                  (selected <- select_language ;;
                   let st' := use_language selected in
                   print (Py.NL ++ "Language changed to: " ++ current_speech_lang_name st'
                          ++ " (Code: " ++ current_speech_lang_code st' ++ ")") ;;
                   ret (Continue st'))) by frame.
    assert (Kc : keeps mic_calls
                  (selected <- select_language ;;
                   let st' := use_language selected in
                   print (Py.NL ++ "Language changed to: " ++ current_speech_lang_name st'
                          ++ " (Code: " ++ current_speech_lang_code st' ++ ")") ;;
                   ret (Continue st')))
      by (pose proof keeps_mic_calls_select_language; frame).
    rewrite K, Kc. split; [reflexivity|]. split; [reflexivity|].
    destruct (select_language_trace w1) as (k & P & Q).
    exists k. cbv zeta. unfold bind, print, emit, ret.
    destruct (select_language w1) as [[info|e] w2]; cbn [snd] in P, Q |- *.
    + eexists [_].
      change (prompts (emit_event _ w2)) with (prompts w2).
      rewrite Q. split; [reflexivity|].
      match goal with
      | |- printed (emit_event (Print ?m) w2) = _ =>
          change (printed (emit_event (Print m) w2)) with (m :: printed w2)
      end.
      rewrite P. reflexivity.
    + exists []. rewrite P, Q. split; reflexivity.
  - intros Hq Hc. apply String.eqb_neq in Hq, Hc. rewrite D, Hq, Hc.
    split; [reflexivity|].
    split.
    { unfold bind at 1.
      pose proof (mic_turns_take_turn model st w1) as Hm.
      destruct (take_turn model st w1) as [[u|e] w2]; exact Hm. }
    split.
    { rewrite (obs_bind mic_calls) by (intros; frame).
      unfold take_turn.
      rewrite (obs_bind mic_calls) by (intros; apply keeps_mic_calls_respond_to).
      rewrite (recognize_calls (current_speech_lang_code st)
                 (current_speech_lang_name st) w1).
      change (mic_env w1 (mic_turns w1)) with env. change (mic_calls w1) with (mic_calls w).
      unfold mic_exit. destruct (adjust_noise env); [|reflexivity].
      cbn [is_val andb]. rewrite andb_true_r. reflexivity. }
    split.
    { rewrite (obs_bind prompts) by (intros; frame).
      rewrite keeps_prompts_take_turn. reflexivity. }
    split.
    { rewrite (obs_bind stdin) by (intros; frame).
      rewrite keeps_stdin_take_turn. exact S1. }
    intros st' w' E. apply bind_inv in E. destruct E as (u & w2 & _ & E).
    unfold ret in E. injection E as E _. congruence.
  - intros line' E. fold (user_choice line') in E.
    rewrite (loop_body_dispatch model st (set_stdin (line' :: rest) w) line' rest eq_refl).
    rewrite D, E. unfold w1, after_input. rewrite H. reflexivity.
Qed.

Lemma idle_prompt_dispatch_witness :
  run 1 (Some gemini) english
    (sample_world [Py.IDSP ++ " Q" ++ Py.NBSP; "1"] false (mic_hears "hello")
       (ai_says "hi") tts_fine)
  = (Finished,
     emit_event (Print "Exiting assistant. Goodbye!")
       (after_input idle_prompt
          (sample_world [Py.IDSP ++ " Q" ++ Py.NBSP; "1"] false (mic_hears "hello")
             (ai_says "hi") tts_fine)))
  /\
  mic_calls (snd (loop_body (Some gemini) english
    (sample_world [EmptyString; "q"] false (mic_hears "hello") (ai_says "hi") tts_fine)))
  = [MicOpen; AdjustNoise 1; Listen 7 20; MicClose; RecognizeGoogle "en-US"].
Proof.
  split.
  - apply (idle_prompt_dispatch (Some gemini) english
             (sample_world [Py.IDSP ++ " Q" ++ Py.NBSP; "1"] false (mic_hears "hello")
                (ai_says "hi") tts_fine)
             (Py.IDSP ++ " Q" ++ Py.NBSP) ["1"] eq_refl).
    reflexivity.
  - apply (idle_prompt_dispatch (Some gemini) english
             (sample_world [EmptyString; "q"] false (mic_hears "hello") (ai_says "hi") tts_fine)
             EmptyString ["q"] eq_refl); discriminate.
Defined.
